(** * The Cedar-OS streaming client ([frontend/lib/cedar-stream.ts])

    A shallow embedding of [CedarStreamService]: its connection life cycle,
    channel routing, reconnection policy, heartbeat timer and metrics, with
    the properties of the specification stated over it.

    Conventions of the embedding.
    - The class instance and the part of the JavaScript world it acts on
      (clock, timers, transports, console, the subscribers' own state) form
      one record, [Client].  Every method is a function in the monad [M],
      which threads that record and carries JavaScript exceptions: state
      changes made before a [throw] persist, as in JavaScript.
    - Everything the client does to the outside is appended to [trace], in
      program order.
    - Subscribers and listeners are opaque functions of the caller.  They run
      on a state of their own ([U]), may throw and may take time.  In
      [Client] they do not call back into the client while it is dispatching
      to them.  Functions that do, and the arrays of handlers as objects
      that change while [forEach] walks them, are the subject of [Live], the
      last part of the definitions.
    - Numbers are integers (or NaN where the code can produce it); the only
      fraction the client computes, the average latency, is an exact
      rational where JavaScript rounds to a double. *)

From Stdlib Require Import ZArith QArith List Lia.
From stdpp Require Import base option list strings gmap.

Set Default Proof Using "Type".
Set Warnings "-register-all".
Local Open Scope Z_scope.

(** ** JavaScript values *)

(** Values as [JSON.parse] and object literals build them.  [JUndefined]
    never comes out of [JSON.parse]; it appears when a missing property is
    read and copied into a new object. *)
Inductive JSValue :=
| JUndefined
| JNull
| JBool (b : bool)
| JNum (n : Z)
| JStr (s : string)
| JArr (items : list JSValue)
| JObj (fields : gmap string JSValue).

(** An integer or NaN: the result of date arithmetic. *)
Inductive JSNumber :=
| NaN
| Int (z : Z).

(** The value of [sum / length]. *)
Inductive JSAverage :=
| AvgNaN
| Avg (q : Q).

(** The outcome of evaluating JavaScript code: a value, or a thrown one. *)
Inductive result (A : Type) :=
| Ok (a : A)
| Throw (e : JSValue).
Arguments Ok {A} a.
Arguments Throw {A} e.

Definition TypeError (message : string) : JSValue :=
  JObj {[ "name" := JStr "TypeError"; "message" := JStr message ]}.

(** [v.key].  Reading a property of [null] or [undefined] throws; on any
    other value a property that is not there reads as [undefined].  The
    client reads only [type], [channel], [data], [timestamp], [code] and
    [message], none of which is a built-in property of strings, numbers,
    booleans or arrays. *)
Definition getProp (v : JSValue) (key : string) : result JSValue :=
  match v with
  | JUndefined => Throw (TypeError "Cannot read properties of undefined")
  | JNull => Throw (TypeError "Cannot read properties of null")
  | JObj fields => Ok (default JUndefined (fields !! key))
  | _ => Ok JUndefined
  end.

(** Truthiness, as [&&], [||] and [if] test it. *)
Definition truthy (v : JSValue) : bool :=
  match v with
  | JUndefined | JNull => false
  | JBool b => b
  | JNum n => negb (n =? 0)
  | JStr EmptyString => false
  | JStr (String _ _) => true
  | JArr _ | JObj _ => true
  end.

(** [typeof v === 'string'] *)
Definition typeof_string (v : JSValue) : bool :=
  match v with JStr _ => true | _ => false end.

(** [v !== undefined] *)
Definition not_undefined (v : JSValue) : bool :=
  match v with JUndefined => false | _ => true end.

(** [v === 'literal'] *)
Definition strict_eq_str (v : JSValue) (literal : string) : bool :=
  match v with JStr s => String.eqb s literal | _ => false end.

(** [a || b] *)
Definition js_or (a b : JSValue) : JSValue := if truthy a then a else b.

(** [n || d] on a number: zero is falsy. *)
Definition num_or (n d : Z) : Z := if n =? 0 then d else n.

(** [a - b] *)
Definition js_sub (a b : JSNumber) : JSNumber :=
  match a, b with
  | Int x, Int y => Int (x - y)
  | _, _ => NaN
  end.

(** [a + b] *)
Definition js_add (a b : JSNumber) : JSNumber :=
  match a, b with
  | Int x, Int y => Int (x + y)
  | _, _ => NaN
  end.

(** ** Types of [types/cedar-stream.ts] *)

Record CedarStreamConfig := mkConfig {
  endpoint : string;
  channels : list string;
  reconnectInterval : option Z;
  maxReconnectAttempts : option Z;
  heartbeatInterval : option Z;
  debug : option bool
}.

Inductive CedarStreamStatus :=
| connecting
| connected
| disconnected
| reconnecting
| error.

Inductive CedarStreamEvent :=
| ev_connect
| ev_disconnect
| ev_reconnect
| ev_error
| ev_status_change.

Global Instance CedarStreamStatus_eq_dec : EqDecision CedarStreamStatus.
Proof. solve_decision. Defined.

Global Instance CedarStreamEvent_eq_dec : EqDecision CedarStreamEvent.
Proof. solve_decision. Defined.

Definition CedarStreamEvent_code (e : CedarStreamEvent) : nat :=
  match e with
  | ev_connect => 0 | ev_disconnect => 1 | ev_reconnect => 2
  | ev_error => 3 | ev_status_change => 4
  end%nat.

Definition CedarStreamEvent_of_code (n : nat) : option CedarStreamEvent :=
  match n with
  | 0 => Some ev_connect | 1 => Some ev_disconnect | 2 => Some ev_reconnect
  | 3 => Some ev_error | 4 => Some ev_status_change | _ => None
  end%nat.

Global Program Instance CedarStreamEvent_countable : Countable CedarStreamEvent :=
  inj_countable CedarStreamEvent_code CedarStreamEvent_of_code _.
Next Obligation. by intros []. Qed.

Definition status_name (s : CedarStreamStatus) : string :=
  match s with
  | connecting => "connecting"
  | connected => "connected"
  | disconnected => "disconnected"
  | reconnecting => "reconnecting"
  | error => "error"
  end.

Record CedarStreamMetrics := mkMetrics {
  messagesReceived : Z;
  messagesProcessed : Z;
  errorsCount : Z;
  lastMessageTime : string;
  connectionUptime : Z;
  averageLatency : JSAverage
}.

(** [MessageEvent]: the client reads only its [data]. *)
Record MessageEvent := mkMessageEvent { data : string }.

(** ** The platform *)

(** A [URL] object: what [new URL(path, base)] resolved, and its query. *)
Record URL := mkURL {
  href : string;
  searchParams : list (string * string)
}.

(** [url.searchParams.set(key, value)]: the first pair with that key takes
    the value and later ones go; without one the pair is appended. *)
Fixpoint searchParams_set_list (key value : string) (l : list (string * string))
  : list (string * string) :=
  match l with
  | [] => [(key, value)]
  | kv :: rest =>
      if String.eqb (fst kv) key
      then (key, value) :: List.filter (fun kv' => negb (String.eqb (fst kv') key)) rest
      else kv :: searchParams_set_list key value rest
  end.

Definition searchParams_set (key value : string) (url : URL) : URL :=
  {| href := href url;
     searchParams := searchParams_set_list key value (searchParams url) |}.

(** The built-ins the client calls and that are not part of it. *)
Record Env := mkEnv {
  (** [JSON.parse(text)] *)
  JSON_parse : string -> result JSValue;
  (** [new URL(path, base)] *)
  new_URL : string -> string -> result URL;
  (** [new EventSource(url)]: [Some e] when the constructor throws [e] *)
  new_EventSource : URL -> option JSValue;
  (** [new Date(ms).toISOString()] *)
  toISOString : Z -> string;
  (** [new Date(v).getTime()] *)
  Date_getTime : JSValue -> JSNumber
}.

(** How a [fetch] ends. *)
Inductive FetchOutcome :=
| fetch_ok
| fetch_not_ok (statusText : string)
| fetch_rejected (e : JSValue).

(** What [log] is called with. *)
Inductive LogMsg :=
| log_connected
| log_stream_error (e : JSValue)
| log_connect_failed (e : JSValue)
| log_disconnecting
| log_subscribed (channel : string)
| log_unsubscribed (channel : string)
| log_message_error (e : JSValue)
| log_cedar_event_error (e : JSValue)
| log_heartbeat_received (heartbeat : JSValue)
| log_heartbeat_error (e : JSValue)
| log_channel_handler_error (channel : JSValue) (e : JSValue)
| log_giving_up
| log_scheduling_reconnect (attempt delay : Z)
| log_heartbeat_send_failed (e : JSValue)
| log_status_changed (old new : CedarStreamStatus)
| log_event_handler_error (event : CedarStreamEvent) (e : JSValue).

(** What the client does to the outside, in program order. *)
Inductive Effect :=
| Invoked (handler : nat) (arg : JSValue)
| ConsoleLog (m : LogMsg)
| EventSourceCreated (es : nat) (url : URL)
| EventSourceClosed (es : nat)
| TimeoutSet (timer : nat) (delay : Z)
| TimeoutCleared (timer : nat)
| IntervalSet (timer : nat) (interval : Z)
| IntervalCleared (timer : nat)
| FetchPost (url : string) (channel : string) (body : JSValue).

Section Service.

(** The state the subscribers' callbacks run on. *)
Context {U : Type}.

(** What a call of a subscriber's function does: it changes the caller's
    state, takes some milliseconds, and returns or throws. *)
Record Outcome := mkOutcome {
  after : U;
  elapsed : N;
  thrown : option JSValue
}.

(** A function object: [hid] is its identity (what [indexOf] compares),
    [hrun] its body, which does not call the client. *)
Record Handler := mkHandler {
  hid : nat;
  hrun : JSValue -> U -> Outcome
}.

(** The fields of [CedarStreamService], then the world around it. *)
Record Client := mkClient {
  config : CedarStreamConfig;
  status : CedarStreamStatus;
  eventSource : option nat;
  eventHandlers : gmap CedarStreamEvent (list Handler);
  channelHandlers : gmap string (list Handler);
  reconnectAttempts : Z;
  reconnectTimer : option nat;
  heartbeatTimer : option nat;
  metrics : CedarStreamMetrics;
  connectionStartTime : Z;
  latencyHistory : list JSNumber;
  (** [Date.now()] *)
  now : Z;
  (** the next unused timer or transport handle *)
  nextHandle : nat;
  (** the subscribers' state *)
  user : U;
  (** what the client has done so far *)
  trace : list Effect
}.

(** [this.field = v], one function per field that is assigned. *)
Definition set_status (v : CedarStreamStatus) (c : Client) : Client :=
  let 'mkClient cfg _ es eh ch ra rt ht ms cst lh t nh u tr := c in
  mkClient cfg v es eh ch ra rt ht ms cst lh t nh u tr.

Definition set_eventSource (v : option nat) (c : Client) : Client :=
  let 'mkClient cfg st _ eh ch ra rt ht ms cst lh t nh u tr := c in
  mkClient cfg st v eh ch ra rt ht ms cst lh t nh u tr.

Definition set_eventHandlers (v : gmap CedarStreamEvent (list Handler)) (c : Client) : Client :=
  let 'mkClient cfg st es _ ch ra rt ht ms cst lh t nh u tr := c in
  mkClient cfg st es v ch ra rt ht ms cst lh t nh u tr.

Definition set_channelHandlers (v : gmap string (list Handler)) (c : Client) : Client :=
  let 'mkClient cfg st es eh _ ra rt ht ms cst lh t nh u tr := c in
  mkClient cfg st es eh v ra rt ht ms cst lh t nh u tr.

Definition set_reconnectAttempts (v : Z) (c : Client) : Client :=
  let 'mkClient cfg st es eh ch _ rt ht ms cst lh t nh u tr := c in
  mkClient cfg st es eh ch v rt ht ms cst lh t nh u tr.

Definition set_reconnectTimer (v : option nat) (c : Client) : Client :=
  let 'mkClient cfg st es eh ch ra _ ht ms cst lh t nh u tr := c in
  mkClient cfg st es eh ch ra v ht ms cst lh t nh u tr.

Definition set_heartbeatTimer (v : option nat) (c : Client) : Client :=
  let 'mkClient cfg st es eh ch ra rt _ ms cst lh t nh u tr := c in
  mkClient cfg st es eh ch ra rt v ms cst lh t nh u tr.

Definition set_metrics (v : CedarStreamMetrics) (c : Client) : Client :=
  let 'mkClient cfg st es eh ch ra rt ht _ cst lh t nh u tr := c in
  mkClient cfg st es eh ch ra rt ht v cst lh t nh u tr.

Definition set_connectionStartTime (v : Z) (c : Client) : Client :=
  let 'mkClient cfg st es eh ch ra rt ht ms _ lh t nh u tr := c in
  mkClient cfg st es eh ch ra rt ht ms v lh t nh u tr.

Definition set_latencyHistory (v : list JSNumber) (c : Client) : Client :=
  let 'mkClient cfg st es eh ch ra rt ht ms cst _ t nh u tr := c in
  mkClient cfg st es eh ch ra rt ht ms cst v t nh u tr.

Definition set_now (v : Z) (c : Client) : Client :=
  let 'mkClient cfg st es eh ch ra rt ht ms cst lh _ nh u tr := c in
  mkClient cfg st es eh ch ra rt ht ms cst lh v nh u tr.

Definition set_nextHandle (v : nat) (c : Client) : Client :=
  let 'mkClient cfg st es eh ch ra rt ht ms cst lh t _ u tr := c in
  mkClient cfg st es eh ch ra rt ht ms cst lh t v u tr.

Definition set_user (v : U) (c : Client) : Client :=
  let 'mkClient cfg st es eh ch ra rt ht ms cst lh t nh _ tr := c in
  mkClient cfg st es eh ch ra rt ht ms cst lh t nh v tr.

Definition set_trace (v : list Effect) (c : Client) : Client :=
  let 'mkClient cfg st es eh ch ra rt ht ms cst lh t nh u _ := c in
  mkClient cfg st es eh ch ra rt ht ms cst lh t nh u v.

(** ** The monad of methods *)

Definition M (A : Type) : Type := Client -> result A * Client.

Definition ret {A} (a : A) : M A := fun c => (Ok a, c).

Definition bind {A B} (m : M A) (k : A -> M B) : M B := fun c =>
  match m c with
  | (Ok a, c') => k a c'
  | (Throw e, c') => (Throw e, c')
  end.

(** [throw e] *)
Definition throw {A} (e : JSValue) : M A := fun c => (Throw e, c).

(** [try { body } catch (e) { handler }] *)
Definition try_catch {A} (body : M A) (handler : JSValue -> M A) : M A := fun c =>
  match body c with
  | (Ok a, c') => (Ok a, c')
  | (Throw e, c') => handler e c'
  end.

(** An expression that reads no state. *)
Definition lift {A} (r : result A) : M A := fun c => (r, c).

(** [this.field] *)
Definition get {A} (field : Client -> A) : M A := fun c => (Ok (field c), c).

(** [this.field = ...] *)
Definition modify (f : Client -> Client) : M unit := fun c => (Ok tt, f c).

(** One more entry of the trace. *)
Definition emit_effect (e : Effect) : M unit :=
  modify (fun c => set_trace (trace c ++ [e]) c).

(** The state a method leaves, and what it returned. *)
Definition exec {A} (m : M A) (c : Client) : Client := snd (m c).
Definition outcome {A} (m : M A) (c : Client) : result A := fst (m c).

End Service.

Arguments Outcome : clear implicits.
Arguments Handler : clear implicits.
Arguments Client : clear implicits.
Arguments M : clear implicits.

Declare Scope method_scope.
Delimit Scope method_scope with M.
Notation "x <- m ;; k" := (bind m (fun x => k))
  (at level 20, m at level 99, k at level 200, only parsing) : method_scope.
Notation "m ;; k" := (bind m (fun _ => k))
  (at level 100, k at level 200, only parsing, right associativity) : method_scope.

(** The same for expressions that read no state. *)
Definition rbind {A B} (r : result A) (k : A -> result B) : result B :=
  match r with
  | Ok a => k a
  | Throw e => Throw e
  end.
Notation "x <~ r ;; k" := (rbind r (fun x => k))
  (at level 20, r at level 99, k at level 200, only parsing).

(** ** The methods of [CedarStreamService] *)

Section Methods.

Context {U : Type}.
Variable env : Env.

Local Open Scope method_scope.
Local Abbreviation M := (M U).
Local Abbreviation Client := (Client U).
Local Abbreviation Handler := (Handler U).

(** [new Error(message)] *)
Definition Error (message : string) : JSValue :=
  JObj {[ "name" := JStr "Error"; "message" := JStr message ]}.

(** [option || d] on an optional number of the configuration. *)
Definition opt_or (o : option Z) (d : Z) : Z :=
  match o with
  | Some n => num_or n d
  | None => d
  end.

(** [constructor(config)]: the defaults, overridden by the keys [config]
    has.  [t0] and [u0] are the clock and the callers' state then. *)
Definition constructor (cfg : CedarStreamConfig) (t0 : Z) (u0 : U) : Client :=
  mkClient
    {| endpoint := endpoint cfg;
       channels := channels cfg;
       reconnectInterval := Some (default 3000 (reconnectInterval cfg));
       maxReconnectAttempts := Some (default 5 (maxReconnectAttempts cfg));
       heartbeatInterval := Some (default 30000 (heartbeatInterval cfg));
       debug := Some (default false (debug cfg)) |}
    disconnected None ∅ ∅ 0 None None
    {| messagesReceived := 0; messagesProcessed := 0; errorsCount := 0;
       lastMessageTime := EmptyString; connectionUptime := 0; averageLatency := Avg 0 |}
    0 [] t0 0%nat u0 [].

(** [Date.now()] *)
Definition Date_now : M Z := get now.

(** [new Date().toISOString()] *)
Definition Date_toISOString : M JSValue :=
  t <- Date_now;; ret (JStr (toISOString env t)).

(** [log(...args)] *)
Definition log (m : LogMsg) : M unit :=
  dbg <- get (fun c => debug (config c));;
  if default false dbg then emit_effect (ConsoleLog m) else ret tt.

(** [handler(arg)] for a function that does not call the client: the call
    is recorded, the callers' state and the clock move, and the call returns
    or throws.  [Live.call] is the call of any function. *)
Definition call (handler : Handler) (arg : JSValue) : M unit := fun c =>
  let o := hrun handler arg (user c) in
  let c' := set_trace (trace c ++ [Invoked (hid handler) arg])
              (set_now (now c + Z.of_N (elapsed o)) (set_user (after o) c)) in
  match thrown o with
  | Some e => (Throw e, c')
  | None => (Ok tt, c')
  end.

(** [xs.forEach(f)] for an array that [f] leaves as it is.  [Live.forEach]
    is the loop over an array that [f] may change. *)
Fixpoint forEach {A} (xs : list A) (f : A -> M unit) : M unit :=
  match xs with
  | [] => ret tt
  | x :: rest => f x;; forEach rest f
  end.

(** [this.eventHandlers.get(event) || []] *)
Definition listeners (event : CedarStreamEvent) (c : Client) : list Handler :=
  default [] (eventHandlers c !! event).

(** [this.channelHandlers.get(channel) || []] for a string [channel] *)
Definition subscribers (channel : string) (c : Client) : list Handler :=
  default [] (channelHandlers c !! channel).

(** [emit(event, data)] *)
Definition emit (event : CedarStreamEvent) (arg : JSValue) : M unit :=
  handlers <- get (listeners event);;
  forEach handlers (fun handler =>
    try_catch (call handler arg)
              (fun e => log (log_event_handler_error event e))).

(** [setStatus(status)] *)
Definition setStatus (st : CedarStreamStatus) : M unit :=
  oldStatus <- get status;;
  if decide (oldStatus <> st) then
    modify (set_status st);;
    log (log_status_changed oldStatus st);;
    emit ev_status_change
         (JObj {[ "from" := JStr (status_name oldStatus);
                  "to" := JStr (status_name st) ]})
  else ret tt.

(** [recordLatency(latency)] *)
Definition recordLatency (latency : JSNumber) : M unit :=
  modify (fun c => set_latencyHistory (latencyHistory c ++ [latency]) c);;
  len <- get (fun c => length (latencyHistory c));;
  if (100 <? len)%nat
  then modify (fun c => set_latencyHistory (tail (latencyHistory c)) c)
  else ret tt.

(** [calculateAverageLatency()] *)
Definition calculateAverageLatency (c : Client) : JSAverage :=
  if (length (latencyHistory c) =? 0)%nat then Avg 0
  else match fold_left js_add (latencyHistory c) (Int 0) with
       | NaN => AvgNaN
       | Int sum => Avg (sum # Pos.of_nat (length (latencyHistory c)))
       end.

(** [getStatus()] *)
Definition getStatus (c : Client) : CedarStreamStatus := status c.

(** [getMetrics()] *)
Definition getMetrics (c : Client) : CedarStreamMetrics :=
  let uptime := if decide (status c = connected)
                then now c - connectionStartTime c else 0 in
  {| messagesReceived := messagesReceived (metrics c);
     messagesProcessed := messagesProcessed (metrics c);
     errorsCount := errorsCount (metrics c);
     lastMessageTime := lastMessageTime (metrics c);
     connectionUptime := uptime;
     averageLatency := calculateAverageLatency c |}.

(** [setTimeout(callback, delay)] and [setInterval(callback, interval)]:
    a new handle; the callbacks are [onReconnectTimer] and [sendHeartbeat]
    below. *)
Definition setTimeout (delay : Z) : M nat :=
  t <- get nextHandle;;
  modify (set_nextHandle (S t));;
  emit_effect (TimeoutSet t delay);;
  ret t.

Definition setInterval (interval : Z) : M nat :=
  t <- get nextHandle;;
  modify (set_nextHandle (S t));;
  emit_effect (IntervalSet t interval);;
  ret t.

(** [startHeartbeat()] *)
Definition startHeartbeat : M unit :=
  timer <- get heartbeatTimer;;
  match timer with
  | Some _ => ret tt
  | None =>
      interval <- get (fun c => opt_or (heartbeatInterval (config c)) 30000);;
      t <- setInterval interval;;
      modify (set_heartbeatTimer (Some t))
  end.

(** [send(channel, data)], with the way its [fetch] ends. *)
Definition send (response : FetchOutcome) (channel : string) (body : JSValue) : M unit :=
  base <- get (fun c => endpoint (config c));;
  emit_effect (FetchPost (base +:+ "/cedar/send") channel body);;
  match response with
  | fetch_ok => ret tt
  | fetch_not_ok statusText =>
      throw (Error ("Failed to send data to channel " +:+ channel +:+ ": " +:+ statusText))
  | fetch_rejected e => throw e
  end.

(** [sendHeartbeat()], the callback of the heartbeat interval;
    [client_id] is what [generateClientId()] drew. *)
Definition sendHeartbeat (client_id : string) (response : FetchOutcome) : M unit :=
  try_catch
    (ts <- Date_toISOString;;
     send response "system"
          (JObj {[ "type" := JStr "heartbeat"; "timestamp" := ts;
                   "client_id" := JStr client_id ]}))
    (fun e => log (log_heartbeat_send_failed e)).

(** [scheduleReconnect()] *)
Definition scheduleReconnect : M unit :=
  timer <- get reconnectTimer;;
  match timer with
  | Some _ => ret tt
  | None =>
      setStatus reconnecting;;
      modify (fun c => set_reconnectAttempts (reconnectAttempts c + 1) c);;
      delay <- get (fun c => opt_or (reconnectInterval (config c)) 3000);;
      attempt <- get reconnectAttempts;;
      log (log_scheduling_reconnect attempt delay);;
      t <- setTimeout delay;;
      modify (set_reconnectTimer (Some t));;
      attempt <- get reconnectAttempts;;
      emit ev_reconnect (JObj {[ "attempt" := JNum attempt; "delay" := JNum delay ]})
  end.

(** [metrics.errorsCount++] and the like *)
Definition incr_errorsCount (m : CedarStreamMetrics) : CedarStreamMetrics :=
  mkMetrics (messagesReceived m) (messagesProcessed m) (errorsCount m + 1)
            (lastMessageTime m) (connectionUptime m) (averageLatency m).

Definition incr_messagesReceived (m : CedarStreamMetrics) : CedarStreamMetrics :=
  mkMetrics (messagesReceived m + 1) (messagesProcessed m) (errorsCount m)
            (lastMessageTime m) (connectionUptime m) (averageLatency m).

Definition incr_messagesProcessed (m : CedarStreamMetrics) : CedarStreamMetrics :=
  mkMetrics (messagesReceived m) (messagesProcessed m + 1) (errorsCount m)
            (lastMessageTime m) (connectionUptime m) (averageLatency m).

Definition set_lastMessageTime (t : string) (m : CedarStreamMetrics) : CedarStreamMetrics :=
  mkMetrics (messagesReceived m) (messagesProcessed m) (errorsCount m)
            t (connectionUptime m) (averageLatency m).

(** [handleError(error)] *)
Definition handleError (err : JSValue) : M unit :=
  modify (fun c => set_metrics (incr_errorsCount (metrics c)) c);;
  setStatus error;;
  code <- lift (getProp err "code");;
  message <- lift (getProp err "message");;
  timestamp <- Date_toISOString;;
  let streamError :=
    JObj {[ "code" := js_or code (JStr "STREAM_ERROR");
            "message" := js_or message (JStr "Unknown stream error");
            "timestamp" := timestamp;
            "context" := JObj {[ "error" := err ]};
            "recoverable" := JBool true ]} in
  emit ev_error streamError;;
  attempts <- get reconnectAttempts;;
  limit <- get (fun c => opt_or (maxReconnectAttempts (config c)) 5);;
  if attempts <? limit
  then scheduleReconnect
  else log log_giving_up.

(** [new EventSource(url)]: a new handle, unless the constructor throws. *)
Definition EventSource_new (url : URL) : M nat :=
  match new_EventSource env url with
  | Some e => throw e
  | None =>
      es <- get nextHandle;;
      modify (set_nextHandle (S es));;
      emit_effect (EventSourceCreated es url);;
      ret es
  end.

(** The query that [connect] adds to the URL of the stream:
    [if (channels.length > 0) url.searchParams.set('channels', channels.join(','))] *)
Definition stream_url (chans : list string) (url : URL) : URL :=
  if (0 <? length chans)%nat
  then searchParams_set "channels" (String.concat "," chans) url
  else url.

(** [connect()].  The method has no [await]: the promise it returns is
    fulfilled when the body returns and rejected when it throws.  The
    callbacks it installs on the transport are [onopen], [handleMessage],
    [onerror], [handleCedarEvent] and [handleHeartbeat] below. *)
Definition connect : M unit :=
  st <- get status;;
  if decide (st = connected \/ st = connecting) then ret tt
  else
    setStatus connecting;;
    t <- Date_now;;
    modify (set_connectionStartTime t);;
    try_catch
      (base <- get (fun c => endpoint (config c));;
       url <- lift (new_URL env "/cedar/stream" base);;
       chans <- get (fun c => channels (config c));;
       es <- EventSource_new (stream_url chans url);;
       modify (set_eventSource (Some es)))
      (fun e =>
         log (log_connect_failed e);;
         handleError e;;
         throw e).

(** [eventSource.onopen] *)
Definition onopen : M unit :=
  log log_connected;;
  setStatus connected;;
  modify (set_reconnectAttempts 0);;
  startHeartbeat;;
  emit ev_connect JUndefined.

(** [eventSource.onerror] *)
Definition onerror (err : JSValue) : M unit :=
  log (log_stream_error err);;
  handleError err.

(** The callback of the reconnect timer.  [.catch(() => {})] drops the
    rejection of [connect()]. *)
Definition onReconnectTimer : M unit :=
  modify (set_reconnectTimer None);;
  try_catch connect (fun _ => ret tt).

(** [disconnect()] *)
Definition disconnect : M unit :=
  log log_disconnecting;;
  timer <- get reconnectTimer;;
  match timer with
  | Some t => emit_effect (TimeoutCleared t);; modify (set_reconnectTimer None)
  | None => ret tt
  end;;
  timer <- get heartbeatTimer;;
  match timer with
  | Some t => emit_effect (IntervalCleared t);; modify (set_heartbeatTimer None)
  | None => ret tt
  end;;
  es <- get eventSource;;
  match es with
  | Some s => emit_effect (EventSourceClosed s);; modify (set_eventSource None)
  | None => ret tt
  end;;
  setStatus disconnected;;
  emit ev_disconnect JUndefined.

(** [handlers.indexOf(handler)]: the first position holding that function
    object. *)
Fixpoint indexOf (handlers : list Handler) (handler : Handler) : option nat :=
  match handlers with
  | [] => None
  | h :: rest =>
      if (hid h =? hid handler)%nat then Some 0%nat
      else S <$> indexOf rest handler
  end.

(** [handlers.splice(index, 1)] *)
Definition splice1 {A} (index : nat) (l : list A) : list A :=
  take index l ++ drop (S index) l.

(** [const index = handlers.indexOf(handler); if (index > -1) handlers.splice(index, 1)] *)
Definition remove_handler (handler : Handler) (handlers : list Handler) : list Handler :=
  match indexOf handlers handler with
  | Some index => splice1 index handlers
  | None => handlers
  end.

(** [subscribe(channel, handler)] *)
Definition subscribe (channel : string) (handler : Handler) : M unit :=
  known <- get (fun c => bool_decide (is_Some (channelHandlers c !! channel)));;
  (if known then ret tt
   else modify (fun c => set_channelHandlers (<[channel := []]> (channelHandlers c)) c));;
  modify (fun c => set_channelHandlers
                     (alter (fun hs => hs ++ [handler]) channel (channelHandlers c)) c);;
  log (log_subscribed channel).

(** [unsubscribe(channel, handler?)] *)
Definition unsubscribe (channel : string) (handler : option Handler) : M unit :=
  known <- get (fun c => bool_decide (is_Some (channelHandlers c !! channel)));;
  if known then
    match handler with
    | Some h =>
        modify (fun c => set_channelHandlers
                           (alter (remove_handler h) channel (channelHandlers c)) c)
    | None =>
        modify (fun c => set_channelHandlers (delete channel (channelHandlers c)) c)
    end;;
    log (log_unsubscribed channel)
  else ret tt.

(** [on(event, handler)] *)
Definition on (event : CedarStreamEvent) (handler : Handler) : M unit :=
  known <- get (fun c => bool_decide (is_Some (eventHandlers c !! event)));;
  (if known then ret tt
   else modify (fun c => set_eventHandlers (<[event := []]> (eventHandlers c)) c));;
  modify (fun c => set_eventHandlers
                     (alter (fun hs => hs ++ [handler]) event (eventHandlers c)) c).

(** [off(event, handler)] *)
Definition off (event : CedarStreamEvent) (handler : Handler) : M unit :=
  modify (fun c => set_eventHandlers
                     (alter (remove_handler handler) event (eventHandlers c)) c).

(** [this.channelHandlers.get(key) || []]: the map has string keys only. *)
Definition channel_handlers_of (key : JSValue) (c : Client) : list Handler :=
  match key with
  | JStr channel => subscribers channel c
  | _ => []
  end.

(** [processCedarEvent(event)] *)
Definition processCedarEvent (event : JSValue) : M unit :=
  channel <- lift (getProp event "channel");;
  handlers <- get (channel_handlers_of channel);;
  forEach handlers (fun handler =>
    try_catch (call handler event)
              (fun e => log (log_channel_handler_error channel e))).

(** The object [processLegacyEvent] builds as [cedarEvent], where
    [isoNow] is [new Date().toISOString()]. *)
Definition legacyCedarEvent (isoNow : JSValue) (data : JSValue) : result JSValue :=
  type <~ getProp data "type";;
  if strict_eq_str type "transaction" then
    payload <~ getProp data "data";;
    timestamp <~ getProp data "timestamp";;
    Ok (JObj {[ "type" := type;
                "channel" := JStr "transactions";
                "data" := payload;
                "timestamp" := js_or timestamp isoNow;
                "source" := JStr "legacy-websocket" ]})
  else if strict_eq_str type "notification_popup" then
    payload <~ getProp data "data";;
    timestamp <~ getProp data "timestamp";;
    Ok (JObj {[ "type" := type;
                "channel" := JStr "notifications";
                "data" := payload;
                "timestamp" := js_or timestamp isoNow;
                "source" := JStr "legacy-websocket" ]})
  else
    Ok (JObj {[ "type" := js_or type (JStr "unknown");
                "channel" := JStr "system";
                "data" := data;
                "timestamp" := isoNow;
                "source" := JStr "legacy-websocket" ]}).

(** [processLegacyEvent(data, event)] *)
Definition processLegacyEvent (data : JSValue) (event : MessageEvent) : M unit :=
  isoNow <- Date_toISOString;;
  cedarEvent <- lift (legacyCedarEvent isoNow data);;
  processCedarEvent cedarEvent.

(** [isCedarEvent(data)]: the value of the [&&] chain, which is [data]
    itself when that is falsy. *)
Definition isCedarEvent (data : JSValue) : result JSValue :=
  if negb (truthy data) then Ok data else
  type <~ getProp data "type";;
  if negb (typeof_string type) then Ok (JBool false) else
  channel <~ getProp data "channel";;
  if negb (typeof_string channel) then Ok (JBool false) else
  payload <~ getProp data "data";;
  if negb (not_undefined payload) then Ok (JBool false) else
  timestamp <~ getProp data "timestamp";;
  Ok (JBool (typeof_string timestamp)).

(** [handleMessage(event)], the transport's [onmessage] *)
Definition handleMessage (event : MessageEvent) : M unit :=
  try_catch
    (startTime <- Date_now;;
     parsedData <- lift (JSON_parse env (data event));;
     modify (fun c => set_metrics (incr_messagesReceived (metrics c)) c);;
     t <- Date_now;;
     modify (fun c => set_metrics (set_lastMessageTime (toISOString env t) (metrics c)) c);;
     native <- lift (isCedarEvent parsedData);;
     (if truthy native
      then processCedarEvent parsedData
      else processLegacyEvent parsedData event);;
     modify (fun c => set_metrics (incr_messagesProcessed (metrics c)) c);;
     endTime <- Date_now;;
     recordLatency (Int (endTime - startTime)))
    (fun e =>
       log (log_message_error e);;
       modify (fun c => set_metrics (incr_errorsCount (metrics c)) c)).

(** [handleCedarEvent(event)], the listener of ['cedar-event'] *)
Definition handleCedarEvent (event : MessageEvent) : M unit :=
  try_catch
    (cedarEvent <- lift (JSON_parse env (data event));;
     processCedarEvent cedarEvent)
    (fun e => log (log_cedar_event_error e)).

(** [handleHeartbeat(event)], the listener of ['cedar-heartbeat'] *)
Definition handleHeartbeat (event : MessageEvent) : M unit :=
  try_catch
    (heartbeat <- lift (JSON_parse env (data event));;
     log (log_heartbeat_received heartbeat);;
     timestamp <- lift (getProp heartbeat "timestamp");;
     if truthy timestamp then
       t <- Date_now;;
       recordLatency (js_sub (Int t) (Date_getTime env timestamp))
     else ret tt)
    (fun e => log (log_heartbeat_error e)).

(** ** The client as a reactive system *)

(** What can happen to a client: a call of its interface, an event of its
    transport, a timer firing, or time passing. *)
Inductive Input :=
| CallConnect
| CallDisconnect
| CallSubscribe (channel : string) (handler : Handler)
| CallUnsubscribe (channel : string) (handler : option Handler)
| CallOn (event : CedarStreamEvent) (handler : Handler)
| CallOff (event : CedarStreamEvent) (handler : Handler)
| CallSend (channel : string) (body : JSValue) (response : FetchOutcome)
| TransportOpen
| TransportMessage (event : MessageEvent)
| TransportError (err : JSValue)
| TransportCedarEvent (event : MessageEvent)
| TransportHeartbeat (event : MessageEvent)
| ReconnectTimerFires
| HeartbeatTimerFires (client_id : string) (response : FetchOutcome)
| TimePasses (ms : N).

(** The state after one input.  A timer fires only while it is pending;
    an exception leaving a call or a callback keeps the state it left.
    Events of the transport are not tied to a transport being open, so the
    runs of the model include the runs of a real client. *)
Definition react (i : Input) (c : Client) : Client :=
  match i with
  | CallConnect => exec connect c
  | CallDisconnect => exec disconnect c
  | CallSubscribe channel handler => exec (subscribe channel handler) c
  | CallUnsubscribe channel handler => exec (unsubscribe channel handler) c
  | CallOn event handler => exec (on event handler) c
  | CallOff event handler => exec (off event handler) c
  | CallSend channel body response => exec (send response channel body) c
  | TransportOpen => exec onopen c
  | TransportMessage event => exec (handleMessage event) c
  | TransportError err => exec (onerror err) c
  | TransportCedarEvent event => exec (handleCedarEvent event) c
  | TransportHeartbeat event => exec (handleHeartbeat event) c
  | ReconnectTimerFires =>
      if reconnectTimer c is Some _ then exec onReconnectTimer c else c
  | HeartbeatTimerFires client_id response =>
      if heartbeatTimer c is Some _ then exec (sendHeartbeat client_id response) c else c
  | TimePasses ms => set_now (now c + Z.of_N ms) c
  end.

(** The state after a sequence of inputs. *)
Definition run (inputs : list Input) (c : Client) : Client :=
  fold_left (fun c i => react i c) inputs c.

End Methods.

(** ** The factory and the configurations of the environments *)

(** [createCedarStream(config)] *)
Definition createCedarStream {U} (cfg : CedarStreamConfig) (t0 : Z) (u0 : U) : Client U :=
  constructor cfg t0 u0.

(** The variables of [process.env] that the module reads; [None] is a
    variable that is not set. *)
Record ProcessEnv := mkProcessEnv {
  NODE_ENV : option string;
  NEXT_PUBLIC_CEDAR_ENDPOINT : option string
}.

(** [value || fallback] on a variable of the environment: a variable that
    is not set or is empty is falsy. *)
Definition env_or (value : option string) (fallback : string) : string :=
  match value with
  | Some (String a s) => String a s
  | Some EmptyString | None => fallback
  end.

(** The three own properties of [defaultCedarConfigs]. *)
Record CedarConfigs := mkConfigs {
  development : CedarStreamConfig;
  staging : CedarStreamConfig;
  production : CedarStreamConfig
}.

Definition defaultCedarConfigs (penv : ProcessEnv) : CedarConfigs :=
  {| development :=
       {| endpoint := env_or (NEXT_PUBLIC_CEDAR_ENDPOINT penv) "http://localhost:8000";
          channels := ["transactions"; "notifications"; "system"];
          reconnectInterval := Some 2000;
          maxReconnectAttempts := Some 10;
          heartbeatInterval := Some 15000;
          debug := Some true |};
     staging :=
       {| endpoint := env_or (NEXT_PUBLIC_CEDAR_ENDPOINT penv)
                             "https://staging-api.financepulse.com";
          channels := ["transactions"; "notifications"; "system"];
          reconnectInterval := Some 3000;
          maxReconnectAttempts := Some 5;
          heartbeatInterval := Some 30000;
          debug := Some false |};
     production :=
       {| endpoint := env_or (NEXT_PUBLIC_CEDAR_ENDPOINT penv)
                             "https://api.financepulse.com";
          channels := ["transactions"; "notifications"; "system"];
          reconnectInterval := Some 5000;
          maxReconnectAttempts := Some 3;
          heartbeatInterval := Some 30000;
          debug := Some false |} |}.

(** The properties that an object literal inherits from
    [Object.prototype]; reading one of them gives a function or, for
    [__proto__], the prototype: a truthy value in each case. *)
Definition Object_prototype_names : list string :=
  ["constructor"; "hasOwnProperty"; "isPrototypeOf"; "propertyIsEnumerable";
   "toLocaleString"; "toString"; "valueOf"; "__proto__";
   "__defineGetter__"; "__defineSetter__"; "__lookupGetter__"; "__lookupSetter__"].

(** What reading a property of [defaultCedarConfigs] gives. *)
Inductive Member :=
| OwnConfig (cfg : CedarStreamConfig)
| Inherited (name : string)
| NoMember.

(** [defaultCedarConfigs[key]] *)
Definition configs_get (configs : CedarConfigs) (key : string) : Member :=
  if String.eqb key "development" then OwnConfig (development configs)
  else if String.eqb key "staging" then OwnConfig (staging configs)
  else if String.eqb key "production" then OwnConfig (production configs)
  else if existsb (String.eqb key) Object_prototype_names then Inherited key
  else NoMember.

(** [getCedarConfig()]: what it returns is a configuration, or the
    inherited member that the name of the environment selected. *)
Definition getCedarConfig (penv : ProcessEnv) : Member :=
  let env := env_or (NODE_ENV penv) "development" in
  match configs_get (defaultCedarConfigs penv) env with
  | NoMember => OwnConfig (development (defaultCedarConfigs penv))
  | member => member
  end.

(** ** Reading traces *)

(** The calls of subscribers and listeners in a trace, in order. *)
Definition invocations (tr : list Effect) : list (nat * JSValue) :=
  flat_map (fun e => match e with Invoked h arg => [(h, arg)] | _ => [] end) tr.

(** The heartbeat intervals a trace has started and not cleared. *)
Definition live_intervals (tr : list Effect) : list nat :=
  fold_left (fun live e =>
               match e with
               | IntervalSet t _ => live ++ [t]
               | IntervalCleared t => List.filter (fun t' => negb (t' =? t)%nat) live
               | _ => live
               end) tr [].

(** The reconnect timers a trace has armed, and the intervals it cleared. *)
Definition timeouts_set (tr : list Effect) : list nat :=
  flat_map (fun e => match e with TimeoutSet t _ => [t] | _ => [] end) tr.

Definition intervals_cleared (tr : list Effect) : list nat :=
  flat_map (fun e => match e with IntervalCleared t => [t] | _ => [] end) tr.

Definition intervals_set (tr : list Effect) : list nat :=
  flat_map (fun e => match e with IntervalSet t _ => [t] | _ => [] end) tr.

(** The transports a trace has constructed. *)
Definition transports_created (tr : list Effect) : list nat :=
  flat_map (fun e => match e with EventSourceCreated es _ => [es] | _ => [] end) tr.

(** The URLs they were constructed for, and the transports a trace has
    closed. *)
Definition transport_urls (tr : list Effect) : list URL :=
  flat_map (fun e => match e with EventSourceCreated _ url => [url] | _ => [] end) tr.

Definition transports_closed (tr : list Effect) : list nat :=
  flat_map (fun e => match e with EventSourceClosed es => [es] | _ => [] end) tr.

(** The reconnect timers a trace has cancelled. *)
Definition timeouts_cleared (tr : list Effect) : list nat :=
  flat_map (fun e => match e with TimeoutCleared t => [t] | _ => [] end) tr.

(** The delays of the reconnect timers and the periods of the heartbeat
    intervals of a trace. *)
Definition timeout_delays (tr : list Effect) : list Z :=
  flat_map (fun e => match e with TimeoutSet _ delay => [delay] | _ => [] end) tr.

Definition interval_periods (tr : list Effect) : list Z :=
  flat_map (fun e => match e with IntervalSet _ interval => [interval] | _ => [] end) tr.

(** What a trace wrote to the console, and the requests it posted. *)
Definition console_lines (tr : list Effect) : list LogMsg :=
  flat_map (fun e => match e with ConsoleLog m => [m] | _ => [] end) tr.

Definition posts (tr : list Effect) : list (string * string * JSValue) :=
  flat_map (fun e => match e with
                     | FetchPost url channel body => [(url, channel, body)]
                     | _ => []
                     end) tr.

(** ** A small logic of methods *)

Section Logic.

Context {U : Type}.
Local Abbreviation M := (M U).
Local Abbreviation Client := (Client U).

(** [m] leaves the observation [f] of the client as it was, however it ends. *)
Definition keeps {A B} (f : Client -> B) (m : M A) : Prop :=
  forall c, f (exec m c) = f c.

(** [m] keeps the property [P] of the client, however it ends. *)
Definition preserves {A} (P : Client -> Prop) (m : M A) : Prop :=
  forall c, P c -> P (exec m c).

(** The part of the world that callbacks move. *)
Definition with_world (u : U) (t : Z) (tr : list Effect) (c : Client) : Client :=
  set_trace tr (set_now t (set_user u c)).

(** The trace entries that calling back and logging leave. *)
Definition quiet (e : Effect) : bool :=
  match e with
  | Invoked _ _ | ConsoleLog _ => true
  | _ => false
  end.

(** An observation that callbacks and logging cannot change. *)
Definition blind {B} (f : Client -> B) : Prop :=
  (forall c u, f (set_user u c) = f c) /\
  (forall c t, f (set_now t c) = f c) /\
  (forall c e, quiet e = true -> f (set_trace (trace c ++ [e]) c) = f c).

End Logic.

(** ** Scenarios and reference notions *)

Section Scenarios.

Context {U : Type}.
Local Abbreviation M := (M U).
Local Abbreviation Client := (Client U).
Local Abbreviation Handler := (Handler U).

(** [subscribe(channel, h)] for each [h] of [hs], in order. *)
Definition subscribe_all (channel : string) (hs : list Handler) : M unit :=
  forEach hs (subscribe channel).

(** [recordLatency(x)] for each [x] of [samples], in order. *)
Definition record_all (samples : list JSNumber) : M unit :=
  forEach samples (@recordLatency U).

(** The limit [handleError] compares the attempts with. *)
Definition reconnect_limit (c : Client) : Z :=
  opt_or (maxReconnectAttempts (config c)) 5.

(** [n] consecutive failures to open: an explicit [connect()] whose
    transport reports an error, then, [n - 1] times, the reconnect timer
    firing and the transport it opens reporting an error. *)
Fixpoint open_failures (err : JSValue) (n : nat) : list (@Input U) :=
  match n with
  | O => []
  | S m =>
      match m with
      | O => [CallConnect; TransportError err]
      | S _ => open_failures err m ++ [ReconnectTimerFires; TransportError err]
      end
  end.

(** The two counters of messages. *)
Definition counters (c : Client) : Z * Z :=
  (messagesReceived (metrics c), messagesProcessed (metrics c)).

(** The heartbeat timer with the intervals that are running. *)
Definition heartbeat_view (c : Client) : list nat * option nat :=
  (live_intervals (trace c), heartbeatTimer c).

(** The inputs that are neither a call of [connect()] nor an event of the
    transport: what can happen to a client whose transport is closed and
    that nobody connects again. *)
Definition passive (i : @Input U) : bool :=
  match i with
  | CallConnect | TransportOpen | TransportMessage _ | TransportError _
  | TransportCedarEvent _ | TransportHeartbeat _ => false
  | _ => true
  end.

(** The three counters of the metrics. *)
Definition tallies (c : Client) : Z * Z * Z :=
  (messagesReceived (metrics c), messagesProcessed (metrics c), errorsCount (metrics c)).

(** The client at rest: no reconnect timer is pending, and the status is
    [error] or [disconnected]. *)
Definition at_rest (c : Client) : Prop :=
  reconnectTimer c = None
  /\ status c <> connecting /\ status c <> reconnecting /\ status c <> connected.

End Scenarios.

(** [null] or [undefined]: the values whose properties cannot be read. *)
Definition nullish (v : JSValue) : bool :=
  match v with
  | JUndefined | JNull => true
  | _ => false
  end.

(** The native shape, in the words of the specification: an object with a
    string [type], a string [channel], a payload that is not [undefined]
    and a string [timestamp].  The payload of the specification is the field
    that the code and the wire call [data]. *)
Definition native_shape (v : JSValue) : Prop :=
  exists fields type channel payload timestamp,
    v = JObj fields
    /\ fields !! "type" = Some (JStr type)
    /\ fields !! "channel" = Some (JStr channel)
    /\ fields !! "data" = Some payload /\ payload <> JUndefined
    /\ fields !! "timestamp" = Some (JStr timestamp).

(** The last [n] elements of a list. *)
Definition last_n {A} (n : nat) (l : list A) : list A :=
  drop (length l - n) l.

(** The samples of a buffer as integers, unless one is NaN. *)
Fixpoint integers (xs : list JSNumber) : option (list Z) :=
  match xs with
  | [] => Some []
  | NaN :: _ => None
  | Int z :: rest => (fun zs => z :: zs) <$> integers rest
  end.

(** The arithmetic mean of integer samples. *)
Definition arithmetic_mean (xs : list Z) : Q :=
  fold_right Z.add 0 xs # Pos.of_nat (length xs).

(** *** Concrete instances *)

(** A platform on which every endpoint is a valid URL, every transport can
    be constructed, and the only text [JSON.parse] is asked about is
    [null]. *)
Definition sample_env : Env :=
  {| JSON_parse := fun text =>
       if String.eqb text "null" then Ok JNull
       else Throw (JObj {[ "name" := JStr "SyntaxError" ]});
     new_URL := fun path base => Ok (mkURL (base +:+ path) []);
     new_EventSource := fun _ => None;
     toISOString := fun _ => "1970-01-01T00:00:00.000Z";
     Date_getTime := fun _ => NaN |}.

(** A platform that parses three frames: a heartbeat stamped with a
    number, one stamped with a text that is not a date, and one without a
    stamp. *)
Definition frames_env : Env :=
  {| JSON_parse := fun text =>
       if String.eqb text "stamped" then Ok (JObj {[ "timestamp" := JNum 40 ]})
       else if String.eqb text "late" then Ok (JObj {[ "timestamp" := JStr "soon" ]})
       else if String.eqb text "bare" then Ok (JObj ∅)
       else Throw (JObj {[ "name" := JStr "SyntaxError" ]});
     new_URL := fun path base => Ok (mkURL (base +:+ path) []);
     new_EventSource := fun _ => None;
     toISOString := fun _ => "1970-01-01T00:00:00.000Z";
     Date_getTime := fun v => match v with JNum n => Int n | _ => NaN end |}.

Definition sample_config (limit : Z) : CedarStreamConfig :=
  {| endpoint := "http://localhost:8000";
     channels := ["transactions"; "notifications"; "system"];
     reconnectInterval := Some 0;
     maxReconnectAttempts := Some limit;
     heartbeatInterval := None;
     debug := None |}.

(** A subscriber that returns, and one that throws. *)
Definition quiet_handler (id : nat) : Handler unit :=
  {| hid := id; hrun := fun _ u => mkOutcome u 1 None |}.

Definition throwing_handler (id : nat) : Handler unit :=
  {| hid := id; hrun := fun _ u => mkOutcome u 2 (Some (JStr "boom")) |}.

(** A client just constructed, with a limit of two reconnect attempts. *)
Definition sample_client : Client unit := constructor (sample_config 2) 0 tt.

(** The event of the specification's dispatch scenario. *)
Definition sample_event : JSValue :=
  JObj {[ "type" := JStr "notification_popup";
          "channel" := JStr "notifications";
          "data" := JObj {[ "msg" := JStr "x" ]};
          "timestamp" := JStr "2024-01-01T00:00:00Z" ]}.

(** * Callbacks that call the client

    [handler(event)] runs code of the caller, and that code holds the
    client: it can call [unsubscribe], [off], [disconnect] or [connect]
    while the client is in the middle of a dispatch.  The arrays of
    handlers are objects: [forEach] walks the very array that [push] and
    [splice] change.  [Live] is the client with both.  The arrays are kept
    in a store and the two maps hold references to them; a function object
    is known by its identity, and what it does when it is called is any
    computation on the client.  The statements and the methods that call no
    handler are those of [Client], run on the fields. *)

Module Live.

Declare Scope live_scope.

Section State.

Context {U : Type}.
Local Abbreviation Fields := (Client U).
Local Abbreviation Method := (M U).

(** The client.  [fields] holds the fields and the world around them as
    in [Client], except for the two maps, which stay empty there: here each
    map holds, for a key, the reference of an array of [arrays]. *)
Record Client := mkClient {
  fields : Fields;
  eventHandlers : gmap CedarStreamEvent nat;
  channelHandlers : gmap string nat;
  (** the array objects; an element is a function object, by identity *)
  arrays : gmap nat (list nat);
  (** the next unused reference *)
  nextArray : nat
}.

Definition set_fields (v : Fields) (s : Client) : Client :=
  let 'mkClient _ eh ch ar nx := s in mkClient v eh ch ar nx.

Definition set_eventHandlers (v : gmap CedarStreamEvent nat) (s : Client) : Client :=
  let 'mkClient c _ ch ar nx := s in mkClient c v ch ar nx.

Definition set_channelHandlers (v : gmap string nat) (s : Client) : Client :=
  let 'mkClient c eh _ ar nx := s in mkClient c eh v ar nx.

Definition set_arrays (v : gmap nat (list nat)) (s : Client) : Client :=
  let 'mkClient c eh ch _ nx := s in mkClient c eh ch v nx.

Definition set_nextArray (v : nat) (s : Client) : Client :=
  let 'mkClient c eh ch ar _ := s in mkClient c eh ch ar v.

(** The monad of methods, as for [Client]. *)
Definition M (A : Type) : Type := Client -> result A * Client.

Definition ret {A} (a : A) : M A := fun s => (Ok a, s).

Definition bind {A B} (m : M A) (k : A -> M B) : M B := fun s =>
  match m s with
  | (Ok a, s') => k a s'
  | (Throw e, s') => (Throw e, s')
  end.

(** [throw e] *)
Definition throw {A} (e : JSValue) : M A := fun s => (Throw e, s).

(** [try { body } catch (e) { handler }] *)
Definition try_catch {A} (body : M A) (handler : JSValue -> M A) : M A := fun s =>
  match body s with
  | (Ok a, s') => (Ok a, s')
  | (Throw e, s') => handler e s'
  end.

(** An expression that reads no state. *)
Definition lift {A} (r : result A) : M A := fun s => (r, s).

(** A statement or a method of [Client] that calls no handler: it runs on
    the fields. *)
Definition this {A} (m : Method A) : M A := fun s =>
  match m (fields s) with
  | (r, c) => (r, set_fields c s)
  end.

(** Reading and assigning the maps and the store. *)
Definition read {A} (f : Client -> A) : M A := fun s => (Ok (f s), s).

Definition write (f : Client -> Client) : M unit := fun s => (Ok tt, f s).

(** The state a method leaves, and what it returned. *)
Definition exec {A} (m : M A) (s : Client) : Client := snd (m s).
Definition outcome {A} (m : M A) (s : Client) : result A := fst (m s).

(** The elements of an array object. *)
Definition items (array : nat) (s : Client) : list nat :=
  default [] (arrays s !! array).

(** The array object has new elements, as after [push] or [splice]. *)
Definition set_items (array : nat) (l : list nat) (s : Client) : Client :=
  set_arrays (<[array := l]> (arrays s)) s.

End State.

Arguments Client : clear implicits.
Arguments M : clear implicits.

Notation "x <- m ;; k" := (bind m (fun x => k))
  (at level 20, m at level 99, k at level 200, only parsing) : live_scope.
Notation "m ;; k" := (bind m (fun _ => k))
  (at level 100, k at level 200, only parsing, right associativity) : live_scope.

Section Methods.

Context {U : Type}.
Variable env : Env.

(** What each function object does when it is called with an argument. *)
Variable behaviour : nat -> JSValue -> M U unit.

Local Open Scope live_scope.
Local Abbreviation M := (M U).
Local Abbreviation Client := (Client U).

(** [constructor(config)] *)
Definition constructor (cfg : CedarStreamConfig) (t0 : Z) (u0 : U) : Client :=
  mkClient (constructor cfg t0 u0) ∅ ∅ ∅ 0%nat.

(** [handler(arg)]: the call is recorded and the function runs. *)
Definition call (handler : nat) (arg : JSValue) : M unit :=
  this (emit_effect (Invoked handler arg));;
  behaviour handler arg.

(** [array.forEach(f)] from the index [k] on, with [n] indices to go.
    [forEach] fixes the number of indices when it starts and, at each of
    them, reads the array as it then is: an index that the array no longer
    has is passed over, and what was pushed beyond the first length is not
    reached. *)
Fixpoint forEach_from (array : nat) (k n : nat) (f : nat -> M unit) : M unit :=
  match n with
  | O => ret tt
  | S n' =>
      element <- read (fun s => items array s !! k);;
      match element with
      | Some x => f x
      | None => ret tt
      end;;
      forEach_from array (S k) n' f
  end.

(** [array.forEach(f)] *)
Definition forEach (array : nat) (f : nat -> M unit) : M unit :=
  len <- read (fun s => length (items array s));;
  forEach_from array 0 len f.

(** [emit(event, data)]; [|| []] is a new array, which has no element. *)
Definition emit (event : CedarStreamEvent) (arg : JSValue) : M unit :=
  handlers <- read (fun s => eventHandlers s !! event);;
  match handlers with
  | Some array =>
      forEach array (fun handler =>
        try_catch (call handler arg)
                  (fun e => this (log (log_event_handler_error event e))))
  | None => ret tt
  end.

(** [setStatus(status)] *)
Definition setStatus (st : CedarStreamStatus) : M unit :=
  oldStatus <- this (get status);;
  if decide (oldStatus <> st) then
    this (modify (set_status st));;
    this (log (log_status_changed oldStatus st));;
    emit ev_status_change
         (JObj {[ "from" := JStr (status_name oldStatus);
                  "to" := JStr (status_name st) ]})
  else ret tt.

(** [scheduleReconnect()] *)
Definition scheduleReconnect : M unit :=
  timer <- this (get reconnectTimer);;
  match timer with
  | Some _ => ret tt
  | None =>
      setStatus reconnecting;;
      this (modify (fun c => set_reconnectAttempts (reconnectAttempts c + 1) c));;
      delay <- this (get (fun c => opt_or (reconnectInterval (config c)) 3000));;
      attempt <- this (get reconnectAttempts);;
      this (log (log_scheduling_reconnect attempt delay));;
      t <- this (setTimeout delay);;
      this (modify (set_reconnectTimer (Some t)));;
      attempt <- this (get reconnectAttempts);;
      emit ev_reconnect (JObj {[ "attempt" := JNum attempt; "delay" := JNum delay ]})
  end.

(** [handleError(error)] *)
Definition handleError (err : JSValue) : M unit :=
  this (modify (fun c => set_metrics (incr_errorsCount (metrics c)) c));;
  setStatus error;;
  code <- lift (getProp err "code");;
  message <- lift (getProp err "message");;
  timestamp <- this (Date_toISOString env);;
  let streamError :=
    JObj {[ "code" := js_or code (JStr "STREAM_ERROR");
            "message" := js_or message (JStr "Unknown stream error");
            "timestamp" := timestamp;
            "context" := JObj {[ "error" := err ]};
            "recoverable" := JBool true ]} in
  emit ev_error streamError;;
  attempts <- this (get reconnectAttempts);;
  limit <- this (get (fun c => opt_or (maxReconnectAttempts (config c)) 5));;
  if attempts <? limit
  then scheduleReconnect
  else this (log log_giving_up).

(** [connect()] *)
Definition connect : M unit :=
  st <- this (get status);;
  if decide (st = connected \/ st = connecting) then ret tt
  else
    setStatus connecting;;
    t <- this Date_now;;
    this (modify (set_connectionStartTime t));;
    try_catch
      (base <- this (get (fun c => endpoint (config c)));;
       url <- lift (new_URL env "/cedar/stream" base);;
       chans <- this (get (fun c => channels (config c)));;
       es <- this (EventSource_new env (stream_url chans url));;
       this (modify (set_eventSource (Some es))))
      (fun e =>
         this (log (log_connect_failed e));;
         handleError e;;
         throw e).

(** [eventSource.onopen] *)
Definition onopen : M unit :=
  this (log log_connected);;
  setStatus connected;;
  this (modify (set_reconnectAttempts 0));;
  this startHeartbeat;;
  emit ev_connect JUndefined.

(** [eventSource.onerror] *)
Definition onerror (err : JSValue) : M unit :=
  this (log (log_stream_error err));;
  handleError err.

(** The callback of the reconnect timer. *)
Definition onReconnectTimer : M unit :=
  this (modify (set_reconnectTimer None));;
  try_catch connect (fun _ => ret tt).

(** [disconnect()] *)
Definition disconnect : M unit :=
  this (log log_disconnecting);;
  timer <- this (get reconnectTimer);;
  match timer with
  | Some t => this (emit_effect (TimeoutCleared t));;
              this (modify (set_reconnectTimer None))
  | None => ret tt
  end;;
  timer <- this (get heartbeatTimer);;
  match timer with
  | Some t => this (emit_effect (IntervalCleared t));;
              this (modify (set_heartbeatTimer None))
  | None => ret tt
  end;;
  es <- this (get eventSource);;
  match es with
  | Some x => this (emit_effect (EventSourceClosed x));;
              this (modify (set_eventSource None))
  | None => ret tt
  end;;
  setStatus disconnected;;
  emit ev_disconnect JUndefined.

(** [handlers.indexOf(handler)] *)
Fixpoint indexOf (handlers : list nat) (handler : nat) : option nat :=
  match handlers with
  | [] => None
  | h :: rest =>
      if (h =? handler)%nat then Some 0%nat
      else S <$> indexOf rest handler
  end.

(** [const index = handlers.indexOf(handler); if (index > -1) handlers.splice(index, 1)] *)
Definition remove_handler (handler : nat) (handlers : list nat) : list nat :=
  match indexOf handlers handler with
  | Some index => splice1 index handlers
  | None => handlers
  end.

(** [[]]: a new array object *)
Definition new_array : M nat :=
  array <- read nextArray;;
  write (fun s => set_nextArray (S array) (set_items array [] s));;
  ret array.

(** [subscribe(channel, handler)] *)
Definition subscribe (channel : string) (handler : nat) : M unit :=
  known <- read (fun s => channelHandlers s !! channel);;
  match known with
  | Some _ => ret tt
  | None =>
      array <- new_array;;
      write (fun s => set_channelHandlers (<[channel := array]> (channelHandlers s)) s)
  end;;
  handlers <- read (fun s => channelHandlers s !! channel);;
  match handlers with
  | Some array => write (fun s => set_items array (items array s ++ [handler]) s)
  | None => ret tt
  end;;
  this (log (log_subscribed channel)).

(** [unsubscribe(channel, handler?)] *)
Definition unsubscribe (channel : string) (handler : option nat) : M unit :=
  known <- read (fun s => channelHandlers s !! channel);;
  match known with
  | None => ret tt
  | Some array =>
      match handler with
      | Some h => write (fun s => set_items array (remove_handler h (items array s)) s)
      | None =>
          write (fun s => set_channelHandlers (delete channel (channelHandlers s)) s)
      end;;
      this (log (log_unsubscribed channel))
  end.

(** [on(event, handler)] *)
Definition on (event : CedarStreamEvent) (handler : nat) : M unit :=
  known <- read (fun s => eventHandlers s !! event);;
  match known with
  | Some _ => ret tt
  | None =>
      array <- new_array;;
      write (fun s => set_eventHandlers (<[event := array]> (eventHandlers s)) s)
  end;;
  handlers <- read (fun s => eventHandlers s !! event);;
  match handlers with
  | Some array => write (fun s => set_items array (items array s ++ [handler]) s)
  | None => ret tt
  end.

(** [off(event, handler)] *)
Definition off (event : CedarStreamEvent) (handler : nat) : M unit :=
  handlers <- read (fun s => eventHandlers s !! event);;
  match handlers with
  | Some array =>
      write (fun s => set_items array (remove_handler handler (items array s)) s)
  | None => ret tt
  end.

(** [this.channelHandlers.get(key)]: the map has string keys only. *)
Definition channel_array (key : JSValue) (s : Client) : option nat :=
  match key with
  | JStr channel => channelHandlers s !! channel
  | _ => None
  end.

(** [processCedarEvent(event)] *)
Definition processCedarEvent (event : JSValue) : M unit :=
  channel <- lift (getProp event "channel");;
  handlers <- read (channel_array channel);;
  match handlers with
  | Some array =>
      forEach array (fun handler =>
        try_catch (call handler event)
                  (fun e => this (log (log_channel_handler_error channel e))))
  | None => ret tt
  end.

(** [processLegacyEvent(data, event)] *)
Definition processLegacyEvent (data : JSValue) (event : MessageEvent) : M unit :=
  isoNow <- this (Date_toISOString env);;
  cedarEvent <- lift (legacyCedarEvent isoNow data);;
  processCedarEvent cedarEvent.

(** [handleMessage(event)] *)
Definition handleMessage (event : MessageEvent) : M unit :=
  try_catch
    (startTime <- this Date_now;;
     parsedData <- lift (JSON_parse env (data event));;
     this (modify (fun c => set_metrics (incr_messagesReceived (metrics c)) c));;
     t <- this Date_now;;
     this (modify (fun c =>
             set_metrics (set_lastMessageTime (toISOString env t) (metrics c)) c));;
     native <- lift (isCedarEvent parsedData);;
     (if truthy native
      then processCedarEvent parsedData
      else processLegacyEvent parsedData event);;
     this (modify (fun c => set_metrics (incr_messagesProcessed (metrics c)) c));;
     endTime <- this Date_now;;
     this (recordLatency (Int (endTime - startTime))))
    (fun e =>
       this (log (log_message_error e));;
       this (modify (fun c => set_metrics (incr_errorsCount (metrics c)) c))).

(** [handleCedarEvent(event)] *)
Definition handleCedarEvent (event : MessageEvent) : M unit :=
  try_catch
    (cedarEvent <- lift (JSON_parse env (data event));;
     processCedarEvent cedarEvent)
    (fun e => this (log (log_cedar_event_error e))).

(** *** Reference notions *)

(** The listeners of an event and the subscribers of a channel: the
    elements of the array that the map holds for the key. *)
Definition listeners (event : CedarStreamEvent) (s : Client) : list nat :=
  match eventHandlers s !! event with
  | Some array => items array s
  | None => []
  end.

Definition subscribers (channel : string) (s : Client) : list nat :=
  match channelHandlers s !! channel with
  | Some array => items array s
  | None => []
  end.

(** Every event that has an array has one of its own, made by an earlier
    [new_array]. *)
Definition own_arrays (s : Client) : Prop :=
  (forall event array,
     eventHandlers s !! event = Some array -> (array < nextArray s)%nat)
  /\ (forall e1 e2 array,
        eventHandlers s !! e1 = Some array -> eventHandlers s !! e2 = Some array ->
        e1 = e2).

(** Functions that do not call the client: a call moves the callers' state
    and the clock, returns or throws, and leaves everything else as it
    is. *)
Definition inert : Prop :=
  forall handler arg s, exists u ms,
    exec (behaviour handler arg) s
    = set_fields (set_now (now (fields s) + Z.of_N ms) (set_user u (fields s))) s.

End Methods.

(** *** Concrete instances *)

(** Functions that return at once, and the same where the function [2]
    throws. *)
Definition returning : nat -> JSValue -> M unit unit := fun _ _ => ret tt.

Definition second_throws : nat -> JSValue -> M unit unit := fun handler _ =>
  if (handler =? 2)%nat then throw (JStr "boom") else ret tt.

(** The function [1] is a subscriber that unsubscribes itself from
    ["notifications"] when it is called. *)
Definition unsubscribes_itself : nat -> JSValue -> M unit unit := fun handler _ =>
  if (handler =? 1)%nat then unsubscribe "notifications" (Some 1%nat) else ret tt.

(** The function [1] is a listener that removes itself from [disconnect]
    when it is called. *)
Definition removes_itself : nat -> JSValue -> M unit unit := fun handler _ =>
  if (handler =? 1)%nat then off ev_disconnect 1%nat else ret tt.


(** A client just constructed, with a limit of two reconnect attempts. *)
Definition sample_client : Client unit := constructor (sample_config 2) 0 tt.

(** A platform that parses one frame, to the event of the dispatch
    scenario, and on which the text of a time tells the time. *)
Definition event_env : Env :=
  {| JSON_parse := fun text =>
       if String.eqb text "event" then Ok sample_event
       else Throw (JObj {[ "name" := JStr "SyntaxError" ]});
     new_URL := fun path base => Ok (mkURL (base +:+ path) []);
     new_EventSource := fun _ => None;
     toISOString := fun t => if t =? 0 then "1970-01-01T00:00:00.000Z"
                             else "1970-01-01T00:00:00.003Z";
     Date_getTime := fun _ => NaN |}.

(** Functions that take three milliseconds and return. *)
Definition slow : nat -> JSValue -> M unit unit := fun _ _ =>
  this (modify (fun c => set_now (now c + 3) c)).

End Live.

(** * Properties *)

(** ** Running methods symbolically *)

(** A client given by its fields. *)
Ltac destruct_client c :=
  destruct c as [c_config c_status c_eventSource c_eventHandlers
                 c_channelHandlers c_reconnectAttempts c_reconnectTimer
                 c_heartbeatTimer c_metrics c_connectionStartTime
                 c_latencyHistory c_now c_nextHandle c_user c_trace].

(** Unfolds the monad and the assignments on a client given by its
    fields. *)
Ltac crunch :=
  cbv [bind ret get modify lift throw try_catch emit_effect exec outcome fst snd
       with_world set_status set_eventSource set_eventHandlers set_channelHandlers
       set_reconnectAttempts set_reconnectTimer set_heartbeatTimer set_metrics
       set_connectionStartTime set_latencyHistory set_now set_nextHandle set_user
       set_trace config status eventSource eventHandlers channelHandlers
       reconnectAttempts reconnectTimer heartbeatTimer metrics
       connectionStartTime latencyHistory now nextHandle user trace
       listeners subscribers getProp
       Date_now Date_toISOString setTimeout setInterval] in *.

Section Execution.

Context {U : Type}.
Local Abbreviation M := (M U).
Local Abbreviation Client := (Client U).
Local Abbreviation Handler := (Handler U).

Lemma with_world_id (c : Client) :
  with_world (user c) (now c) (trace c ++ []) c = c.
Proof. destruct_client c. cbn. by rewrite app_nil_r. Qed.

Lemma with_world_trans u1 t1 tr1 u2 t2 tr2 (c : Client) :
  with_world u2 t2 (trace (with_world u1 t1 (trace c ++ tr1) c) ++ tr2)
             (with_world u1 t1 (trace c ++ tr1) c)
  = with_world u2 t2 (trace c ++ tr1 ++ tr2) c.
Proof. destruct_client c. cbn. by rewrite app_assoc. Qed.

Lemma invocations_app (tr1 tr2 : list Effect) :
  invocations (tr1 ++ tr2) = invocations tr1 ++ invocations tr2.
Proof. apply flat_map_app. Qed.

Lemma quiet_no_timeouts (tr : list Effect) :
  Forall (fun e => quiet e = true) tr -> timeouts_set tr = [].
Proof.
  induction 1 as [|e tr He _ IH]; [done|].
  destruct e; try discriminate; exact IH.
Qed.

Lemma quiet_no_transports (tr : list Effect) :
  Forall (fun e => quiet e = true) tr -> transports_created tr = [].
Proof.
  induction 1 as [|e tr He _ IH]; [done|].
  destruct e; try discriminate; exact IH.
Qed.

Lemma quiet_no_intervals (tr : list Effect) :
  Forall (fun e => quiet e = true) tr ->
  intervals_set tr = [] /\ intervals_cleared tr = [].
Proof.
  induction 1 as [|e tr He _ IH]; [done|].
  destruct e; try discriminate; exact IH.
Qed.

Lemma live_intervals_quiet (tr0 tr : list Effect) :
  Forall (fun e => quiet e = true) tr ->
  live_intervals (tr0 ++ tr) = live_intervals tr0.
Proof.
  intros H. unfold live_intervals. rewrite fold_left_app.
  generalize (fold_left
    (fun live e => match e with
                   | IntervalSet t _ => live ++ [t]
                   | IntervalCleared t => List.filter (fun t' => negb (t' =? t)%nat) live
                   | _ => live
                   end) tr0 []).
  induction H as [|e tr He _ IH]; intros live; [done|].
  destruct e; try discriminate; apply IH.
Qed.

(** [log] returns, and leaves at most one entry of the console. *)
Lemma log_spec (m : LogMsg) (c : Client) :
  exists tr, log m c = (Ok tt, with_world (user c) (now c) (trace c ++ tr) c)
             /\ invocations tr = [] /\ Forall (fun e => quiet e = true) tr.
Proof.
  unfold log. destruct_client c. crunch.
  destruct (default false (debug c_config)).
  - exists [ConsoleLog m]. split; [done|]. split; [done|]. by repeat constructor.
  - exists []. by rewrite app_nil_r.
Qed.

(** A call records itself and moves the callers' world only. *)
Lemma call_eq (h : Handler) (arg : JSValue) (c : Client) :
  call h arg c =
  (match thrown (hrun h arg (user c)) with Some e => Throw e | None => Ok tt end,
   with_world (after (hrun h arg (user c)))
              (now c + Z.of_N (elapsed (hrun h arg (user c))))
              (trace c ++ [Invoked (hid h) arg]) c).
Proof. unfold call. destruct_client c. cbn. by destruct (thrown _). Qed.

(** The loop of [emit] and of [processCedarEvent]: every function of the
    list is called once, in order, whichever of them throw, and the loop
    returns. *)
Lemma guarded_loop (hs : list Handler) (arg : JSValue) (msg : JSValue -> LogMsg)
    (c : Client) :
  exists u t tr,
    forEach hs (fun h => try_catch (call h arg) (fun e => log (msg e))) c
    = (Ok tt, with_world u t (trace c ++ tr) c)
    /\ invocations tr = map (fun h => (hid h, arg)) hs
    /\ Forall (fun e => quiet e = true) tr.
Proof.
  revert c. induction hs as [|h hs IH]; intros c.
  - exists (user c), (now c), []. by rewrite with_world_id.
  - cbn [forEach]. unfold bind at 1, try_catch at 1. rewrite call_eq.
    set (c1 := with_world _ _ _ c).
    destruct (thrown (hrun h arg (user c))) as [e|]; cbv beta iota.
    + destruct (log_spec (msg e) c1) as (tr1 & -> & Hi1 & Hq1).
      destruct (IH (with_world (user c1) (now c1) (trace c1 ++ tr1) c1))
        as (u & t & tr & -> & Hi & Hq).
      exists u, t, ([Invoked (hid h) arg] ++ tr1 ++ tr). split; [|split].
      * subst c1. by rewrite !with_world_trans.
      * by rewrite !invocations_app, Hi1, Hi.
      * repeat apply Forall_app_2; try done. by repeat constructor.
    + destruct (IH c1) as (u & t & tr & -> & Hi & Hq).
      exists u, t, ([Invoked (hid h) arg] ++ tr). split; [|split].
      * subst c1. by rewrite !with_world_trans.
      * by rewrite !invocations_app, Hi.
      * repeat apply Forall_app_2; try done. by repeat constructor.
Qed.

Lemma emit_spec (event : CedarStreamEvent) (arg : JSValue) (c : Client) :
  exists u t tr,
    emit event arg c = (Ok tt, with_world u t (trace c ++ tr) c)
    /\ invocations tr = map (fun h => (hid h, arg)) (listeners event c)
    /\ Forall (fun e => quiet e = true) tr.
Proof. unfold emit, bind at 1, get. cbv beta iota. apply guarded_loop. Qed.

Lemma setStatus_spec (st : CedarStreamStatus) (c : Client) :
  exists u t tr,
    setStatus st c = (Ok tt, with_world u t (trace c ++ tr) (set_status st c))
    /\ invocations tr =
        (if decide (status c = st) then []
         else map (fun h => (hid h, JObj {[ "from" := JStr (status_name (status c));
                                            "to" := JStr (status_name st) ]}))
                  (listeners ev_status_change c))
    /\ Forall (fun e => quiet e = true) tr.
Proof.
  unfold setStatus, bind at 1, get. cbv beta iota.
  destruct (decide (status c <> st)) as [Hne|Heq].
  - rewrite decide_False by done.
    unfold bind at 1, modify. cbv beta iota. unfold bind at 1.
    destruct (log_spec (log_status_changed (status c) st) (set_status st c))
      as (tr1 & -> & Hi1 & Hq1). cbv beta iota.
    match goal with |- context [emit ?ev ?a ?c'] =>
      destruct (emit_spec ev a c') as (u & t & tr & -> & Hi & Hq) end.
    exists u, t, (tr1 ++ tr). split; [|split].
    + destruct_client c. cbn. by rewrite app_assoc.
    + rewrite invocations_app, Hi1, Hi. by destruct_client c.
    + by apply Forall_app_2.
  - apply dec_stable in Heq. rewrite decide_True by done.
    exists (user c), (now c), []. split; [|done].
    unfold ret. f_equal. destruct_client c. cbn in *. subst. by rewrite app_nil_r.
Qed.

End Execution.

(** One step of symbolic execution through [log], [emit] or [setStatus]. *)
Ltac on_log :=
  match goal with |- context [log ?m ?c] =>
    let tr := fresh "tr" in let Hi := fresh "Hi" in let Hq := fresh "Hq" in
    destruct (log_spec m c) as (tr & -> & Hi & Hq)
  end; crunch.

Ltac on_emit :=
  match goal with |- context [emit ?ev ?a ?c] =>
    let u := fresh "u" in let t := fresh "t" in let tr := fresh "tr" in
    let Hi := fresh "Hi" in let Hq := fresh "Hq" in
    destruct (emit_spec ev a c) as (u & t & tr & -> & Hi & Hq)
  end; crunch.

Ltac on_setStatus :=
  match goal with |- context [setStatus ?st ?c] =>
    let u := fresh "u" in let t := fresh "t" in let tr := fresh "tr" in
    let Hi := fresh "Hi" in let Hq := fresh "Hq" in
    destruct (setStatus_spec st c) as (u & t & tr & -> & Hi & Hq)
  end; crunch.

(** ** What a method leaves alone *)

Section Frames.

Context {U : Type}.
Local Abbreviation M := (M U).
Local Abbreviation Client := (Client U).
Local Abbreviation Handler := (Handler U).

Lemma keeps_ret {A B} (f : Client -> B) (a : A) : keeps f (ret a).
Proof. by intros c. Qed.

Lemma keeps_throw {A B} (f : Client -> B) (e : JSValue) : keeps f (@throw U A e).
Proof. by intros c. Qed.

Lemma keeps_lift {A B} (f : Client -> B) (r : result A) : keeps f (lift r).
Proof. by intros c. Qed.

Lemma keeps_get {A B} (f : Client -> B) (g : Client -> A) : keeps f (get g).
Proof. by intros c. Qed.

Lemma keeps_modify {B} (f : Client -> B) (g : Client -> Client) :
  (forall c, f (g c) = f c) -> keeps f (modify g).
Proof. intros H c. apply H. Qed.

Lemma keeps_bind {A B C} (f : Client -> C) (m : M A) (k : A -> M B) :
  keeps f m -> (forall a, keeps f (k a)) -> keeps f (bind m k).
Proof.
  intros Hm Hk c. specialize (Hm c). unfold exec, bind in *.
  destruct (m c) as [[a|e] c']; cbn in *; [|done].
  rewrite <- Hm. apply Hk.
Qed.

Lemma keeps_try_catch {A C} (f : Client -> C) (body : M A) (handler : JSValue -> M A) :
  keeps f body -> (forall e, keeps f (handler e)) -> keeps f (try_catch body handler).
Proof.
  intros Hm Hk c. specialize (Hm c). unfold exec, try_catch in *.
  destruct (body c) as [[a|e] c']; cbn in *; [done|].
  rewrite <- Hm. apply Hk.
Qed.

Lemma keeps_forEach {A C} (f : Client -> C) (xs : list A) (g : A -> M unit) :
  (forall x, keeps f (g x)) -> keeps f (forEach xs g).
Proof.
  intros Hg. induction xs as [|x xs IH]; cbn [forEach].
  - apply keeps_ret.
  - by apply keeps_bind.
Qed.

Lemma keeps_log {B} (f : Client -> B) (m : LogMsg) : blind f -> keeps f (log m).
Proof.
  intros (_ & _ & Ht). unfold log. apply keeps_bind; [apply keeps_get|].
  intros dbg. destruct (default false dbg); [|apply keeps_ret].
  apply keeps_modify. intros c. by apply Ht.
Qed.

Lemma keeps_call {B} (f : Client -> B) (h : Handler) (arg : JSValue) :
  blind f -> keeps f (call h arg).
Proof.
  intros (Hu & Hn & Ht) c. unfold exec. rewrite call_eq. cbn [snd].
  unfold with_world.
  set (c1 := set_now _ _).
  replace (trace c) with (trace c1) by by destruct_client c.
  rewrite Ht by done. unfold c1. by rewrite Hn, Hu.
Qed.

End Frames.

(** Side conditions: an assignment or a trace entry that the observation
    does not read. *)
Ltac side :=
  intros;
  match goal with c : Client _ |- _ => destruct_client c end;
  cbn; rewrite ?fold_left_app; cbn;
  reflexivity.

Ltac blind_tac :=
  split; [|split]; intros;
  try match goal with e : Effect |- _ => destruct e; try discriminate end;
  side.

Ltac keeps_step :=
  lazymatch goal with
  | |- keeps _ (bind _ _) => apply keeps_bind; [| intros ?]
  | |- keeps _ (ret _) => apply keeps_ret
  | |- keeps _ (throw _) => apply keeps_throw
  | |- keeps _ (lift _) => apply keeps_lift
  | |- keeps _ (get _) => apply keeps_get
  | |- keeps _ (try_catch _ _) => apply keeps_try_catch; [| intros ?]
  | |- keeps _ (forEach _ _) => apply keeps_forEach; intros ?
  | |- keeps _ (log _) => apply keeps_log; blind_tac
  | |- keeps _ (call _ _) => apply keeps_call; blind_tac
  | |- keeps _ (modify _) => apply keeps_modify; side
  | |- keeps _ (emit_effect _) => apply keeps_modify; side
  | |- keeps _ (if ?b then _ else _) => destruct b
  | |- keeps _ (match ?x with _ => _ end) => destruct x
  end.

(** Proves that a method keeps an observation, by going through its
    body. *)
Ltac keeps_tac :=
  unfold onReconnectTimer, sendHeartbeat, onerror, onopen, handleMessage,
    handleCedarEvent, handleHeartbeat, connect, disconnect, subscribe,
    unsubscribe, on, off, send, handleError, scheduleReconnect, startHeartbeat,
    processLegacyEvent, processCedarEvent, setStatus, emit, recordLatency,
    EventSource_new, setTimeout, setInterval, Date_toISOString, Date_now;
  repeat keeps_step.

Section FrameFacts.

Context {U : Type}.
Variable env : Env.
Local Abbreviation M := (M U).
Local Abbreviation Client := (Client U).
Local Abbreviation Handler := (Handler U).

(** Only [handleMessage] moves the counters of messages. *)
Lemma react_counters (i : Input) (c : Client) :
  (forall event, i <> TransportMessage event) ->
  counters (react env i c) = counters c.
Proof.
  intros Hi. destruct i; cbn [react];
    try (by destruct (Hi event));
    try match goal with |- context [if ?t is Some _ then _ else _] =>
          destruct t; [|reflexivity] end;
    try match goal with |- counters (exec ?m ?c) = _ =>
          revert c; change (keeps counters m); unfold counters;
          solve [keeps_tac] end.
  by destruct_client c.
Qed.

(** Only [onopen] and [disconnect] move the heartbeat timer. *)
Lemma react_heartbeat_view (i : Input) (c : Client) :
  i <> TransportOpen -> i <> CallDisconnect ->
  heartbeat_view (react env i c) = heartbeat_view c.
Proof.
  intros H1 H2. destruct i; cbn [react]; try done;
    try match goal with |- context [if ?t is Some _ then _ else _] =>
          destruct t; [|reflexivity] end;
    try match goal with |- heartbeat_view (exec ?m ?c) = _ =>
          revert c; change (keeps heartbeat_view m);
          unfold heartbeat_view, live_intervals; solve [keeps_tac] end.
  by destruct_client c.
Qed.

Lemma handleError_heartbeat (err : JSValue) :
  keeps (U:=U) heartbeat_view (handleError env err).
Proof. unfold heartbeat_view, live_intervals. keeps_tac. Qed.

Lemma scheduleReconnect_heartbeat :
  keeps (U:=U) heartbeat_view scheduleReconnect.
Proof. unfold heartbeat_view, live_intervals. keeps_tac. Qed.

Lemma processCedarEvent_metrics (event : JSValue) :
  keeps (U:=U) metrics (processCedarEvent event).
Proof. keeps_tac. Qed.

Lemma processLegacyEvent_metrics (d : JSValue) (event : MessageEvent) :
  keeps (U:=U) metrics (processLegacyEvent env d event).
Proof. keeps_tac. Qed.

Lemma recordLatency_metrics (x : JSNumber) :
  keeps (U:=U) metrics (recordLatency x).
Proof. keeps_tac. Qed.

End FrameFacts.

(** ** The latency window *)

Section Latency.

Context {U : Type}.
Local Abbreviation M := (M U).
Local Abbreviation Client := (Client U).
Local Abbreviation Handler := (Handler U).

Lemma recordLatency_eq (x : JSNumber) (c : Client) :
  recordLatency x c =
  (Ok tt, set_latencyHistory
            (if (100 <? length (latencyHistory c ++ [x]))%nat
             then tail (latencyHistory c ++ [x])
             else latencyHistory c ++ [x]) c).
Proof.
  unfold recordLatency. destruct_client c. crunch.
  by destruct (100 <? length _)%nat.
Qed.

Lemma last_n_short {A} (n : nat) (l : list A) :
  (length l <= n)%nat -> last_n n l = l.
Proof. intros H. unfold last_n. by replace (length l - n)%nat with 0%nat by lia. Qed.

Lemma last_n_length {A} (n : nat) (l : list A) :
  length (last_n n l) = Nat.min n (length l).
Proof. unfold last_n. rewrite length_drop. lia. Qed.

Lemma last_n_app {A} (n : nat) (l l' : list A) :
  last_n n (last_n n l ++ l') = last_n n (l ++ l').
Proof.
  unfold last_n. rewrite !length_app, length_drop.
  destruct (decide (length l <= n)%nat) as [Hle|Hgt].
  - replace (length l - n)%nat with 0%nat by lia.
    rewrite drop_0. f_equal. lia.
  - rewrite <- (drop_app_le l l' (length l - n)) by lia.
    rewrite drop_drop. f_equal. lia.
Qed.

(** The buffer after a sample: the last hundred of what it held and the
    sample. *)
Lemma push_window (h : list JSNumber) (x : JSNumber) :
  (length h <= 100)%nat ->
  (if (100 <? length (h ++ [x]))%nat then tail (h ++ [x]) else h ++ [x])
  = last_n 100 (h ++ [x]).
Proof.
  intros Hle. rewrite length_app. cbn [length].
  destruct (100 <? length h + 1)%nat eqn:E.
  - apply Nat.ltb_lt in E. unfold last_n. rewrite length_app. cbn [length].
    replace (length h + 1 - 100)%nat with 1%nat by lia.
    by destruct (h ++ [x]).
  - apply Nat.ltb_ge in E. symmetry. apply last_n_short.
    rewrite length_app. cbn [length]. lia.
Qed.

Lemma record_all_history (samples : list JSNumber) (c : Client) :
  (length (latencyHistory c) <= 100)%nat ->
  latencyHistory (exec (record_all samples) c)
  = last_n 100 (latencyHistory c ++ samples).
Proof.
  revert c. induction samples as [|x xs IH]; intros c Hle.
  - cbn. rewrite app_nil_r. symmetry. by apply last_n_short.
  - unfold record_all in *. cbn [forEach]. unfold exec, bind in *.
    rewrite recordLatency_eq. cbv beta iota.
    rewrite IH.
    + destruct_client c. cbn [latencyHistory set_latencyHistory] in *.
      rewrite push_window by done.
      rewrite last_n_app, <- app_assoc. done.
    + destruct_client c. cbn [latencyHistory set_latencyHistory] in *.
      rewrite push_window by done.
      rewrite last_n_length. lia.
Qed.

Lemma preserves_bind {A B} (P : Client -> Prop) (m : M A) (k : A -> M B) :
  preserves P m -> (forall a, preserves P (k a)) -> preserves P (bind m k).
Proof.
  intros Hm Hk c Hc. specialize (Hm c Hc). unfold exec, bind in *.
  destruct (m c) as [[a|e] c']; cbn in *; [|done].
  by apply Hk.
Qed.

Lemma preserves_try_catch {A} (P : Client -> Prop) (body : M A)
    (handler : JSValue -> M A) :
  preserves P body -> (forall e, preserves P (handler e)) ->
  preserves P (try_catch body handler).
Proof.
  intros Hm Hk c Hc. specialize (Hm c Hc). unfold exec, try_catch in *.
  destruct (body c) as [[a|e] c']; cbn in *; [done|].
  by apply Hk.
Qed.

Lemma preserves_of_keeps {A B} (f : Client -> B) (Q : B -> Prop) (m : M A) :
  keeps f m -> preserves (fun c => Q (f c)) m.
Proof. intros Hk c Hc. by rewrite Hk. Qed.

(** A sample leaves the buffer with at most a hundred entries. *)
Lemma recordLatency_bound (x : JSNumber) :
  preserves (fun c : Client => (length (latencyHistory c) <= 100)%nat)
            (recordLatency x).
Proof.
  intros c Hc. unfold exec. rewrite recordLatency_eq. cbn [snd].
  destruct_client c. cbn [latencyHistory set_latencyHistory] in *.
  rewrite push_window by done. rewrite last_n_length. lia.
Qed.

(** In every state a client reaches the buffer has at most a hundred
    entries. *)
Lemma react_latency_bound (env : Env) (i : Input) (c : Client) :
  (length (latencyHistory c) <= 100)%nat ->
  (length (latencyHistory (react env i c)) <= 100)%nat.
Proof.
  revert c.
  assert (Hleaf : forall A (m : M A),
            keeps latencyHistory m ->
            preserves (fun c : Client => (length (latencyHistory c) <= 100)%nat) m).
  { intros A m. apply (preserves_of_keeps latencyHistory (fun h => (length h <= 100)%nat)). }
  destruct i; cbn [react]; intros c;
    try match goal with |- context [if ?t is Some _ then _ else _] =>
          destruct t; [|by intros] end;
    try match goal with |- _ -> (length (latencyHistory (exec ?m ?c)) <= 100)%nat =>
          revert c; change (preserves (fun c : Client =>
                              (length (latencyHistory c) <= 100)%nat) m)
        end.
  all: try (apply Hleaf; solve [keeps_tac]).
  - unfold handleMessage. apply preserves_try_catch; [|intros; apply Hleaf; keeps_tac].
    repeat lazymatch goal with
           | |- preserves _ (bind _ _) =>
               apply preserves_bind; [try (apply Hleaf; solve [keeps_tac])|intros ?]
           end.
    apply recordLatency_bound.
  - unfold handleHeartbeat. apply preserves_try_catch; [|intros; apply Hleaf; keeps_tac].
    repeat lazymatch goal with
           | |- preserves _ (bind _ _) =>
               apply preserves_bind; [try (apply Hleaf; solve [keeps_tac])|intros ?]
           end.
    match goal with |- context [truthy ?v] => destruct (truthy v) end;
      [|apply Hleaf; keeps_tac].
    apply preserves_bind; [apply Hleaf; keeps_tac|intros ?].
    apply recordLatency_bound.
  - by destruct_client c.
Qed.

Lemma run_latency_bound (env : Env) (inputs : list Input) (c : Client) :
  (length (latencyHistory c) <= 100)%nat ->
  (length (latencyHistory (run env inputs c)) <= 100)%nat.
Proof.
  revert c. induction inputs as [|i inputs IH]; intros c Hc; [done|].
  cbn [run fold_left]. apply IH. by apply react_latency_bound.
Qed.

Lemma sum_after_NaN (xs : list JSNumber) : fold_left js_add xs NaN = NaN.
Proof. induction xs as [|x xs IH]; [done|]. exact IH. Qed.

Lemma sum_of_samples (xs : list JSNumber) (acc : Z) :
  fold_left js_add xs (Int acc)
  = match integers xs with
    | Some zs => Int (acc + fold_right Z.add 0 zs)
    | None => NaN
    end.
Proof.
  revert acc. induction xs as [|y xs IH]; intros acc; [cbn; f_equal; lia|].
  destruct y as [|x]; cbn.
  - apply sum_after_NaN.
  - rewrite IH. destruct (integers xs); cbn; [|done]. f_equal. lia.
Qed.

Lemma integers_length (xs : list JSNumber) (zs : list Z) :
  integers xs = Some zs -> length zs = length xs.
Proof.
  revert zs. induction xs as [|y xs IH]; intros zs; [by intros [= <-]|].
  destruct y as [|x]; cbn; [done|].
  destruct (integers xs); cbn; [|done]. intros [= <-]. cbn. f_equal. by apply IH.
Qed.

End Latency.

(** C8. The latency history holds the last hundred samples, the oldest
    leaving first: after [recent] is recorded on a buffer of at most a
    hundred samples (as the buffer of a client always is, see
    [run_latency_bound]), the buffer is the last
    hundred of what it held followed by [recent], which are the last hundred
    of [recent] alone once a hundred or more were recorded.  [getMetrics]
    reports the arithmetic mean of the buffer, 0 when the buffer is empty,
    and NaN when a sample is NaN. *)
Theorem latency_window_mean {U} (c : Client U) (recent : list JSNumber) :
  (length (latencyHistory c) <= 100)%nat ->
  let c' := exec (record_all recent) c in
  let window := last_n 100 (latencyHistory c ++ recent) in
  latencyHistory c' = window
  /\ (length window <= 100)%nat
  /\ ((100 <= length recent)%nat -> window = last_n 100 recent)
  /\ averageLatency (getMetrics c')
     = match window with
       | [] => Avg 0
       | _ :: _ =>
           match integers window with
           | Some zs => Avg (arithmetic_mean zs)
           | None => AvgNaN
           end
       end.
Proof.
  intros Hlen c' window.
  assert (Hh : latencyHistory c' = window) by by apply record_all_history.
  split; [exact Hh|]. split; [|split].
  - unfold window. rewrite last_n_length. lia.
  - intros Hrecent. unfold window, last_n. rewrite length_app.
    rewrite drop_app_ge by lia. f_equal. lia.
  - unfold getMetrics, calculateAverageLatency. cbn [averageLatency].
    rewrite Hh. destruct window as [|x w] eqn:E; [done|].
    cbn [length Nat.eqb]. rewrite sum_of_samples.
    destruct (integers (x :: w)) as [zs|] eqn:Ez; [|done].
    unfold arithmetic_mean. rewrite (integers_length _ _ Ez). done.
Qed.

Lemma latency_window_mean_witness :
  let c' := exec (record_all (map Int (repeat 7 100 ++ [30; 10; 20]))) sample_client in
  latencyHistory c' = map Int (repeat 7 97 ++ [30; 10; 20])
  /\ averageLatency (getMetrics c')
     = Avg (arithmetic_mean (repeat 7 97 ++ [30; 10; 20])).
Proof.
  destruct (latency_window_mean sample_client
              (map Int (repeat 7 100 ++ [30; 10; 20]))) as (H1 & _ & _ & H4).
  - cbn. lia.
  - split; [exact H1 | exact H4].
Defined.

(** ** Routing *)

Section Routing.

Context {U : Type}.
Local Abbreviation M := (M U).
Local Abbreviation Client := (Client U).
Local Abbreviation Handler := (Handler U).

Lemma subscribe_spec (channel : string) (h : Handler) (c : Client) :
  outcome (subscribe channel h) c = Ok tt
  /\ subscribers channel (exec (subscribe channel h) c) = subscribers channel c ++ [h].
Proof.
  unfold subscribe. destruct_client c. crunch.
  destruct (c_channelHandlers !! channel) as [hs|] eqn:E.
  - rewrite bool_decide_true by eauto. crunch. on_log.
    split; [done|]. by rewrite lookup_alter_eq, E.
  - rewrite bool_decide_false by (by intros [? ?]). crunch. on_log.
    split; [done|]. by rewrite lookup_alter_eq, lookup_insert_eq.
Qed.

Lemma subscribe_all_spec (channel : string) (hs : list Handler) (c : Client) :
  subscribers channel (exec (subscribe_all channel hs) c) = subscribers channel c ++ hs.
Proof.
  revert c. induction hs as [|h hs IH]; intros c.
  - by rewrite app_nil_r.
  - unfold subscribe_all in *. cbn [forEach].
    destruct (subscribe_spec channel h c) as [Hok Hsub].
    unfold exec, outcome, bind in *.
    destruct (subscribe channel h c) as [[[]|e] c1]; cbn in *; [|done].
    rewrite IH, Hsub, <- app_assoc. done.
Qed.

Lemma processCedarEvent_spec (event channel : JSValue) (c : Client) :
  getProp event "channel" = Ok channel ->
  exists u t tr,
    processCedarEvent event c = (Ok tt, with_world u t (trace c ++ tr) c)
    /\ invocations tr = map (fun h => (hid h, event)) (channel_handlers_of channel c)
    /\ Forall (fun e => quiet e = true) tr.
Proof.
  intros Hch. unfold processCedarEvent, bind at 1, lift. rewrite Hch.
  unfold bind at 1, get. cbv beta iota. apply guarded_loop.
Qed.

End Routing.

Ltac on_processCedarEvent H :=
  match goal with |- context [processCedarEvent ?ev ?c] =>
    let u := fresh "u" in let t := fresh "t" in let tr := fresh "tr" in
    let Hi := fresh "Hi" in let Hq := fresh "Hq" in
    destruct (processCedarEvent_spec ev _ c H) as (u & t & tr & -> & Hi & Hq)
  end; crunch.

(** ** The life cycle *)

(** C7. While the status is [connected] or [connecting], [connect()]
    returns at once (its promise is fulfilled) and changes nothing: no field
    of the client, and no entry of the trace, so no transport is
    constructed. *)
Theorem connect_idempotent {U} (env : Env) (c : Client U) :
  status c = connected \/ status c = connecting ->
  connect env c = (Ok tt, c).
Proof.
  intros H. unfold connect, bind at 1, get. cbv beta iota.
  by rewrite decide_True.
Qed.

Lemma connect_idempotent_witness :
  let c := exec (connect sample_env) sample_client in
  status c = connecting
  /\ connect sample_env c = (Ok tt, c)
  /\ let c' := exec onopen c in
     status c' = connected /\ connect sample_env c' = (Ok tt, c').
Proof.
  split; [vm_compute; reflexivity|]. split.
  - apply (connect_idempotent sample_env). right. vm_compute. reflexivity.
  - split; [vm_compute; reflexivity|].
    apply (connect_idempotent sample_env). left. vm_compute. reflexivity.
Defined.

(** ** Errors and reconnection *)

Lemma timeouts_set_app (tr1 tr2 : list Effect) :
  timeouts_set (tr1 ++ tr2) = timeouts_set tr1 ++ timeouts_set tr2.
Proof. apply flat_map_app. Qed.

Lemma transports_created_app (tr1 tr2 : list Effect) :
  transports_created (tr1 ++ tr2) = transports_created tr1 ++ transports_created tr2.
Proof. apply flat_map_app. Qed.

(** Timers and transports in a trace made of the pieces that [log], [emit]
    and [setStatus] left and of explicit entries. *)
Ltac trace_facts :=
  rewrite ?timeouts_set_app, ?transports_created_app;
  repeat match goal with
         | H : Forall (fun e => quiet e = true) ?tr |- context [timeouts_set ?tr] =>
             rewrite (quiet_no_timeouts tr H)
         | H : Forall (fun e => quiet e = true) ?tr |- context [transports_created ?tr] =>
             rewrite (quiet_no_transports tr H)
         end;
  cbn [timeouts_set transports_created flat_map app length].

Section Reconnection.

Context {U : Type}.
Variable env : Env.
Local Abbreviation M := (M U).
Local Abbreviation Client := (Client U).
Local Abbreviation Handler := (Handler U).

(** [scheduleReconnect()] with no timer pending arms one. *)
Lemma scheduleReconnect_spec (c : Client) :
  reconnectTimer c = None ->
  exists c' tr,
    scheduleReconnect c = (Ok tt, c')
    /\ status c' = reconnecting
    /\ reconnectAttempts c' = reconnectAttempts c + 1
    /\ reconnectTimer c' = Some (nextHandle c)
    /\ config c' = config c
    /\ trace c' = trace c ++ tr
    /\ timeouts_set tr = [nextHandle c].
Proof.
  destruct_client c. cbn. intros ->. unfold scheduleReconnect. crunch.
  on_setStatus. on_log. on_emit.
  eexists _, _. split; [reflexivity|]. crunch.
  repeat (split; [reflexivity|]). split; [rewrite <- !app_assoc; reflexivity|].
  trace_facts. done.
Qed.

(** [handleError(error)] on an error object: below the limit and with no
    timer pending it schedules a reconnect; otherwise it leaves the status
    [error] and arms nothing. *)
Lemma handleError_spec (fields : gmap string JSValue) (c : Client) :
  exists c' tr,
    handleError env (JObj fields) c = (Ok tt, c')
    /\ config c' = config c
    /\ trace c' = trace c ++ tr
    /\ if reconnectAttempts c <? reconnect_limit c
       then match reconnectTimer c with
            | None =>
                status c' = reconnecting
                /\ reconnectAttempts c' = reconnectAttempts c + 1
                /\ reconnectTimer c' = Some (nextHandle c)
                /\ length (timeouts_set tr) = 1%nat
            | Some t =>
                status c' = error
                /\ reconnectAttempts c' = reconnectAttempts c
                /\ reconnectTimer c' = Some t
                /\ timeouts_set tr = []
            end
       else status c' = error
            /\ reconnectAttempts c' = reconnectAttempts c
            /\ reconnectTimer c' = reconnectTimer c
            /\ timeouts_set tr = [].
Proof.
  unfold handleError, reconnect_limit. destruct_client c. crunch.
  on_setStatus. on_emit.
  destruct (c_reconnectAttempts <? opt_or (maxReconnectAttempts c_config) 5).
  - destruct c_reconnectTimer as [timer|].
    + unfold scheduleReconnect. crunch.
      eexists _, _. split; [reflexivity|]. crunch.
      split; [reflexivity|]. split; [rewrite <- !app_assoc; reflexivity|].
      repeat (split; [reflexivity|]).
      by trace_facts.
    + match goal with |- context [scheduleReconnect ?c0] =>
        destruct (scheduleReconnect_spec c0 eq_refl)
          as (c' & tr' & -> & Hst & Hra & Hrt & Hcfg & Htr & Hts) end.
      crunch. exists c', (tr ++ tr0 ++ tr').
      split; [reflexivity|]. split; [exact Hcfg|].
      split; [by rewrite Htr, <- !app_assoc|].
      repeat (split; [assumption|]).
      trace_facts. by rewrite Hts.
  - on_log.
    eexists _, _. split; [reflexivity|]. crunch.
    split; [reflexivity|]. split; [rewrite <- !app_assoc; reflexivity|].
    repeat (split; [reflexivity|]).
    by trace_facts.
Qed.

(** Whatever [handleError] is given, it counts the error and leaves a
    status that is neither [connected] nor [connecting]. *)
Lemma handleError_counts (err : JSValue) (c : Client) :
  let c' := exec (handleError env err) c in
  errorsCount (metrics c') = errorsCount (metrics c) + 1
  /\ (status c' = error \/ status c' = reconnecting)
  /\ eventSource c' = eventSource c.
Proof.
  unfold handleError. destruct_client c. crunch. on_setStatus.
  destruct err; crunch;
    try solve [split; [reflexivity|]; split; [auto| reflexivity]];
    on_emit;
    (destruct (c_reconnectAttempts <? opt_or (maxReconnectAttempts c_config) 5);
     [ unfold scheduleReconnect; crunch;
       destruct c_reconnectTimer; crunch;
       [ | on_setStatus; on_log; on_emit ]
     | on_log ]);
    (split; [reflexivity|]; split; [auto| reflexivity]).
Qed.

(** [handleError] throws only when it is given [null] or [undefined]. *)
Lemma handleError_returns (err : JSValue) (c : Client) :
  err <> JNull -> err <> JUndefined ->
  outcome (handleError env err) c = Ok tt.
Proof.
  intros Hn Hu. unfold handleError. destruct_client c. crunch. on_setStatus.
  destruct err; crunch; try done;
    on_emit;
    (destruct (c_reconnectAttempts <? opt_or (maxReconnectAttempts c_config) 5);
     [ unfold scheduleReconnect; crunch;
       destruct c_reconnectTimer; crunch;
       [ | on_setStatus; on_log; on_emit ]
     | on_log ]);
    reflexivity.
Qed.

(** [connect()] when the transport can be constructed: it returns with the
    status [connecting] and a new transport. *)
Lemma connect_opens (c : Client) (url : URL) :
  status c <> connected -> status c <> connecting ->
  new_URL env "/cedar/stream" (endpoint (config c)) = Ok url ->
  new_EventSource env (stream_url (channels (config c)) url) = None ->
  exists c' tr,
    connect env c = (Ok tt, c')
    /\ status c' = connecting
    /\ eventSource c' = Some (nextHandle c)
    /\ reconnectAttempts c' = reconnectAttempts c
    /\ reconnectTimer c' = reconnectTimer c
    /\ config c' = config c
    /\ trace c' = trace c ++ tr
    /\ timeouts_set tr = []
    /\ transports_created tr = [nextHandle c].
Proof.
  unfold connect. destruct_client c. crunch. intros H1 H2 Hurl Hes.
  rewrite decide_False by (intros [?|?]; done).
  on_setStatus. unfold EventSource_new. rewrite Hurl. crunch. rewrite Hes. crunch.
  eexists _, _. split; [reflexivity|]. crunch.
  repeat (split; [reflexivity|]). split; [rewrite <- !app_assoc; reflexivity|].
  by trace_facts.
Qed.

(** [connect()] when the URL or the transport cannot be constructed: it
    throws, after [handleError]. *)
Lemma connect_rejects (c : Client) (e : JSValue) :
  status c <> connected -> status c <> connecting ->
  (new_URL env "/cedar/stream" (endpoint (config c)) = Throw e
   \/ exists url, new_URL env "/cedar/stream" (endpoint (config c)) = Ok url
        /\ new_EventSource env (stream_url (channels (config c)) url) = Some e) ->
  let c' := exec (connect env) c in
  (exists e', outcome (connect env) c = Throw e'
              /\ (e <> JNull -> e <> JUndefined -> e' = e))
  /\ errorsCount (metrics c') = errorsCount (metrics c) + 1
  /\ (status c' = error \/ status c' = reconnecting)
  /\ eventSource c' = eventSource c.
Proof.
  unfold connect. destruct_client c. crunch. intros H1 H2 Hfail.
  rewrite decide_False by (intros [?|?]; done).
  on_setStatus.
  destruct Hfail as [Hurl | (url & Hurl & Hes)].
  - rewrite Hurl. crunch. on_log.
    match goal with |- context [handleError env e ?c0] =>
      pose proof (handleError_counts e c0) as Hc; crunch;
      destruct (handleError env e c0) as [[[]|e'] c'] eqn:E end; crunch.
    + split; [by exists e|]. exact Hc.
    + split; [|exact Hc]. exists e'. split; [reflexivity|]. intros Hn Hu.
      match type of E with handleError env e ?c0 = _ =>
        pose proof (handleError_returns e c0 Hn Hu) as Hr end.
      unfold outcome in Hr. rewrite E in Hr. discriminate Hr.
  - rewrite Hurl. unfold EventSource_new. crunch. rewrite Hes. crunch. on_log.
    match goal with |- context [handleError env e ?c0] =>
      pose proof (handleError_counts e c0) as Hc; crunch;
      destruct (handleError env e c0) as [[[]|e'] c'] eqn:E end; crunch.
    + split; [by exists e|]. exact Hc.
    + split; [|exact Hc]. exists e'. split; [reflexivity|]. intros Hn Hu.
      match type of E with handleError env e ?c0 = _ =>
        pose proof (handleError_returns e c0 Hn Hu) as Hr end.
      unfold outcome in Hr. rewrite E in Hr. discriminate Hr.
Qed.

End Reconnection.

Section ReconnectionRuns.

Context {U : Type}.
Variable env : Env.
Local Abbreviation Client := (Client U).

Lemma run_app (l1 l2 : list Input) (c : Client) :
  run env (l1 ++ l2) c = run env l2 (run env l1 c).
Proof. apply fold_left_app. Qed.

Lemma open_failures_next (err : JSValue) (n : nat) :
  open_failures (U:=U) err (S (S n))
  = open_failures err (S n) ++ [ReconnectTimerFires; TransportError err].
Proof. reflexivity. Qed.

(** The transport reporting an error to a client. *)
Lemma transport_error_spec (fields : gmap string JSValue) (c : Client) :
  let c' := react env (TransportError (JObj fields)) c in
  exists tr,
    config c' = config c
    /\ trace c' = trace c ++ tr
    /\ if reconnectAttempts c <? reconnect_limit c
       then match reconnectTimer c with
            | None =>
                status c' = reconnecting
                /\ reconnectAttempts c' = reconnectAttempts c + 1
                /\ reconnectTimer c' = Some (nextHandle c)
                /\ length (timeouts_set tr) = 1%nat
            | Some t =>
                status c' = error
                /\ reconnectAttempts c' = reconnectAttempts c
                /\ reconnectTimer c' = Some t
                /\ timeouts_set tr = []
            end
       else status c' = error
            /\ reconnectAttempts c' = reconnectAttempts c
            /\ reconnectTimer c' = reconnectTimer c
            /\ timeouts_set tr = [].
Proof.
  cbn [react]. unfold onerror, exec, bind.
  destruct (log_spec (log_stream_error (JObj fields)) c) as (tr0 & -> & _ & Hq0).
  cbv beta iota.
  set (c0 := with_world _ _ _ c).
  destruct (handleError_spec env fields c0) as (c' & tr & -> & Hcfg & Htr & H).
  cbn [snd]. exists (tr0 ++ tr).
  assert (Hc0 : config c0 = config c /\ reconnectAttempts c0 = reconnectAttempts c
                /\ reconnectTimer c0 = reconnectTimer c /\ nextHandle c0 = nextHandle c
                /\ trace c0 = trace c ++ tr0) by (by destruct_client c).
  destruct Hc0 as (E1 & E2 & E3 & E4 & E5).
  unfold reconnect_limit in *. rewrite E1, E2, E3, E4 in H.
  split; [congruence|]. split; [by rewrite Htr, E5, app_assoc|].
  rewrite timeouts_set_app, (quiet_no_timeouts tr0 Hq0). exact H.
Qed.

(** The reconnect timer firing on a client whose transport can be
    constructed: a new attempt is pending. *)
Lemma reconnect_timer_spec (c : Client) (url : URL) (timer : nat) :
  reconnectTimer c = Some timer ->
  status c <> connected -> status c <> connecting ->
  new_URL env "/cedar/stream" (endpoint (config c)) = Ok url ->
  new_EventSource env (stream_url (channels (config c)) url) = None ->
  let c' := react env ReconnectTimerFires c in
  exists tr,
    status c' = connecting
    /\ reconnectAttempts c' = reconnectAttempts c
    /\ reconnectTimer c' = None
    /\ config c' = config c
    /\ trace c' = trace c ++ tr
    /\ timeouts_set tr = [].
Proof.
  intros Ht H1 H2 Hurl Hes. cbn [react]. rewrite Ht.
  unfold onReconnectTimer, exec, bind, modify, try_catch. cbv beta iota.
  destruct (connect_opens env (set_reconnectTimer None c) url)
    as (c' & tr & -> & Hst & _ & Hra & Hrt & Hcfg & Htr & Hts & _);
    try (by destruct_client c).
  cbv beta iota zeta. cbn [snd]. exists tr. rewrite Hst, Hra, Hrt, Hcfg, Htr, Hts.
  by destruct_client c.
Qed.

(** The state after each of the first [limit] consecutive failures. *)
Lemma open_failures_below_limit (c : Client) (limit : nat)
    (fields : gmap string JSValue) (url : URL) (n : nat) :
  maxReconnectAttempts (config c) = Some (Z.of_nat limit) ->
  status c <> connected -> status c <> connecting ->
  reconnectAttempts c = 0 -> reconnectTimer c = None ->
  new_URL env "/cedar/stream" (endpoint (config c)) = Ok url ->
  new_EventSource env (stream_url (channels (config c)) url) = None ->
  (1 <= n <= limit)%nat ->
  let s := run env (open_failures (JObj fields) n) c in
  status s = reconnecting
  /\ is_Some (reconnectTimer s)
  /\ reconnectAttempts s = Z.of_nat n
  /\ config s = config c
  /\ length (timeouts_set (trace s)) = (length (timeouts_set (trace c)) + n)%nat.
Proof.
  intros Hmax H1 H2 Hra Hrt Hurl Hes.
  assert (Hlim : forall s : Client, config s = config c ->
                   reconnect_limit s = Z.of_nat limit \/ limit = 0%nat).
  { intros s Hs. unfold reconnect_limit. rewrite Hs, Hmax. cbn. unfold num_or.
    destruct (Z.of_nat limit =? 0) eqn:E; [right; lia | by left]. }
  induction n as [|n IH]; [lia|]. intros Hn.
  destruct n as [|n].
  - (* the explicit connect(), then the first failure *)
    cbv zeta. cbn [open_failures run fold_left].
    destruct (connect_opens env c url H1 H2 Hurl Hes)
      as (c1 & tr1 & Hc & Hst1 & _ & Hra1 & Hrt1 & Hcfg1 & Htr1 & Hts1 & _).
    replace (react env CallConnect c) with c1
      by (cbn [react]; unfold exec; by rewrite Hc).
    pose proof (transport_error_spec fields c1) as H. cbv zeta in H.
    set (s := react env (TransportError (JObj fields)) c1) in *.
    destruct H as (tr & Hcfg & Htr & H).
    destruct (Hlim c1 Hcfg1) as [Hl|?]; [|lia].
    rewrite Hl, Hra1, Hra, Hrt1, Hrt in H.
    rewrite (proj2 (Z.ltb_lt _ _)) in H by lia.
    destruct H as (Hst & Hra' & Hrt' & Hts).
    rewrite Hst, Hra', Hrt', Hcfg, Htr, Htr1, Hcfg1.
    rewrite !timeouts_set_app, !length_app, Hts1, Hts. cbn.
    split_and!; eauto; lia.
  - (* the timer fires, then the next failure *)
    cbv zeta. rewrite open_failures_next, run_app. cbv zeta in IH.
    destruct IH as (Hst0 & [timer Hrt0] & Hra0 & Hcfg0 & Hts0); [lia|].
    set (s0 := run env (open_failures (JObj fields) (S n)) c) in *.
    cbn [run fold_left].
    pose proof (reconnect_timer_spec s0 url timer Hrt0) as H0. cbv zeta in H0.
    set (c1 := react env ReconnectTimerFires s0) in *.
    destruct H0 as (tr1 & Hst1 & Hra1 & Hrt1 & Hcfg1 & Htr1 & Hts1);
      try congruence.
    pose proof (transport_error_spec fields c1) as H. cbv zeta in H.
    set (s := react env (TransportError (JObj fields)) c1) in *.
    destruct H as (tr & Hcfg & Htr & H).
    destruct (Hlim c1) as [Hl|?]; [congruence| |lia].
    rewrite Hl, Hra1, Hra0, Hrt1 in H.
    rewrite (proj2 (Z.ltb_lt _ _)) in H by lia.
    destruct H as (Hst & Hra' & Hrt' & Hts).
    rewrite Hst, Hra', Hrt', Hcfg, Htr, Htr1, Hcfg1, Hcfg0.
    rewrite !timeouts_set_app, !length_app, Hts1, Hts, Hts0. cbn.
    split_and!; eauto; lia.
Qed.

(** The failure after those: the client gives up. *)
Lemma open_failures_at_limit (c : Client) (limit : nat)
    (fields : gmap string JSValue) (url : URL) :
  maxReconnectAttempts (config c) = Some (Z.of_nat limit) ->
  (1 <= limit)%nat ->
  status c <> connected -> status c <> connecting ->
  reconnectAttempts c = 0 -> reconnectTimer c = None ->
  new_URL env "/cedar/stream" (endpoint (config c)) = Ok url ->
  new_EventSource env (stream_url (channels (config c)) url) = None ->
  let s := run env (open_failures (JObj fields) (S limit)) c in
  status s = error
  /\ reconnectTimer s = None
  /\ reconnectAttempts s = Z.of_nat limit
  /\ config s = config c
  /\ length (timeouts_set (trace s)) = (length (timeouts_set (trace c)) + limit)%nat.
Proof.
  intros Hmax Hpos H1 H2 Hra Hrt Hurl Hes.
  destruct limit as [|n]; [lia|].
  cbv zeta. rewrite open_failures_next, run_app.
  pose proof (open_failures_below_limit c (S n) fields url (S n)
                Hmax H1 H2 Hra Hrt Hurl Hes) as IH.
  cbv zeta in IH.
  destruct IH as (Hst0 & [timer Hrt0] & Hra0 & Hcfg0 & Hts0); [lia|].
  set (s0 := run env (open_failures (JObj fields) (S n)) c) in *.
  cbn [run fold_left].
  pose proof (reconnect_timer_spec s0 url timer Hrt0) as H0. cbv zeta in H0.
  set (c1 := react env ReconnectTimerFires s0) in *.
  destruct H0 as (tr1 & Hst1 & Hra1 & Hrt1 & Hcfg1 & Htr1 & Hts1);
    try congruence.
  pose proof (transport_error_spec fields c1) as H. cbv zeta in H.
  set (s := react env (TransportError (JObj fields)) c1) in *.
  destruct H as (tr & Hcfg & Htr & H).
  assert (Hl : reconnect_limit c1 = Z.of_nat (S n)).
  { unfold reconnect_limit. rewrite Hcfg1, Hcfg0, Hmax. cbn. unfold num_or.
    by rewrite (proj2 (Z.eqb_neq _ _)) by lia. }
  rewrite Hl, Hra1, Hra0, Hrt1 in H.
  rewrite Z.ltb_irrefl in H.
  destruct H as (Hst & Hra' & Hrt' & Hts).
  rewrite Hst, Hra', Hrt', Hcfg, Htr, Htr1, Hcfg1, Hcfg0.
  rewrite !timeouts_set_app, !length_app, Hts1, Hts, Hts0. cbn.
  split_and!; eauto; lia.
Qed.

End ReconnectionRuns.

(** C3, as the code has it.  When the status is neither [connected] nor
    [connecting], [connect()] settles as soon as it has tried to construct
    the transport, before any outcome of opening it is known: if the URL and
    the transport are constructed it returns (the promise is fulfilled)
    with the status [connecting] and the new transport installed; if
    constructing either throws, it throws (the promise is rejected), with
    the value thrown unless that is [null] or [undefined], after
    [handleError] has counted the error and left the status [error] or
    [reconnecting]. *)
Theorem connect_settles_at_construction {U} (env : Env) (c : Client U) :
  status c <> connected -> status c <> connecting ->
  let c' := exec (connect env) c in
  let rejected (e : JSValue) :=
    (exists e', outcome (connect env) c = Throw e'
                /\ (e <> JNull -> e <> JUndefined -> e' = e))
    /\ errorsCount (metrics c') = errorsCount (metrics c) + 1
    /\ (status c' = error \/ status c' = reconnecting)
    /\ eventSource c' = eventSource c in
  match new_URL env "/cedar/stream" (endpoint (config c)) with
  | Throw e => rejected e
  | Ok url =>
      match new_EventSource env (stream_url (channels (config c)) url) with
      | Some e => rejected e
      | None =>
          outcome (connect env) c = Ok tt
          /\ status c' = connecting
          /\ eventSource c' = Some (nextHandle c)
      end
  end.
Proof.
  intros H1 H2 c' rejected.
  destruct (new_URL env "/cedar/stream" (endpoint (config c))) as [url|e] eqn:Hurl.
  - destruct (new_EventSource env (stream_url (channels (config c)) url))
      as [e|] eqn:Hes.
    + apply (connect_rejects env c e H1 H2). right. eauto.
    + destruct (connect_opens env c url H1 H2 Hurl Hes)
        as (c1 & tr & Hc & Hst & Hsrc & _).
      unfold c', outcome, exec. rewrite Hc. done.
  - apply (connect_rejects env c e H1 H2). by left.
Qed.

Lemma connect_settles_at_construction_witness :
  outcome (connect sample_env) sample_client = Ok tt
  /\ status (exec (connect sample_env) sample_client) = connecting
  /\ eventSource (exec (connect sample_env) sample_client) = Some 0%nat.
Proof.
  apply (connect_settles_at_construction sample_env sample_client);
    discriminate.
Defined.

(** C3, as the specification states it, does not hold: on a client just
    constructed, [connect()] returns, so that its promise is fulfilled,
    while the status is [connecting]: the transport has been constructed
    and has not reported anything yet. *)
Lemma connect_resolves_while_pending :
  outcome (connect sample_env) sample_client = Ok tt
  /\ status (exec (connect sample_env) sample_client) = connecting
  /\ ~ (outcome (connect sample_env) sample_client = Ok tt ->
        status (exec (connect sample_env) sample_client) = connected).
Proof.
  split; [vm_compute; reflexivity|]. split; [vm_compute; reflexivity|].
  intros H. specialize (H eq_refl). vm_compute in H. discriminate H.
Qed.

(** ** The heartbeat timer *)

Section Heartbeat.

Context {U : Type}.
Variable env : Env.
Local Abbreviation Client := (Client U).

Lemma live_intervals_snoc (tr : list Effect) (e : Effect) :
  live_intervals (tr ++ [e])
  = match e with
    | IntervalSet t _ => live_intervals tr ++ [t]
    | IntervalCleared t => List.filter (fun t' => negb (t' =? t)%nat) (live_intervals tr)
    | _ => live_intervals tr
    end.
Proof. unfold live_intervals. by rewrite fold_left_app. Qed.

Lemma intervals_cleared_app (tr1 tr2 : list Effect) :
  intervals_cleared (tr1 ++ tr2) = intervals_cleared tr1 ++ intervals_cleared tr2.
Proof. apply flat_map_app. Qed.

Lemma intervals_set_app (tr1 tr2 : list Effect) :
  intervals_set (tr1 ++ tr2) = intervals_set tr1 ++ intervals_set tr2.
Proof. apply flat_map_app. Qed.

(** Starting the heartbeat while its timer runs changes nothing. *)
Lemma startHeartbeat_running (c : Client) (timer : nat) :
  heartbeatTimer c = Some timer -> startHeartbeat c = (Ok tt, c).
Proof. intros H. unfold startHeartbeat, bind, get. by rewrite H. Qed.

(** [disconnect()] clears the heartbeat timer if it runs, once. *)
Lemma disconnect_heartbeat (c : Client) :
  heartbeatTimer (exec disconnect c) = None
  /\ exists tr,
       trace (exec disconnect c) = trace c ++ tr
       /\ intervals_cleared tr = option_list (heartbeatTimer c)
       /\ intervals_set tr = []
       /\ (live_intervals (trace c) = option_list (heartbeatTimer c) ->
           live_intervals (trace (exec disconnect c)) = []).
Proof.
  unfold disconnect. destruct_client c. crunch. on_log.
  destruct c_reconnectTimer, c_heartbeatTimer, c_eventSource; crunch;
    on_setStatus; on_emit;
    (split; [reflexivity|]);
    eexists; (split; [rewrite <- !app_assoc; reflexivity|]);
    rewrite !intervals_cleared_app, !intervals_set_app;
    destruct (quiet_no_intervals _ Hq) as [-> ->];
    destruct (quiet_no_intervals _ Hq0) as [-> ->];
    destruct (quiet_no_intervals _ Hq1) as [-> ->];
    (split; [reflexivity|]; split; [reflexivity|]);
    intros Hlive;
    rewrite ?app_assoc;
    repeat first [ rewrite live_intervals_quiet by assumption
                 | rewrite live_intervals_snoc; cbv beta iota ];
    rewrite ?Hlive; cbn; rewrite ?Nat.eqb_refl; reflexivity.
Qed.

(** The transport opening starts the timer unless it runs. *)
Lemma onopen_heartbeat (c : Client) :
  live_intervals (trace c) = option_list (heartbeatTimer c) ->
  live_intervals (trace (exec onopen c)) = option_list (heartbeatTimer (exec onopen c)).
Proof.
  unfold onopen, startHeartbeat. destruct_client c. crunch. intros Hlive.
  on_log. on_setStatus.
  destruct c_heartbeatTimer; crunch; on_emit;
    rewrite ?app_assoc;
    repeat first [ rewrite live_intervals_quiet by assumption
                 | rewrite live_intervals_snoc; cbv beta iota ];
    by rewrite Hlive.
Qed.

(** At most one heartbeat interval runs, and it is the one the client
    holds. *)
Lemma react_heartbeat (i : Input) (c : Client) :
  live_intervals (trace c) = option_list (heartbeatTimer c) ->
  live_intervals (trace (react env i c))
  = option_list (heartbeatTimer (react env i c)).
Proof.
  intros Hlive.
  assert (Hother : i <> TransportOpen -> i <> CallDisconnect ->
            live_intervals (trace (react env i c))
            = option_list (heartbeatTimer (react env i c))).
  { intros H1 H2. pose proof (react_heartbeat_view env i c H1 H2) as Hv.
    unfold heartbeat_view in Hv. by injection Hv as -> ->. }
  destruct i; try (by apply Hother).
  - cbn [react]. destruct (disconnect_heartbeat c) as (-> & tr & _ & _ & _ & H).
    by apply H.
  - by apply onopen_heartbeat.
Qed.

Lemma run_heartbeat (inputs : list Input) (c : Client) :
  live_intervals (trace c) = option_list (heartbeatTimer c) ->
  live_intervals (trace (run env inputs c))
  = option_list (heartbeatTimer (run env inputs c)).
Proof.
  revert c. induction inputs as [|i inputs IH]; intros c Hlive; [done|].
  cbn [run fold_left]. apply IH. by apply react_heartbeat.
Qed.

End Heartbeat.

(** C4, as the code has it.  [disconnect()] stops the heartbeat timer:
    it clears the interval once if the timer runs, and a second
    [disconnect()] clears nothing.  Entering [error] or [reconnecting]
    ([handleError], [scheduleReconnect]) does not touch the timer: neither
    the field nor the running intervals change.  Starting the heartbeat
    while the timer runs changes nothing, and in every state the client
    reaches at most one heartbeat interval runs, the one it holds. *)
Theorem heartbeat_timer_discipline {U} (env : Env) (c : Client U) :
  (heartbeatTimer (exec disconnect c) = None
   /\ (exists tr, trace (exec disconnect c) = trace c ++ tr
                  /\ intervals_cleared tr = option_list (heartbeatTimer c))
   /\ (exists tr, trace (exec disconnect (exec disconnect c))
                  = trace (exec disconnect c) ++ tr
                  /\ intervals_cleared tr = []))
  /\ (forall err, heartbeat_view (exec (handleError env err) c) = heartbeat_view c)
  /\ heartbeat_view (exec scheduleReconnect c) = heartbeat_view c
  /\ (forall timer,
        let c1 := set_heartbeatTimer (Some timer) c in
        startHeartbeat c1 = (Ok tt, c1))
  /\ (forall cfg t0 (u0 : U) inputs,
        let s := run env inputs (constructor cfg t0 u0) in
        live_intervals (trace s) = option_list (heartbeatTimer s)
        /\ (length (live_intervals (trace s)) <= 1)%nat).
Proof.
  split_and!.
  - apply disconnect_heartbeat.
  - destruct (disconnect_heartbeat c) as (_ & tr & ? & ? & _). eauto.
  - destruct (disconnect_heartbeat c) as (Hnone & _).
    destruct (disconnect_heartbeat (exec disconnect c)) as (_ & tr & ? & Hcl & _).
    rewrite Hnone in Hcl. eauto.
  - intros err. apply handleError_heartbeat.
  - apply scheduleReconnect_heartbeat.
  - intros timer c1. apply (startHeartbeat_running c1 timer). by destruct_client c.
  - intros cfg t0 u0 inputs s.
    assert (H : live_intervals (trace s) = option_list (heartbeatTimer s))
      by (by apply run_heartbeat).
    split; [exact H|]. rewrite H. destruct (heartbeatTimer s); cbn; lia.
Qed.

(** C4, as the specification states it, does not hold: the heartbeat timer
    started when the transport opened is still running, and nothing has
    cleared it, when the status has become [reconnecting] after one error,
    and when it is [error] after the client has given up. *)
Lemma heartbeat_survives_error :
  let fails := TransportError (JObj ∅) in
  let s1 := run sample_env [CallConnect; TransportOpen; fails] sample_client in
  let s2 := run sample_env [ReconnectTimerFires; fails; ReconnectTimerFires; fails] s1 in
  (status s1 = reconnecting
   /\ heartbeatTimer s1 = Some 1%nat
   /\ live_intervals (trace s1) = [1%nat]
   /\ intervals_cleared (trace s1) = [])
  /\ (status s2 = error
      /\ heartbeatTimer s2 = Some 1%nat
      /\ live_intervals (trace s2) = [1%nat]
      /\ intervals_cleared (trace s2) = []).
Proof. vm_compute. done. Qed.

(** ** Decoding *)

Section Decoding.

Context {U : Type}.
Variable env : Env.
Local Abbreviation Client := (Client U).

(** The shape test never throws. *)
Lemma isCedarEvent_total (v : JSValue) : exists r, isCedarEvent v = Ok r.
Proof.
  unfold isCedarEvent.
  destruct v; cbn; eauto; repeat (case_match; cbn; eauto).
Qed.

(** The shape test succeeds exactly on the native shape. *)
Lemma isCedarEvent_native (v : JSValue) :
  (exists r, isCedarEvent v = Ok r /\ truthy r = true) <-> native_shape v.
Proof.
  split.
  - intros (r & Hr & Ht). unfold isCedarEvent in Hr.
    destruct v as [| |b|n|s|items|fields]; cbn in *;
      try (injection Hr as <-; discriminate Ht);
      try (destruct (negb _) eqn:E in Hr; injection Hr as <-;
           [cbn in Ht; rewrite Ht in E|]; discriminate).
    destruct (fields !! "type") as [[]|] eqn:E1; cbn in Hr;
      try (injection Hr as <-; discriminate Ht).
    destruct (fields !! "channel") as [[]|] eqn:E2; cbn in Hr;
      try (injection Hr as <-; discriminate Ht).
    destruct (fields !! "data") as [payload|] eqn:E3; cbn in Hr;
      try (injection Hr as <-; discriminate Ht).
    destruct (not_undefined payload) eqn:E3'; cbn in Hr;
      try (injection Hr as <-; discriminate Ht).
    destruct (fields !! "timestamp") as [[]|] eqn:E4; cbn in Hr;
      try (injection Hr as <-; discriminate Ht).
    exists fields. eexists _, _, payload, _. split_and!; try done.
    by destruct payload.
  - intros (fields & type & channel & payload & timestamp
            & -> & E1 & E2 & E3 & Hp & E4).
    exists (JBool true). split; [|done].
    unfold isCedarEvent. cbn. rewrite E1, E2, E3, E4. cbn.
    by destruct payload.
Qed.

(** A message of the native shape names its channel. *)
Lemma native_channel (v r : JSValue) :
  isCedarEvent v = Ok r -> truthy r = true ->
  exists channel, getProp v "channel" = Ok (JStr channel).
Proof.
  intros Hr Ht.
  destruct (proj1 (isCedarEvent_native v)) as (fields & ? & channel & ? & ? & -> & _ & E & _);
    [eauto|].
  exists channel. cbn. by rewrite E.
Qed.

(** What the legacy decoder builds from a message whose properties can be
    read. *)
Lemma legacyCedarEvent_spec (isoNow data : JSValue) :
  nullish data = false ->
  exists type payload timestamp,
    getProp data "type" = Ok type
    /\ getProp data "data" = Ok payload
    /\ getProp data "timestamp" = Ok timestamp
    /\ legacyCedarEvent isoNow data =
       Ok (if strict_eq_str type "transaction" then
             JObj {[ "type" := type; "channel" := JStr "transactions";
                     "data" := payload; "timestamp" := js_or timestamp isoNow;
                     "source" := JStr "legacy-websocket" ]}
           else if strict_eq_str type "notification_popup" then
             JObj {[ "type" := type; "channel" := JStr "notifications";
                     "data" := payload; "timestamp" := js_or timestamp isoNow;
                     "source" := JStr "legacy-websocket" ]}
           else
             JObj {[ "type" := js_or type (JStr "unknown");
                     "channel" := JStr "system";
                     "data" := data; "timestamp" := isoNow;
                     "source" := JStr "legacy-websocket" ]}).
Proof.
  intros Hn. unfold legacyCedarEvent.
  destruct data; try discriminate Hn; cbn;
    eexists _, _, _; (split_and!; [reflexivity..|]);
    cbn; repeat case_match; reflexivity.
Qed.

(** On [null] the legacy decoder throws. *)
Lemma legacyCedarEvent_null (isoNow : JSValue) :
  legacyCedarEvent isoNow JNull = Throw (TypeError "Cannot read properties of null").
Proof. reflexivity. Qed.

End Decoding.

Section Messages.

Context {U : Type}.
Variable env : Env.
Local Abbreviation Client := (Client U).

(** The channel of what the legacy decoder builds. *)
Lemma legacy_channel (isoNow data legacy : JSValue) :
  nullish data = false ->
  legacyCedarEvent isoNow data = Ok legacy ->
  exists type channel,
    getProp data "type" = Ok type
    /\ getProp legacy "channel" = Ok (JStr channel)
    /\ channel = (if strict_eq_str type "transaction" then "transactions"
                  else if strict_eq_str type "notification_popup" then "notifications"
                  else "system").
Proof.
  intros Hn Hl.
  destruct (legacyCedarEvent_spec isoNow data Hn) as (type & p & ts & Ht & _ & _ & E).
  rewrite E in Hl. injection Hl as <-.
  exists type. eexists. split; [exact Ht|]. split; [|reflexivity].
  by repeat case_match.
Qed.

(** A frame that does not parse: only the error is counted. *)
Lemma handleMessage_unparsed (event : MessageEvent) (e : JSValue) (c : Client) :
  JSON_parse env (data event) = Throw e ->
  exists c' tr,
    handleMessage env event c = (Ok tt, c')
    /\ trace c' = trace c ++ tr /\ invocations tr = []
    /\ metrics c' = incr_errorsCount (metrics c).
Proof.
  intros Hp. unfold handleMessage. destruct_client c. crunch. rewrite Hp. crunch.
  on_log. eexists _, _. split; [reflexivity|]. crunch. done.
Qed.

(** A frame that parses to a value whose properties can be read: it is
    dispatched as it is when it has the native shape, and as the legacy
    decoder rebuilds it otherwise, to the subscribers of its channel; it is
    counted as received and as processed. *)
Lemma handleMessage_parsed (event : MessageEvent) (v : JSValue) (c : Client) :
  JSON_parse env (data event) = Ok v ->
  nullish v = false ->
  exists c' tr dispatched channel,
    handleMessage env event c = (Ok tt, c')
    /\ (native_shape v -> dispatched = v)
    /\ (~ native_shape v ->
        legacyCedarEvent (JStr (toISOString env (now c))) v = Ok dispatched)
    /\ getProp dispatched "channel" = Ok (JStr channel)
    /\ trace c' = trace c ++ tr
    /\ invocations tr = map (fun h => (hid h, dispatched)) (subscribers channel c)
    /\ metrics c' = incr_messagesProcessed
                      (set_lastMessageTime (toISOString env (now c))
                         (incr_messagesReceived (metrics c))).
Proof.
  intros Hp Hn. unfold handleMessage. destruct_client c. crunch. rewrite Hp. crunch.
  destruct (isCedarEvent_total v) as [r Hr]. rewrite Hr.
  destruct (truthy r) eqn:Ht.
  - destruct (native_channel v r Hr Ht) as [channel Hch].
    on_processCedarEvent Hch. rewrite recordLatency_eq. crunch.
    eexists _, tr, v, channel. split; [reflexivity|]. crunch.
    split_and!; try done.
    intros Hnot. destruct Hnot. apply isCedarEvent_native. eauto.
  - unfold processLegacyEvent. crunch.
    destruct (legacyCedarEvent_spec (JStr (toISOString env c_now)) v Hn)
      as (type & p & ts & _ & _ & _ & E).
    rewrite E.
    destruct (legacy_channel _ _ _ Hn E) as (type' & channel & _ & Hch & _).
    on_processCedarEvent Hch. rewrite recordLatency_eq. crunch.
    match type of E with _ = Ok ?l => eexists _, tr, l, channel end.
    split; [reflexivity|]. crunch.
    split_and!; try done.
    + intros Hnat. apply isCedarEvent_native in Hnat as (r' & Hr' & Ht').
      congruence.

Qed.

(** A frame that parses to [null]: the legacy decoder throws, nothing is
    dispatched, and the frame is counted as received and as an error.
    ([JSON.parse] never yields [undefined], which would fare the same.) *)
Lemma handleMessage_nullish (event : MessageEvent) (v : JSValue) (c : Client) :
  JSON_parse env (data event) = Ok v ->
  nullish v = true ->
  exists c' tr,
    handleMessage env event c = (Ok tt, c')
    /\ trace c' = trace c ++ tr /\ invocations tr = []
    /\ metrics c' = incr_errorsCount
                      (set_lastMessageTime (toISOString env (now c))
                         (incr_messagesReceived (metrics c))).
Proof.
  intros Hp Hn. unfold handleMessage. destruct_client c. crunch. rewrite Hp. crunch.
  assert (Hs : isCedarEvent v = Ok v /\ truthy v = false
               /\ forall iso, exists e, legacyCedarEvent iso v = Throw e)
    by (destruct v; try discriminate Hn; eauto).
  destruct Hs as (-> & Ht & Hl). crunch. rewrite Ht.
  unfold processLegacyEvent. crunch.
  match goal with |- context [legacyCedarEvent ?iso v] =>
    destruct (Hl iso) as [e ->] end.
  on_log.
  eexists _, _. split; [reflexivity|]. crunch. done.
Qed.

Lemma handleMessage_null (event : MessageEvent) (c : Client) :
  JSON_parse env (data event) = Ok JNull ->
  exists c' tr,
    handleMessage env event c = (Ok tt, c')
    /\ trace c' = trace c ++ tr /\ invocations tr = []
    /\ metrics c' = incr_errorsCount
                      (set_lastMessageTime (toISOString env (now c))
                         (incr_messagesReceived (metrics c))).
Proof. intros Hp. by apply (handleMessage_nullish event JNull). Qed.

(** The counters of messages after a frame. *)
Lemma handleMessage_counters (event : MessageEvent) (c : Client) :
  let c' := exec (handleMessage env event) c in
  (messagesReceived (metrics c') = messagesReceived (metrics c)
   /\ messagesProcessed (metrics c') = messagesProcessed (metrics c))
  \/ (messagesReceived (metrics c') = messagesReceived (metrics c) + 1
      /\ (messagesProcessed (metrics c') = messagesProcessed (metrics c)
          \/ messagesProcessed (metrics c') = messagesProcessed (metrics c) + 1)).
Proof.
  cbv zeta. unfold exec.
  destruct (JSON_parse env (data event)) as [v|e] eqn:Hp.
  - destruct (nullish v) eqn:Hn.
    + right.
      destruct (handleMessage_nullish event v c Hp Hn)
        as (c' & tr & -> & _ & _ & Hm).
      cbn [snd]. rewrite Hm. cbn. auto.
    + right.
      destruct (handleMessage_parsed event v c Hp Hn)
        as (c' & tr & d & ch & -> & _ & _ & _ & _ & _ & Hm).
      cbn [snd]. rewrite Hm. cbn. auto.
  - left.
    destruct (handleMessage_unparsed event e c Hp) as (c' & tr & -> & _ & _ & Hm).
    cbn [snd]. rewrite Hm. cbn. auto.
Qed.

(** The processed messages never outnumber the received ones. *)
Lemma react_counters_invariant (i : Input) (c : Client) :
  messagesProcessed (metrics c) <= messagesReceived (metrics c) ->
  messagesProcessed (metrics (react env i c))
  <= messagesReceived (metrics (react env i c)).
Proof.
  intros Hinv.
  assert (Hother : (forall event, i <> TransportMessage event) ->
            messagesProcessed (metrics (react env i c))
            <= messagesReceived (metrics (react env i c))).
  { intros Hi. pose proof (react_counters env i c Hi) as Hc.
    unfold counters in Hc. injection Hc as -> ->. exact Hinv. }
  destruct i; try (by apply Hother).
  cbn [react]. pose proof (handleMessage_counters event c) as H. cbv zeta in H.
  lia.
Qed.

Lemma run_counters_invariant (inputs : list Input) (c : Client) :
  messagesProcessed (metrics c) <= messagesReceived (metrics c) ->
  messagesProcessed (metrics (run env inputs c))
  <= messagesReceived (metrics (run env inputs c)).
Proof.
  revert c. induction inputs as [|i inputs IH]; intros c Hinv; [done|].
  cbn [run fold_left]. apply IH. by apply react_counters_invariant.
Qed.

End Messages.

(** C6, as the code has it.  A message whose properties can be read (any
    parsed value but [null]) is rebuilt by the legacy decoder as an event of
    exactly five properties.  Its [channel] is ["transactions"] for the type
    ["transaction"], ["notifications"] for ["notification_popup"] and
    ["system"] for anything else.  Its [source] is ["legacy-websocket"].
    For the two known types its [type] and [data] are those of the message,
    and its [timestamp] is the inbound one when that is truthy and the
    current time otherwise.  For any other type its [type] is the inbound
    one, or ["unknown"] when that is falsy, its [data] is the whole
    message, and its [timestamp] is always the current time.  That event is
    what [processLegacyEvent] hands to the dispatch. *)
Theorem legacy_decode {U} (env : Env) (c : Client U) (message : JSValue)
    (event : MessageEvent) :
  nullish message = false ->
  let isoNow := JStr (toISOString env (now c)) in
  exists type payload timestamp legacy channel,
    getProp message "type" = Ok type
    /\ getProp message "data" = Ok payload
    /\ getProp message "timestamp" = Ok timestamp
    /\ channel = (if strict_eq_str type "transaction" then "transactions"
                  else if strict_eq_str type "notification_popup" then "notifications"
                  else "system")
    /\ legacyCedarEvent isoNow message = Ok legacy
    /\ (let known := strict_eq_str type "transaction"
                     || strict_eq_str type "notification_popup" in
        legacy = JObj {[ "type" := (if known then type
                                    else js_or type (JStr "unknown"));
                         "channel" := JStr channel;
                         "data" := (if known then payload else message);
                         "timestamp" := (if known then js_or timestamp isoNow
                                         else isoNow);
                         "source" := JStr "legacy-websocket" ]})
    /\ getProp legacy "channel" = Ok (JStr channel)
    /\ getProp legacy "source" = Ok (JStr "legacy-websocket")
    /\ getProp legacy "timestamp"
       = Ok (if strict_eq_str type "transaction" || strict_eq_str type "notification_popup"
             then js_or timestamp isoNow else isoNow)
    /\ getProp legacy "data"
       = Ok (if strict_eq_str type "transaction" || strict_eq_str type "notification_popup"
             then payload else message)
    /\ processLegacyEvent env message event c = processCedarEvent legacy c.
Proof.
  intros Hn isoNow.
  destruct (legacyCedarEvent_spec isoNow message Hn) as (type & p & ts & Ht & Hd & Hts & E).
  eexists type, p, ts, _, _.
  split; [exact Ht|]. split; [exact Hd|]. split; [exact Hts|]. split; [reflexivity|].
  split; [exact E|].
  assert (Hrun : forall legacy, legacyCedarEvent isoNow message = Ok legacy ->
            processLegacyEvent env message event c = processCedarEvent legacy c).
  { intros legacy El. unfold isoNow in El.
    unfold processLegacyEvent, Date_toISOString, Date_now, bind, get, ret, lift.
    cbv beta iota. by rewrite El. }
  specialize (Hrun _ E).
  destruct (strict_eq_str type "transaction");
    [|destruct (strict_eq_str type "notification_popup")];
    cbn [orb]; split_and!; try done.
Qed.

Lemma legacy_decode_witness :
  let message := JObj {[ "type" := JStr "system_status"; "data" := JNum 42;
                         "timestamp" := JStr "2024-01-01T00:00:00Z" ]} in
  let isoNow := JStr "1970-01-01T00:00:00.000Z" in
  exists legacy,
    legacyCedarEvent isoNow message = Ok legacy
    /\ legacy = JObj {[ "type" := JStr "system_status";
                        "channel" := JStr "system";
                        "data" := message;
                        "timestamp" := isoNow;
                        "source" := JStr "legacy-websocket" ]}
    /\ processLegacyEvent sample_env message (mkMessageEvent "{}") sample_client
       = processCedarEvent legacy sample_client.
Proof.
  intros message isoNow.
  destruct (legacy_decode sample_env sample_client message (mkMessageEvent "{}") eq_refl)
    as (type & payload & timestamp & legacy & channel
        & Ht & Hd & Hts & Hc & Hl & Hobj & _ & _ & _ & _ & Hrun).
  injection Ht as <-. injection Hd as <-. injection Hts as <-.
  cbn in Hc. subst channel.
  exists legacy. split; [exact Hl|]. split; [exact Hobj | exact Hrun].
Defined.

(** C6, as the specification states it, does not hold: the tag of a legacy
    event is ["legacy-websocket"], not ["legacy"]; and a message of another
    type that carries a timestamp is stamped with the current time all the
    same. *)
Lemma legacy_decode_counterexample :
  let isoNow := JStr "2026-01-01T00:00:00.000Z" in
  (exists legacy,
     legacyCedarEvent isoNow (JObj {[ "type" := JStr "transaction"; "data" := JNum 42 ]})
     = Ok legacy
     /\ getProp legacy "source" = Ok (JStr "legacy-websocket")
     /\ getProp legacy "source" <> Ok (JStr "legacy"))
  /\ (exists legacy,
        legacyCedarEvent isoNow
          (JObj {[ "type" := JStr "system_status";
                   "timestamp" := JStr "2024-01-01T00:00:00Z" ]})
        = Ok legacy
        /\ getProp legacy "timestamp" = Ok isoNow
        /\ getProp legacy "timestamp" <> Ok (JStr "2024-01-01T00:00:00Z")).
Proof.
  split; eexists; (split; [vm_compute; reflexivity|]);
    (split; [vm_compute; reflexivity|]); vm_compute; intros [=].
Qed.

(** C5 at the input where the code departs from it.  The value [null]
    does not have the native shape and the shape test sends it to the legacy
    decoder without throwing; there, reading [data.type] throws a
    [TypeError].  [handleMessage] catches it: for the frame [null] no
    subscriber is called, not even those of ["system"], and an error is
    counted. *)
Theorem null_frame_decoding {U} (c : Client U) :
  isCedarEvent JNull = Ok JNull
  /\ truthy JNull = false
  /\ ~ native_shape JNull
  /\ (forall isoNow,
        legacyCedarEvent isoNow JNull
        = Throw (TypeError "Cannot read properties of null"))
  /\ (forall event,
        outcome (processLegacyEvent sample_env JNull event) c
        = Throw (TypeError "Cannot read properties of null"))
  /\ JSON_parse sample_env "null" = Ok JNull
  /\ let c' := exec (handleMessage sample_env (mkMessageEvent "null")) c in
     exists tr,
       trace c' = trace c ++ tr
       /\ invocations tr = []
       /\ errorsCount (metrics c') = errorsCount (metrics c) + 1.
Proof.
  split; [reflexivity|]. split; [reflexivity|]. split.
  { by intros (? & ? & ? & ? & ? & ? & _). }
  split; [reflexivity|]. split.
  { intros event. destruct_client c. reflexivity. }
  split; [reflexivity|].
  destruct (handleMessage_null sample_env (mkMessageEvent "null") c eq_refl)
    as (c' & tr & Hc & Htr & Hi & Hm).
  cbv zeta. unfold exec. rewrite Hc. cbn [snd]. exists tr. by rewrite Hm.
Qed.

(** The counters of messages.  In every state a client reaches, the
    processed messages do not outnumber the received ones.  A frame that
    does not parse is counted as an error only.  A frame that parses is
    counted as received, and, when its properties can be read (any parsed
    value but [null]), as processed and not as an error. *)
Lemma message_counters {U} (env : Env) :
  (forall cfg t0 (u0 : U) inputs,
     let s := run env inputs (constructor cfg t0 u0) in
     messagesProcessed (metrics s) <= messagesReceived (metrics s))
  /\ (forall (c : Client U) event,
        let c' := exec (handleMessage env event) c in
        match JSON_parse env (data event) with
        | Throw _ =>
            messagesReceived (metrics c') = messagesReceived (metrics c)
            /\ messagesProcessed (metrics c') = messagesProcessed (metrics c)
            /\ errorsCount (metrics c') = errorsCount (metrics c) + 1
        | Ok v =>
            messagesReceived (metrics c') = messagesReceived (metrics c) + 1
            /\ (nullish v = true
                \/ (messagesProcessed (metrics c') = messagesProcessed (metrics c) + 1
                    /\ errorsCount (metrics c') = errorsCount (metrics c)))
        end).
Proof.
  split.
  - intros cfg t0 u0 inputs s. apply run_counters_invariant. cbn. lia.
  - intros c event c'. unfold c', exec.
    destruct (JSON_parse env (data event)) as [v|e] eqn:Hp.
    + destruct (nullish v) eqn:Hn.
      * destruct (handleMessage_nullish env event v c Hp Hn)
          as (c1 & tr & -> & _ & _ & Hm).
        cbn [snd]. rewrite Hm. cbn. auto.
      * destruct (handleMessage_parsed env event v c Hp Hn)
          as (c1 & tr & d & ch & -> & _ & _ & _ & _ & _ & Hm).
        cbn [snd]. rewrite Hm. cbn. auto.
    + destruct (handleMessage_unparsed env event e c Hp) as (c1 & tr & -> & _ & _ & Hm).
      cbn [snd]. rewrite Hm. cbn. auto.
Qed.

(** C10 at the input where the code departs from it.  The frame [null]
    parses.  On every client it is counted as received and as an error, and
    it is not counted as processed: the legacy decoder throws on it, between
    the two increments, and [handleMessage] catches that. *)
Theorem null_frame_not_processed {U} (c : Client U) :
  JSON_parse sample_env "null" = Ok JNull
  /\ let c' := exec (handleMessage sample_env (mkMessageEvent "null")) c in
     messagesReceived (metrics c') = messagesReceived (metrics c) + 1
     /\ messagesProcessed (metrics c') = messagesProcessed (metrics c)
     /\ errorsCount (metrics c') = errorsCount (metrics c) + 1.
Proof.
  split; [reflexivity|].
  destruct (handleMessage_null sample_env (mkMessageEvent "null") c eq_refl)
    as (c' & tr & Hc & _ & _ & Hm).
  cbv zeta. unfold exec. rewrite Hc. cbn [snd]. by rewrite Hm.
Qed.

(** A limit of zero is falsy and reads as the default of five. *)
Lemma zero_limit_reads_as_five :
  reconnect_limit (constructor (U:=unit) (sample_config 0) 0 tt) = 5.
Proof. reflexivity. Qed.

(** * Further properties of the client *)

(** ** Registering and removing handlers *)

Section Registration.

Context {U : Type}.
Local Abbreviation M := (M U).
Local Abbreviation Client := (Client U).
Local Abbreviation Handler := (Handler U).

(** [log] changes nothing but the console. *)
Lemma log_eq (m : LogMsg) (c : Client) :
  log m c = (Ok tt, set_trace (trace c ++ (if default false (debug (config c))
                                           then [ConsoleLog m] else [])) c).
Proof.
  unfold log. destruct_client c. crunch.
  destruct (default false (debug c_config)); [done|]. by rewrite app_nil_r.
Qed.

Lemma trace_with_world (u : U) (t : Z) (tr : list Effect) (c : Client) :
  trace (with_world u t tr c) = tr.
Proof. by destruct_client c. Qed.

Lemma indexOf_None (hs : list Handler) (h : Handler) :
  indexOf hs h = None <-> Forall (fun x => hid x <> hid h) hs.
Proof.
  induction hs as [|x hs IH]; cbn; [by split; [constructor|]|].
  destruct (Nat.eqb_spec (hid x) (hid h)) as [E|E].
  - split; [done|]. by inversion 1.
  - rewrite fmap_None, IH. split; [by constructor|by inversion 1].
Qed.

Lemma remove_handler_absent (hs : list Handler) (h : Handler) :
  indexOf hs h = None -> remove_handler h hs = hs.
Proof. intros E. unfold remove_handler. by rewrite E. Qed.

(** [indexOf] then [splice] takes out the first registration of the
    function, and nothing else. *)
Lemma remove_handler_first (before after : list Handler) (h h' : Handler) :
  Forall (fun x => hid x <> hid h) before -> hid h' = hid h ->
  remove_handler h (before ++ h' :: after) = before ++ after.
Proof.
  intros Hb Hh.
  assert (E : indexOf (before ++ h' :: after) h = Some (length before)).
  { induction Hb as [|x before Hx _ IH]; cbn.
    - by rewrite Hh, Nat.eqb_refl.
    - rewrite (proj2 (Nat.eqb_neq _ _)) by done. by rewrite IH. }
  unfold remove_handler, splice1. rewrite E.
  rewrite take_app_length, drop_app_ge by lia.
  by replace (S (length before) - length before)%nat with 1%nat by lia.
Qed.

(** The registry of channels after [subscribe] and [unsubscribe]. *)
Lemma subscribe_eq (channel : string) (h : Handler) (c : Client) :
  subscribe channel h c
  = (Ok tt,
     set_trace (trace c ++ (if default false (debug (config c))
                            then [ConsoleLog (log_subscribed channel)] else []))
       (set_channelHandlers
          (<[channel := subscribers channel c ++ [h]]> (channelHandlers c)) c)).
Proof.
  unfold subscribe, bind at 1, get. cbv beta iota.
  destruct (channelHandlers c !! channel) as [hs|] eqn:E.
  - rewrite bool_decide_true by eauto.
    unfold bind at 1, ret. cbv beta iota.
    unfold bind at 1, modify. cbv beta iota. rewrite log_eq.
    unfold subscribers. rewrite E. cbn [default].
    replace (alter (fun hs0 => hs0 ++ [h]) channel (channelHandlers c))
      with (<[channel := hs ++ [h]]> (channelHandlers c)).
    + by destruct_client c.
    + apply map_eq. intros k. destruct (decide (k = channel)) as [->|Hk].
      * by rewrite lookup_insert_eq, lookup_alter_eq, E.
      * by rewrite lookup_insert_ne, lookup_alter_ne by done.
  - rewrite bool_decide_false by (by intros [? ?]).
    unfold bind at 1, modify. cbv beta iota.
    unfold bind at 1, modify. cbv beta iota. rewrite log_eq.
    unfold subscribers. rewrite E. cbn [default app].
    replace (channelHandlers (set_channelHandlers (<[channel:=[]]> (channelHandlers c)) c))
      with (<[channel:=[]]> (channelHandlers c)) by (by destruct_client c).
    replace (alter (fun hs0 => hs0 ++ [h]) channel (<[channel:=[]]> (channelHandlers c)))
      with (<[channel := [h]]> (channelHandlers c)).
    + by destruct_client c.
    + apply map_eq. intros k. destruct (decide (k = channel)) as [->|Hk].
      * by rewrite lookup_insert_eq, lookup_alter_eq, lookup_insert_eq.
      * by rewrite lookup_insert_ne, lookup_alter_ne, lookup_insert_ne by done.
Qed.

Lemma unsubscribe_eq (channel : string) (handler : option Handler) (c : Client) :
  unsubscribe channel handler c
  = match channelHandlers c !! channel with
    | None => (Ok tt, c)
    | Some hs =>
        (Ok tt,
         set_trace (trace c ++ (if default false (debug (config c))
                                then [ConsoleLog (log_unsubscribed channel)] else []))
           (set_channelHandlers
              (match handler with
               | Some h => <[channel := remove_handler h hs]> (channelHandlers c)
               | None => delete channel (channelHandlers c)
               end) c))
    end.
Proof.
  unfold unsubscribe, bind at 1, get. cbv beta iota.
  destruct (channelHandlers c !! channel) as [hs|] eqn:E.
  - rewrite bool_decide_true by eauto.
    destruct handler as [h|]; unfold bind at 1, modify; cbv beta iota; rewrite log_eq.
    + replace (alter (remove_handler h) channel (channelHandlers c))
        with (<[channel := remove_handler h hs]> (channelHandlers c)).
      * by destruct_client c.
      * apply map_eq. intros k. destruct (decide (k = channel)) as [->|Hk].
        -- by rewrite lookup_insert_eq, lookup_alter_eq, E.
        -- by rewrite lookup_insert_ne, lookup_alter_ne by done.
    + by destruct_client c.
  - by rewrite bool_decide_false by (by intros [? ?]).
Qed.

Lemma set_channelHandlers_same (c : Client) :
  set_channelHandlers (channelHandlers c) c = c.
Proof. by destruct_client c. Qed.

Lemma set_eventHandlers_same (c : Client) :
  set_eventHandlers (eventHandlers c) c = c.
Proof. by destruct_client c. Qed.

Lemma subscribers_set (m : gmap string (list Handler)) (tr : list Effect)
    (ch : string) (c : Client) :
  subscribers ch (set_trace tr (set_channelHandlers m c)) = default [] (m !! ch).
Proof. by destruct_client c. Qed.

(** The registry of listeners after [on] and [off]. *)
Lemma on_eq (event : CedarStreamEvent) (h : Handler) (c : Client) :
  on event h c
  = (Ok tt, set_eventHandlers (<[event := listeners event c ++ [h]]> (eventHandlers c)) c).
Proof.
  unfold on, bind at 1, get. cbv beta iota.
  destruct (eventHandlers c !! event) as [hs|] eqn:E.
  - rewrite bool_decide_true by eauto.
    unfold bind at 1, ret, modify. cbv beta iota.
    unfold listeners. rewrite E. cbn [default].
    replace (alter (fun hs0 => hs0 ++ [h]) event (eventHandlers c))
      with (<[event := hs ++ [h]]> (eventHandlers c)); [done|].
    apply map_eq. intros k. destruct (decide (k = event)) as [->|Hk].
    + by rewrite lookup_insert_eq, lookup_alter_eq, E.
    + by rewrite lookup_insert_ne, lookup_alter_ne by done.
  - rewrite bool_decide_false by (by intros [? ?]).
    unfold bind at 1, modify. cbv beta iota.
    unfold listeners. rewrite E. cbn [default app].
    replace (eventHandlers (set_eventHandlers (<[event:=[]]> (eventHandlers c)) c))
      with (<[event:=[]]> (eventHandlers c)) by (by destruct_client c).
    replace (alter (fun hs0 => hs0 ++ [h]) event (<[event:=[]]> (eventHandlers c)))
      with (<[event := [h]]> (eventHandlers c)); [by destruct_client c|].
    apply map_eq. intros k. destruct (decide (k = event)) as [->|Hk].
    + by rewrite lookup_insert_eq, lookup_alter_eq, lookup_insert_eq.
    + by rewrite lookup_insert_ne, lookup_alter_ne, lookup_insert_ne by done.
Qed.

Lemma off_eq (event : CedarStreamEvent) (h : Handler) (c : Client) :
  off event h c
  = (Ok tt,
     match eventHandlers c !! event with
     | Some hs => set_eventHandlers (<[event := remove_handler h hs]> (eventHandlers c)) c
     | None => c
     end).
Proof.
  unfold off, modify. f_equal.
  destruct (eventHandlers c !! event) as [hs|] eqn:E.
  - f_equal. apply map_eq. intros k. destruct (decide (k = event)) as [->|Hk].
    + by rewrite lookup_insert_eq, lookup_alter_eq, E.
    + by rewrite lookup_insert_ne, lookup_alter_ne by done.
  - replace (alter (remove_handler h) event (eventHandlers c)) with (eventHandlers c).
    + apply set_eventHandlers_same.
    + apply map_eq. intros k. destruct (decide (k = event)) as [->|Hk].
      * by rewrite lookup_alter_eq, E.
      * by rewrite lookup_alter_ne by done.
Qed.

Lemma listeners_set (m : gmap CedarStreamEvent (list Handler)) (ev : CedarStreamEvent)
    (c : Client) :
  listeners ev (set_eventHandlers m c) = default [] (m !! ev).
Proof. by destruct_client c. Qed.

End Registration.

(** X1. [unsubscribe(channel, handler)] with a function that is not
    registered on the channel, which includes a channel that has no
    subscribers, returns and changes no field of the client: at most it
    writes its line to the console, and not even that when the channel is
    unknown. *)
Theorem unsubscribe_unregistered {U} (c : Client U) (channel : string) (h : Handler U) :
  indexOf (subscribers channel c) h = None ->
  exists tr,
    unsubscribe channel (Some h) c = (Ok tt, set_trace (trace c ++ tr) c)
    /\ (tr = [] \/ tr = [ConsoleLog (log_unsubscribed channel)])
    /\ (channelHandlers c !! channel = None -> tr = []).
Proof.
  intros Hi. rewrite unsubscribe_eq. unfold subscribers in Hi.
  destruct (channelHandlers c !! channel) as [hs|] eqn:E; simpl in Hi.
  - rewrite (remove_handler_absent hs h Hi), (insert_id _ _ _ E),
      set_channelHandlers_same.
    eexists. split; [reflexivity|]. split; [|done].
    destruct (default false (debug (config c))); auto.
  - exists []. split; [|auto]. f_equal. destruct_client c. cbn. by rewrite app_nil_r.
Qed.

Lemma unsubscribe_unregistered_witness :
  let c := exec (subscribe "notifications" (quiet_handler 1)) sample_client in
  exists tr,
    unsubscribe "notifications" (Some (quiet_handler 2)) c
    = (Ok tt, set_trace (trace c ++ tr) c)
    /\ (tr = [] \/ tr = [ConsoleLog (log_unsubscribed "notifications")])
    /\ (channelHandlers c !! "notifications" = None -> tr = []).
Proof.
  apply (unsubscribe_unregistered
           (exec (subscribe "notifications" (quiet_handler 1)) sample_client)
           "notifications" (quiet_handler 2)).
  vm_compute. reflexivity.
Defined.

(** X2. [unsubscribe(channel, handler)] removes one registration, the
    first one of that function on that channel: the registrations before
    and after it, later registrations of the same function included, stay
    in their order, and the other channels are not touched. *)
Theorem unsubscribe_first_registration {U} (c : Client U) (channel : string)
    (h h' : Handler U) (before after : list (Handler U)) :
  subscribers channel c = before ++ h' :: after ->
  hid h' = hid h ->
  Forall (fun x => hid x <> hid h) before ->
  let c' := exec (unsubscribe channel (Some h)) c in
  outcome (unsubscribe channel (Some h)) c = Ok tt
  /\ subscribers channel c' = before ++ after
  /\ forall ch, ch <> channel -> subscribers ch c' = subscribers ch c.
Proof.
  intros Hs Hh Hb. cbv zeta. unfold exec, outcome. rewrite unsubscribe_eq.
  unfold subscribers in Hs.
  destruct (channelHandlers c !! channel) as [hs|] eqn:E; simpl in Hs.
  - subst hs. cbn [fst snd]. split; [done|]. split.
    + rewrite subscribers_set, lookup_insert_eq. cbn [default].
      by apply remove_handler_first.
    + intros ch Hch. by rewrite subscribers_set, lookup_insert_ne.
  - by destruct before.
Qed.

Lemma unsubscribe_first_registration_witness :
  let c := exec (subscribe_all "notifications"
                   [quiet_handler 2; quiet_handler 1; quiet_handler 3; quiet_handler 1])
                sample_client in
  let c' := exec (unsubscribe "notifications" (Some (quiet_handler 1))) c in
  outcome (unsubscribe "notifications" (Some (quiet_handler 1))) c = Ok tt
  /\ subscribers "notifications" c' = [quiet_handler 2] ++ [quiet_handler 3; quiet_handler 1]
  /\ forall ch, ch <> "notifications" -> subscribers ch c' = subscribers ch c.
Proof.
  apply (unsubscribe_first_registration
           (exec (subscribe_all "notifications"
                    [quiet_handler 2; quiet_handler 1; quiet_handler 3; quiet_handler 1])
                 sample_client)
           "notifications" (quiet_handler 1) (quiet_handler 1)
           [quiet_handler 2] [quiet_handler 3; quiet_handler 1]).
  - vm_compute. reflexivity.
  - reflexivity.
  - constructor; [cbn; lia | constructor].
Defined.

(** X3. [unsubscribe(channel)] without a function removes every
    registration of the channel and leaves the other channels as they are;
    an event of that channel dispatched afterwards calls nobody and changes
    nothing. *)
Theorem unsubscribe_channel_silences {U} (c : Client U) (channel : string)
    (event : JSValue) :
  getProp event "channel" = Ok (JStr channel) ->
  let c' := exec (unsubscribe channel None) c in
  outcome (unsubscribe channel None) c = Ok tt
  /\ subscribers channel c' = []
  /\ (forall ch, ch <> channel -> subscribers ch c' = subscribers ch c)
  /\ processCedarEvent event c' = (Ok tt, c').
Proof.
  intros Hch. cbv zeta.
  assert (H : outcome (unsubscribe channel None) c = Ok tt
              /\ subscribers channel (exec (unsubscribe channel None) c) = []
              /\ forall ch, ch <> channel ->
                   subscribers ch (exec (unsubscribe channel None) c) = subscribers ch c).
  { unfold exec, outcome. rewrite unsubscribe_eq.
    destruct (channelHandlers c !! channel) as [hs|] eqn:E; cbn [fst snd].
    - split; [done|]. split.
      + by rewrite subscribers_set, lookup_delete_eq.
      + intros ch Hne. by rewrite subscribers_set, lookup_delete_ne.
    - split; [done|]. split; [|done]. unfold subscribers. by rewrite E. }
  destruct H as (Hok & Hnone & Hother). split_and!; try done.
  unfold processCedarEvent, bind, lift, get. rewrite Hch. cbv beta iota.
  cbn [channel_handlers_of]. by rewrite Hnone.
Qed.

Lemma unsubscribe_channel_silences_witness :
  let c := exec (subscribe_all "notifications" [quiet_handler 1; throwing_handler 2])
                sample_client in
  let c' := exec (unsubscribe "notifications" None) c in
  outcome (unsubscribe "notifications" None) c = Ok tt
  /\ subscribers "notifications" c' = []
  /\ (forall ch, ch <> "notifications" -> subscribers ch c' = subscribers ch c)
  /\ processCedarEvent sample_event c' = (Ok tt, c').
Proof.
  apply (unsubscribe_channel_silences
           (exec (subscribe_all "notifications" [quiet_handler 1; throwing_handler 2])
                 sample_client)
           "notifications" sample_event).
  vm_compute. reflexivity.
Defined.

(** X4. Subscribing a function that the channel does not hold and then
    unsubscribing it gives every channel the subscribers it had before. *)
Theorem subscribe_unsubscribe_round_trip {U} (c : Client U) (channel : string)
    (h : Handler U) :
  indexOf (subscribers channel c) h = None ->
  let c' := exec (unsubscribe channel (Some h)) (exec (subscribe channel h) c) in
  forall ch, subscribers ch c' = subscribers ch c.
Proof.
  intros Hi. cbv zeta. intros ch. unfold exec at 2. rewrite subscribe_eq. cbn [snd].
  unfold exec. rewrite unsubscribe_eq.
  match goal with |- context [channelHandlers ?c1 !! channel] =>
    replace (channelHandlers c1 !! channel) with (Some (subscribers channel c ++ [h]))
      by (destruct_client c; cbn; by rewrite lookup_insert_eq)
  end.
  cbn [snd]. rewrite subscribers_set.
  rewrite (remove_handler_first (subscribers channel c) [] h h
             (proj1 (indexOf_None _ _) Hi) eq_refl).
  rewrite app_nil_r.
  destruct (decide (ch = channel)) as [->|Hne].
  - by rewrite lookup_insert_eq.
  - rewrite lookup_insert_ne by done.
    destruct_client c. cbn. by rewrite lookup_insert_ne.
Qed.

Lemma subscribe_unsubscribe_round_trip_witness :
  let c := exec (subscribe "notifications" (quiet_handler 1)) sample_client in
  let c' := exec (unsubscribe "notifications" (Some (throwing_handler 2)))
                 (exec (subscribe "notifications" (throwing_handler 2)) c) in
  indexOf (subscribers "notifications" c) (throwing_handler 2) = None
  /\ subscribers "notifications" c' = subscribers "notifications" c
  /\ subscribers "system" c' = subscribers "system" c.
Proof.
  assert (H : indexOf (subscribers "notifications"
                         (exec (subscribe "notifications" (quiet_handler 1)) sample_client))
                      (throwing_handler 2) = None)
    by (vm_compute; reflexivity).
  split; [exact H|].
  split; apply (subscribe_unsubscribe_round_trip
                  (exec (subscribe "notifications" (quiet_handler 1)) sample_client)
                  "notifications" (throwing_handler 2) H).
Defined.

(** X6. [off(event, handler)] with a function that is not registered for
    the event, which includes an event that has no listeners, returns and
    changes nothing at all. *)
Theorem off_unregistered {U} (c : Client U) (event : CedarStreamEvent) (h : Handler U) :
  indexOf (listeners event c) h = None ->
  off event h c = (Ok tt, c).
Proof.
  intros Hi. rewrite off_eq. unfold listeners in Hi.
  destruct (eventHandlers c !! event) as [hs|] eqn:E; simpl in Hi; [|done].
  by rewrite (remove_handler_absent hs h Hi), (insert_id _ _ _ E),
    set_eventHandlers_same.
Qed.

Lemma off_unregistered_witness :
  let c := exec (on ev_error (quiet_handler 1)) sample_client in
  off ev_error (quiet_handler 2) c = (Ok tt, c)
  /\ off ev_connect (quiet_handler 1) c = (Ok tt, c).
Proof.
  split.
  - apply (off_unregistered (exec (on ev_error (quiet_handler 1)) sample_client)
             ev_error (quiet_handler 2)).
    vm_compute. reflexivity.
  - apply (off_unregistered (exec (on ev_error (quiet_handler 1)) sample_client)
             ev_connect (quiet_handler 1)).
    vm_compute. reflexivity.
Defined.


(** ** The named events of the transport and the heartbeat *)

Lemma posts_app (tr1 tr2 : list Effect) : posts (tr1 ++ tr2) = posts tr1 ++ posts tr2.
Proof. apply flat_map_app. Qed.

Lemma quiet_no_posts (tr : list Effect) :
  Forall (fun e => quiet e = true) tr -> posts tr = [].
Proof.
  induction 1 as [|e tr He _ IH]; [done|].
  destruct e; try discriminate; exact IH.
Qed.

Section NamedEvents.

Context {U : Type}.
Variable env : Env.
Local Abbreviation M := (M U).
Local Abbreviation Client := (Client U).
Local Abbreviation Handler := (Handler U).

(** What [handleCedarEvent] does with a frame. *)
Lemma handleCedarEvent_spec (event : MessageEvent) (c : Client) :
  exists u t tr,
    handleCedarEvent env event c = (Ok tt, with_world u t (trace c ++ tr) c)
    /\ invocations tr =
         match JSON_parse env (data event) with
         | Ok v =>
             match getProp v "channel" with
             | Ok channel => map (fun h => (hid h, v)) (channel_handlers_of channel c)
             | Throw _ => []
             end
         | Throw _ => []
         end
    /\ Forall (fun e => quiet e = true) tr.
Proof.
  unfold handleCedarEvent, try_catch, bind at 1, lift.
  destruct (JSON_parse env (data event)) as [v|e].
  - destruct (getProp v "channel") as [channel|e] eqn:Hch.
    + destruct (processCedarEvent_spec v channel c Hch) as (u & t & tr & -> & Hi & Hq).
      by exists u, t, tr.
    + unfold processCedarEvent, bind at 1, lift. rewrite Hch.
      destruct (log_spec (log_cedar_event_error e) c) as (tr & -> & Hi & Hq).
      by exists (user c), (now c), tr.
  - destruct (log_spec (log_cedar_event_error e) c) as (tr & -> & Hi & Hq).
    by exists (user c), (now c), tr.
Qed.

(** The buffer of latencies after [handleHeartbeat]. *)
Lemma handleHeartbeat_spec (event : MessageEvent) (c : Client) :
  exists tr,
    handleHeartbeat env event c
    = (Ok tt,
       set_trace (trace c ++ tr)
         (match JSON_parse env (data event) with
          | Ok v =>
              match getProp v "timestamp" with
              | Ok timestamp =>
                  if truthy timestamp
                  then exec (recordLatency
                               (js_sub (Int (now c)) (Date_getTime env timestamp))) c
                  else c
              | Throw _ => c
              end
          | Throw _ => c
          end))
    /\ invocations tr = []
    /\ Forall (fun e => quiet e = true) tr.
Proof.
  unfold handleHeartbeat, try_catch, bind at 1, lift.
  destruct (JSON_parse env (data event)) as [v|e].
  - unfold bind at 1. rewrite log_eq. cbv beta iota.
    set (line := if default false (debug (config c)) then _ else _).
    assert (Hline : invocations line = [] /\ Forall (fun e => quiet e = true) line).
    { unfold line. destruct (default false (debug (config c))); split; try done.
      by repeat constructor. }
    destruct Hline as [Hl1 Hl2].
    unfold bind at 1, lift.
    destruct (getProp v "timestamp") as [timestamp|e] eqn:Hts.
    + destruct (truthy timestamp).
      * unfold bind at 1, Date_now, get. cbv beta iota.
        unfold exec. rewrite !recordLatency_eq. cbn [snd].
        exists line. split; [|done]. f_equal.
        destruct_client c. cbn. done.
      * exists line. done.
    + rewrite log_eq.
      match goal with |- context [_ ++ ?l2] =>
        match l2 with
        | (if _ then [ConsoleLog ?m] else []) =>
            exists (line ++ (if default false (debug (config c))
                             then [ConsoleLog m] else []))
        end
      end.
      split; [|split].
      * f_equal. destruct_client c. cbn. by rewrite app_assoc.
      * rewrite invocations_app, Hl1. by destruct (default false _).
      * apply Forall_app_2; [done|]. destruct (default false _); by repeat constructor.
  - rewrite log_eq. eexists. split; [reflexivity|].
    destruct (default false (debug (config c))); split; try done.
    by repeat constructor.
Qed.

(** A NaN in the buffer makes the sum NaN. *)
Lemma sum_with_NaN (xs : list JSNumber) (acc : JSNumber) :
  In NaN xs -> fold_left js_add xs acc = NaN.
Proof.
  revert acc. induction xs as [|x xs IH]; intros acc; [done|].
  intros [->|Hin]; cbn.
  - destruct acc; apply sum_after_NaN.
  - by apply IH.
Qed.

(** The sample just recorded is in the buffer. *)
Lemma recordLatency_last (x : JSNumber) (c : Client) :
  In x (latencyHistory (exec (recordLatency x) c))
  /\ latencyHistory (exec (recordLatency x) c) <> [].
Proof.
  unfold exec. rewrite recordLatency_eq. cbn [snd].
  destruct_client c. cbn [latencyHistory set_latencyHistory].
  destruct c_latencyHistory as [|y h]; cbn [app length]; [cbn; auto|].
  destruct (100 <? S (length (h ++ [x])))%nat; cbn [tail].
  - split; [apply in_or_app; right; by left|]. by destruct h.
  - split; [right; apply in_or_app; right; by left | done].
Qed.

End NamedEvents.

(** X9. A frame of the named event [cedar-heartbeat] never makes the
    client throw, reaches no subscriber and no listener, and leaves the
    counters and the status alone.  It records one latency sample, the
    clock minus the time its [timestamp] denotes, exactly when the frame
    parses to a value whose [timestamp] is truthy; otherwise the buffer
    stays as it is. *)
Theorem heartbeat_frame_latency {U} (env : Env) (c : Client U) (event : MessageEvent) :
  (length (latencyHistory c) <= 100)%nat ->
  let c' := exec (handleHeartbeat env event) c in
  outcome (handleHeartbeat env event) c = Ok tt
  /\ metrics c' = metrics c
  /\ status c' = status c
  /\ (exists tr, trace c' = trace c ++ tr /\ invocations tr = [])
  /\ latencyHistory c' =
       match JSON_parse env (data event) with
       | Ok v =>
           match getProp v "timestamp" with
           | Ok timestamp =>
               if truthy timestamp
               then last_n 100 (latencyHistory c
                                ++ [js_sub (Int (now c)) (Date_getTime env timestamp)])
               else latencyHistory c
           | Throw _ => latencyHistory c
           end
       | Throw _ => latencyHistory c
       end.
Proof.
  intros Hlen. cbv zeta.
  destruct (handleHeartbeat_spec env event c) as (tr & Heq & Hi & _).
  unfold outcome, exec at 1 2 3 4. rewrite Heq. cbn [fst snd]. clear Heq.
  split; [done|].
  assert (Hrec : forall x,
            metrics (exec (recordLatency x) c) = metrics c
            /\ status (exec (recordLatency x) c) = status c
            /\ trace (exec (recordLatency x) c) = trace c
            /\ latencyHistory (exec (recordLatency x) c)
               = last_n 100 (latencyHistory c ++ [x])).
  { intros x. unfold exec. rewrite recordLatency_eq. cbn [snd].
    rewrite <- (push_window (latencyHistory c) x Hlen). by destruct_client c. }
  set (c1 := match JSON_parse env (data event) with Ok _ => _ | Throw _ => _ end).
  assert (H1 : metrics c1 = metrics c /\ status c1 = status c /\ trace c1 = trace c).
  { unfold c1. destruct (JSON_parse env (data event)) as [v|]; [|done].
    destruct (getProp v "timestamp") as [ts|]; [|done].
    destruct (truthy ts); [|done]. by destruct (Hrec (js_sub (Int (now c)) (Date_getTime env ts)))
      as (? & ? & ? & _). }
  destruct H1 as (Hm & Hs & Ht).
  split; [by destruct_client c1|]. split; [by destruct_client c1|]. split.
  - exists tr. split; [|done]. by destruct_client c1.
  - transitivity (latencyHistory c1); [by destruct_client c1|].
    unfold c1. destruct (JSON_parse env (data event)) as [v|]; [|done].
    destruct (getProp v "timestamp") as [ts|]; [|done].
    destruct (truthy ts); [|done]. apply Hrec.
Qed.

Lemma heartbeat_frame_latency_witness :
  let c := exec (handleHeartbeat frames_env (mkMessageEvent "stamped"))
             (set_now 100 sample_client) in
  latencyHistory c = [Int 60]
  /\ latencyHistory (exec (handleHeartbeat frames_env (mkMessageEvent "bare")) c)
     = [Int 60]
  /\ latencyHistory (exec (handleHeartbeat frames_env (mkMessageEvent "garbled")) c)
     = [Int 60].
Proof.
  split; [|split].
  - apply (heartbeat_frame_latency frames_env (set_now 100 sample_client)
             (mkMessageEvent "stamped")).
    vm_compute. lia.
  - apply (heartbeat_frame_latency frames_env
             (exec (handleHeartbeat frames_env (mkMessageEvent "stamped"))
                (set_now 100 sample_client))
             (mkMessageEvent "bare")).
    vm_compute. lia.
  - apply (heartbeat_frame_latency frames_env
             (exec (handleHeartbeat frames_env (mkMessageEvent "stamped"))
                (set_now 100 sample_client))
             (mkMessageEvent "garbled")).
    vm_compute. lia.
Defined.

(** X10. A heartbeat whose [timestamp] is truthy but denotes no time (its
    [getTime()] is NaN) is recorded as a NaN sample, and the average
    latency that [getMetrics()] reports is NaN from then on, while the
    sample is in the buffer. *)
Theorem heartbeat_bad_stamp_poisons_average {U} (env : Env) (c : Client U)
    (event : MessageEvent) (v timestamp : JSValue) :
  JSON_parse env (data event) = Ok v ->
  getProp v "timestamp" = Ok timestamp ->
  truthy timestamp = true ->
  Date_getTime env timestamp = NaN ->
  let c' := exec (handleHeartbeat env event) c in
  In NaN (latencyHistory c')
  /\ averageLatency (getMetrics c') = AvgNaN.
Proof.
  intros Hp Hts Ht Hd. cbv zeta.
  destruct (handleHeartbeat_spec env event c) as (tr & Heq & _ & _).
  unfold exec at 1 2. rewrite Heq. cbn [snd]. clear Heq.
  rewrite Hp, Hts, Ht, Hd.
  replace (js_sub (Int (now c)) NaN) with NaN by reflexivity.
  destruct (recordLatency_last NaN c) as [Hin Hne].
  set (c1 := exec (recordLatency NaN) c) in *.
  assert (Hh : latencyHistory (set_trace (trace c ++ tr) c1) = latencyHistory c1)
    by (by destruct_client c1).
  split; [by rewrite Hh|].
  unfold getMetrics. cbn [averageLatency]. unfold calculateAverageLatency.
  rewrite Hh.
  destruct (latencyHistory c1) as [|x h] eqn:E; [done|].
  cbn [length Nat.eqb]. by rewrite (sum_with_NaN _ _ Hin).
Qed.

Lemma heartbeat_bad_stamp_poisons_average_witness :
  let c' := exec (handleHeartbeat frames_env (mkMessageEvent "late"))
              (exec (handleHeartbeat frames_env (mkMessageEvent "stamped"))
                 (set_now 100 sample_client)) in
  In NaN (latencyHistory c')
  /\ averageLatency (getMetrics c') = AvgNaN.
Proof.
  apply (heartbeat_bad_stamp_poisons_average frames_env
           (exec (handleHeartbeat frames_env (mkMessageEvent "stamped"))
              (set_now 100 sample_client))
           (mkMessageEvent "late")
           (JObj {[ "timestamp" := JStr "soon" ]}) (JStr "soon"));
    vm_compute; reflexivity.
Defined.

(** X11. The heartbeat tick never throws and never touches the client,
    whether its request succeeds, is answered with an error status or is
    rejected: it posts one request to [<endpoint>/cedar/send] on the
    channel [system], carrying the type [heartbeat], the time and the
    client id, and apart from that and a line on the console every field is
    as before, so a failed heartbeat counts no error, changes no status and
    schedules no reconnect. *)
Theorem heartbeat_send_contained {U} (env : Env) (c : Client U) (client_id : string)
    (response : FetchOutcome) :
  exists tr,
    sendHeartbeat env client_id response c = (Ok tt, set_trace (trace c ++ tr) c)
    /\ posts tr = [(endpoint (config c) +:+ "/cedar/send", "system",
                    JObj {[ "type" := JStr "heartbeat";
                            "timestamp" := JStr (toISOString env (now c));
                            "client_id" := JStr client_id ]})]
    /\ timeouts_set tr = []
    /\ invocations tr = [].
Proof.
  set (post := FetchPost (endpoint (config c) +:+ "/cedar/send") "system"
                 (JObj {[ "type" := JStr "heartbeat";
                          "timestamp" := JStr (toISOString env (now c));
                          "client_id" := JStr client_id ]})).
  assert (Hfail : forall e,
            let line := if default false (debug (config c))
                        then [ConsoleLog (log_heartbeat_send_failed e)] else [] in
            posts (post :: line) = posts [post]
            /\ timeouts_set (post :: line) = []
            /\ invocations (post :: line) = []).
  { intros e. cbv zeta. by destruct (default false (debug (config c))). }
  unfold sendHeartbeat, send, Date_toISOString, Date_now, emit_effect.
  unfold try_catch, bind, get, ret, modify, throw.
  destruct response as [|statusText|e]; cbv beta iota.
  - exists [post]. split; [|done]. by destruct_client c.
  - rewrite log_eq.
    match goal with |- context [ConsoleLog (log_heartbeat_send_failed ?e)] =>
      exists (post :: if default false (debug (config c))
                      then [ConsoleLog (log_heartbeat_send_failed e)] else []);
      split; [|exact (Hfail e)]
    end.
    f_equal. destruct_client c. cbn. by rewrite <- app_assoc.
  - rewrite log_eq.
    exists (post :: if default false (debug (config c))
                    then [ConsoleLog (log_heartbeat_send_failed e)] else []).
    split; [|exact (Hfail e)].
    f_equal. destruct_client c. cbn. by rewrite <- app_assoc.
Qed.

(** ** Releasing the connection *)

Lemma transports_closed_app (tr1 tr2 : list Effect) :
  transports_closed (tr1 ++ tr2) = transports_closed tr1 ++ transports_closed tr2.
Proof. apply flat_map_app. Qed.

Lemma timeouts_cleared_app (tr1 tr2 : list Effect) :
  timeouts_cleared (tr1 ++ tr2) = timeouts_cleared tr1 ++ timeouts_cleared tr2.
Proof. apply flat_map_app. Qed.

Lemma quiet_no_release (tr : list Effect) :
  Forall (fun e => quiet e = true) tr ->
  transports_closed tr = [] /\ timeouts_cleared tr = [].
Proof.
  induction 1 as [|e tr He _ IH]; [done|].
  destruct e; try discriminate; exact IH.
Qed.

(** What a trace made of the pieces that [log], [emit] and [setStatus]
    left and of explicit entries has armed, opened, cancelled and closed. *)
Ltac trace_reads :=
  rewrite ?timeouts_set_app, ?transports_created_app, ?transports_closed_app,
    ?timeouts_cleared_app, ?intervals_cleared_app, ?intervals_set_app;
  repeat match goal with
         | H : Forall (fun e => quiet e = true) ?tr |- _ =>
             let H1 := fresh in let H2 := fresh in
             pose proof (quiet_no_timeouts tr H) as H1;
             pose proof (quiet_no_transports tr H) as H2;
             destruct (quiet_no_intervals tr H) as [? ?];
             destruct (quiet_no_release tr H) as [? ?];
             clear H
         end;
  repeat match goal with
         | H : _ ?tr = [] |- _ => rewrite H
         end;
  cbn [timeouts_set transports_created transports_closed timeouts_cleared
       intervals_cleared intervals_set flat_map app option_list].

(** Observations of the trace by [flat_map]: an assignment or an entry that
    the observation does not read. *)
Ltac side_reads :=
  intros;
  match goal with c : Client _ |- _ => destruct_client c end;
  unfold timeouts_set, transports_created, transports_closed, timeouts_cleared,
    timeout_delays, interval_periods, console_lines, posts, transport_urls,
    intervals_set, intervals_cleared, invocations in *;
  cbn; rewrite ?flat_map_app, ?fold_left_app; cbn; rewrite ?app_nil_r;
  reflexivity.

Ltac blind_reads :=
  split; [|split]; intros;
  try match goal with e : Effect |- _ => destruct e; try discriminate end;
  side_reads.

Ltac keeps_read_step :=
  lazymatch goal with
  | |- keeps _ (bind _ _) => apply keeps_bind; [| intros ?]
  | |- keeps _ (ret _) => apply keeps_ret
  | |- keeps _ (throw _) => apply keeps_throw
  | |- keeps _ (lift _) => apply keeps_lift
  | |- keeps _ (get _) => apply keeps_get
  | |- keeps _ (try_catch _ _) => apply keeps_try_catch; [| intros ?]
  | |- keeps _ (forEach _ _) => apply keeps_forEach; intros ?
  | |- keeps _ (log _) => apply keeps_log; blind_reads
  | |- keeps _ (call _ _) => apply keeps_call; blind_reads
  | |- keeps _ (modify _) => apply keeps_modify; side_reads
  | |- keeps _ (emit_effect _) => apply keeps_modify; side_reads
  | |- keeps _ (if ?b then _ else _) => destruct b
  | |- keeps _ (match ?x with _ => _ end) => destruct x
  end.

(** Proves that a method keeps an observation that may read the trace. *)
Ltac keeps_reads :=
  unfold onReconnectTimer, sendHeartbeat, onerror, onopen, handleMessage,
    handleCedarEvent, handleHeartbeat, connect, disconnect, subscribe,
    unsubscribe, on, off, send, handleError, scheduleReconnect, startHeartbeat,
    processLegacyEvent, processCedarEvent, setStatus, emit, recordLatency,
    EventSource_new, setTimeout, setInterval, Date_toISOString, Date_now;
  repeat keeps_read_step.

Section Release.

Context {U : Type}.
Variable env : Env.
Local Abbreviation M := (M U).
Local Abbreviation Client := (Client U).
Local Abbreviation Handler := (Handler U).

(** [disconnect()], field by field. *)
Lemma disconnect_spec (c : Client) :
  exists u t tr,
    disconnect c
    = (Ok tt,
       with_world u t (trace c ++ tr)
         (set_status disconnected
            (set_eventSource None
               (set_heartbeatTimer None (set_reconnectTimer None c)))))
    /\ timeouts_cleared tr = option_list (reconnectTimer c)
    /\ intervals_cleared tr = option_list (heartbeatTimer c)
    /\ transports_closed tr = option_list (eventSource c)
    /\ timeouts_set tr = [] /\ transports_created tr = [] /\ intervals_set tr = [].
Proof.
  unfold disconnect. destruct_client c. crunch. on_log.
  destruct c_reconnectTimer, c_heartbeatTimer, c_eventSource; crunch;
    on_setStatus; on_emit;
    eexists _, _, _; (split; [rewrite <- ?app_assoc; reflexivity|]);
    trace_reads; done.
Qed.



End Release.

(** X12. [disconnect()] releases everything the client holds: a pending
    reconnect timer is cancelled, the heartbeat interval is cleared and the
    transport is closed, once each and only when there is one, and the
    three fields are left empty; it arms and opens nothing.  It does not
    reset anything else: the reconnect attempts, the metrics, the latency
    buffer and the registered subscribers and listeners stay as they
    are. *)
Theorem disconnect_releases {U} (c : Client U) :
  let c' := exec disconnect c in
  reconnectTimer c' = None /\ heartbeatTimer c' = None /\ eventSource c' = None
  /\ (exists tr,
        trace c' = trace c ++ tr
        /\ timeouts_cleared tr = option_list (reconnectTimer c)
        /\ intervals_cleared tr = option_list (heartbeatTimer c)
        /\ transports_closed tr = option_list (eventSource c)
        /\ timeouts_set tr = [] /\ transports_created tr = [] /\ intervals_set tr = [])
  /\ reconnectAttempts c' = reconnectAttempts c
  /\ metrics c' = metrics c
  /\ latencyHistory c' = latencyHistory c
  /\ channelHandlers c' = channelHandlers c
  /\ eventHandlers c' = eventHandlers c.
Proof.
  cbv zeta. destruct (disconnect_spec c) as (u & t & tr & Heq & H).
  unfold exec. rewrite Heq. cbn [snd].
  split_and!; try (by destruct_client c).
  exists tr. split; [by destruct_client c | exact H].
Qed.


(** ** Opening, failing and connecting again *)

Lemma transport_urls_app (tr1 tr2 : list Effect) :
  transport_urls (tr1 ++ tr2) = transport_urls tr1 ++ transport_urls tr2.
Proof. apply flat_map_app. Qed.

Lemma quiet_no_urls (tr : list Effect) :
  Forall (fun e => quiet e = true) tr -> transport_urls tr = [].
Proof.
  induction 1 as [|e tr He _ IH]; [done|].
  destruct e; try discriminate; exact IH.
Qed.

Section Reopening.

Context {U : Type}.
Variable env : Env.
Local Abbreviation M := (M U).
Local Abbreviation Client := (Client U).
Local Abbreviation Handler := (Handler U).

(** [connect()] when the transport can be constructed, with what it
    leaves in the trace. *)
Lemma connect_opens_trace (c : Client) (url : URL) :
  status c <> connected -> status c <> connecting ->
  new_URL env "/cedar/stream" (endpoint (config c)) = Ok url ->
  new_EventSource env (stream_url (channels (config c)) url) = None ->
  exists u t tr,
    connect env c
    = (Ok tt,
       with_world u t (trace c ++ tr)
         (set_eventSource (Some (nextHandle c))
            (set_nextHandle (S (nextHandle c))
               (set_connectionStartTime t (set_status connecting c)))))
    /\ transports_created tr = [nextHandle c]
    /\ transport_urls tr = [stream_url (channels (config c)) url]
    /\ transports_closed tr = []
    /\ timeouts_set tr = [] /\ timeouts_cleared tr = [].
Proof.
  unfold connect. destruct_client c. crunch. intros H1 H2 Hurl Hes.
  rewrite decide_False by (intros [?|?]; done).
  on_setStatus. unfold EventSource_new. rewrite Hurl. crunch. rewrite Hes. crunch.
  eexists _, _, _. split; [rewrite <- ?app_assoc; reflexivity|].
  pose proof (quiet_no_urls _ Hq) as Hu.
  rewrite transport_urls_app, Hu. trace_reads. done.
Qed.

(** The transport reporting open. *)
Lemma onopen_spec (c : Client) :
  exists u t tr,
    onopen c
    = (Ok tt,
       with_world u t (trace c ++ tr)
         (match heartbeatTimer c with
          | Some _ => set_reconnectAttempts 0 (set_status connected c)
          | None =>
              set_heartbeatTimer (Some (nextHandle c))
                (set_nextHandle (S (nextHandle c))
                   (set_reconnectAttempts 0 (set_status connected c)))
          end))
    /\ invocations tr =
         (if decide (status c = connected) then []
          else map (fun h => (hid h, JObj {[ "from" := JStr (status_name (status c));
                                             "to" := JStr "connected" ]}))
                   (listeners ev_status_change c))
         ++ map (fun h => (hid h, JUndefined)) (listeners ev_connect c)
    /\ intervals_set tr = match heartbeatTimer c with
                          | Some _ => []
                          | None => [nextHandle c]
                          end
    /\ interval_periods tr = match heartbeatTimer c with
                             | Some _ => []
                             | None => [opt_or (heartbeatInterval (config c)) 30000]
                             end
    /\ timeouts_set tr = [] /\ timeouts_cleared tr = []
    /\ transports_created tr = [] /\ transports_closed tr = [].
Proof.
  unfold onopen, startHeartbeat. destruct_client c. crunch. on_log. on_setStatus.
  destruct c_heartbeatTimer; crunch; on_emit;
    eexists _, _, _; (split; [rewrite <- ?app_assoc; reflexivity|]);
    (split; [rewrite !invocations_app; cbn [invocations flat_map app];
             rewrite ?invocations_app, Hi, Hi0, Hi1; reflexivity|]);
    unfold interval_periods; rewrite ?flat_map_app;
    assert (Hp : forall tr', Forall (fun e => quiet e = true) tr' ->
                   flat_map (fun e => match e with
                                      | IntervalSet _ interval => [interval]
                                      | _ => []
                                      end) tr' = [])
      by (induction 1 as [|e ? He _ IH]; [done|];
          destruct e; try discriminate; exact IH);
    rewrite ?(Hp _ Hq), ?(Hp _ Hq0), ?(Hp _ Hq1);
    trace_reads; done.
Qed.

End Reopening.

(** X15. A reconnect timer that fires while the client is [connected] or
    [connecting] only clears itself: every other field is as before, the
    status does not change and no transport is opened. *)
Theorem stale_reconnect_timer {U} (env : Env) (c : Client U) (timer : nat) :
  reconnectTimer c = Some timer ->
  status c = connected \/ status c = connecting ->
  react env ReconnectTimerFires c = set_reconnectTimer None c.
Proof.
  intros Ht Hst. cbn [react]. rewrite Ht.
  unfold onReconnectTimer, connect. unfold exec, bind, modify, try_catch, get.
  cbv beta iota. rewrite decide_True; [done|]. by destruct_client c.
Qed.

Lemma stale_reconnect_timer_witness :
  let c := run sample_env [CallConnect; TransportError (JObj ∅); TransportOpen]
             sample_client in
  status c = connected
  /\ reconnectTimer c = Some 1%nat
  /\ react sample_env ReconnectTimerFires c = set_reconnectTimer None c.
Proof.
  split; [vm_compute; reflexivity|]. split; [vm_compute; reflexivity|].
  apply (stale_reconnect_timer sample_env
           (run sample_env [CallConnect; TransportError (JObj ∅); TransportOpen]
              sample_client) 1%nat).
  - vm_compute. reflexivity.
  - left. vm_compute. reflexivity.
Defined.



(** [searchParams.set(key, value)] leaves one pair with that key, holding
    the value, and the pairs of the other keys as they were. *)
Lemma searchParams_set_list_spec (key value : string) (l : list (string * string)) :
  List.filter (fun kv => String.eqb (fst kv) key) (searchParams_set_list key value l)
  = [(key, value)]
  /\ List.filter (fun kv => negb (String.eqb (fst kv) key))
                 (searchParams_set_list key value l)
     = List.filter (fun kv => negb (String.eqb (fst kv) key)) l.
Proof.
  assert (Hnone : forall l' : list (string * string),
            List.filter (fun kv => String.eqb (fst kv) key)
              (List.filter (fun kv => negb (String.eqb (fst kv) key)) l') = []).
  { induction l' as [|kv l' IH]; [done|]. cbn.
    destruct (String.eqb (fst kv) key) eqn:E; cbn; [done|]. by rewrite E. }
  assert (Hidem : forall l' : list (string * string),
            List.filter (fun kv => negb (String.eqb (fst kv) key))
              (List.filter (fun kv => negb (String.eqb (fst kv) key)) l')
            = List.filter (fun kv => negb (String.eqb (fst kv) key)) l').
  { induction l' as [|kv l' IH]; [done|]. cbn.
    destruct (String.eqb (fst kv) key) eqn:E; cbn; [done|]. by rewrite E, IH. }
  induction l as [|kv l [IH1 IH2]]; cbn.
  - by rewrite String.eqb_refl.
  - destruct (String.eqb (fst kv) key) eqn:E; cbn.
    + by rewrite String.eqb_refl, Hnone, Hidem.
    + by rewrite E, IH1, IH2.
Qed.

(** X17. Neither [disconnect()] nor [connect()] gives back reconnect
    attempts: only the transport reporting open resets the count.  So once
    the limit is reached, disconnecting and connecting again by hand does
    not bring back automatic reconnection: when that connection fails to
    open, the client goes to [error] at once and arms no timer. *)
Theorem giving_up_is_sticky {U} (env : Env) (c : Client U)
    (fields : gmap string JSValue) (url : URL) :
  reconnect_limit c <= reconnectAttempts c ->
  new_URL env "/cedar/stream" (endpoint (config c)) = Ok url ->
  new_EventSource env (stream_url (channels (config c)) url) = None ->
  let s := run env [CallDisconnect; CallConnect; TransportError (JObj fields)] c in
  status s = error
  /\ reconnectTimer s = None
  /\ reconnectAttempts s = reconnectAttempts c
  /\ timeouts_set (trace s) = timeouts_set (trace c).
Proof.
  intros Hlim Hurl Hes. cbv zeta.
  change (run env [CallDisconnect; CallConnect; TransportError (JObj fields)] c)
    with (react env (TransportError (JObj fields))
            (react env CallConnect (exec disconnect c))).
  destruct (disconnect_spec c) as (u & t & tr0 & Heq & _ & _ & _ & Hts0 & _).
  set (c1 := exec disconnect c).
  assert (H1 : status c1 = disconnected /\ reconnectTimer c1 = None
               /\ reconnectAttempts c1 = reconnectAttempts c
               /\ config c1 = config c /\ trace c1 = trace c ++ tr0)
    by (unfold c1, exec; rewrite Heq; by destruct_client c).
  destruct H1 as (Hst1 & Hrt1 & Hra1 & Hcfg1 & Htr1).
  destruct (connect_opens env c1 url) as
    (c2 & tr2 & Hc2 & Hst2 & _ & Hra2 & Hrt2 & Hcfg2 & Htr2 & Hts2 & _);
    try (rewrite ?Hst1, ?Hcfg1; done).
  replace (react env CallConnect c1) with c2
    by (cbn [react]; unfold exec; by rewrite Hc2).
  pose proof (transport_error_spec env fields c2) as H. cbv zeta in H.
  destruct H as (tr3 & _ & Htr3 & H).
  unfold reconnect_limit in *. rewrite Hcfg2, Hcfg1, Hra2, Hra1 in H.
  rewrite (proj2 (Z.ltb_ge _ _)) in H by lia.
  destruct H as (Hst & Hra & Hrt & Hts).
  split_and!; try congruence.
  rewrite Htr3, Htr2, Htr1, !timeouts_set_app, Hts, Hts2, Hts0. by rewrite !app_nil_r.
Qed.

Lemma giving_up_is_sticky_witness :
  let c := run sample_env (open_failures (JObj ∅) 3) sample_client in
  let s := run sample_env [CallDisconnect; CallConnect; TransportError (JObj ∅)] c in
  status c = error /\ reconnectAttempts c = 2
  /\ status s = error
  /\ reconnectTimer s = None
  /\ reconnectAttempts s = reconnectAttempts c
  /\ timeouts_set (trace s) = timeouts_set (trace c).
Proof.
  split; [vm_compute; reflexivity|]. split; [vm_compute; reflexivity|].
  apply (giving_up_is_sticky sample_env
           (run sample_env (open_failures (JObj ∅) 3) sample_client) ∅
           (mkURL "http://localhost:8000/cedar/stream" [])).
  - vm_compute. discriminate.
  - vm_compute. reflexivity.
  - vm_compute. reflexivity.
Defined.

(** X18. A reconnect abandons the transport that failed without closing
    it: when the reconnect timer fires, a new transport is constructed and
    takes the place of the one the client held, and a [disconnect()]
    afterwards closes the new one only. *)
Theorem reconnect_abandons_transport {U} (env : Env) (c : Client U) (url : URL)
    (timer old : nat) :
  eventSource c = Some old ->
  old <> nextHandle c ->
  reconnectTimer c = Some timer ->
  status c <> connected -> status c <> connecting ->
  new_URL env "/cedar/stream" (endpoint (config c)) = Ok url ->
  new_EventSource env (stream_url (channels (config c)) url) = None ->
  let c1 := react env ReconnectTimerFires c in
  let s := react env CallDisconnect c1 in
  eventSource c1 = Some (nextHandle c)
  /\ exists tr,
       trace s = trace c ++ tr
       /\ transports_created tr = [nextHandle c]
       /\ transports_closed tr = [nextHandle c]
       /\ ~ In old (transports_closed tr).
Proof.
  intros Hes Hold Ht H1 H2 Hurl Hnew. cbv zeta.
  assert (Hr : exists tr1,
            eventSource (react env ReconnectTimerFires c) = Some (nextHandle c)
            /\ trace (react env ReconnectTimerFires c) = trace c ++ tr1
            /\ transports_created tr1 = [nextHandle c]
            /\ transports_closed tr1 = []).
  { cbn [react]. rewrite Ht.
    unfold onReconnectTimer, exec, bind, modify, try_catch. cbv beta iota.
    destruct (connect_opens_trace env (set_reconnectTimer None c) url)
      as (u & t & tr1 & -> & Hc1 & _ & Hx1 & _); try (by destruct_client c).
    cbn [snd]. exists tr1. split_and!; try done; by destruct_client c. }
  destruct Hr as (tr1 & E1 & E2 & Hc1 & Hx1).
  set (c1 := react env ReconnectTimerFires c) in *.
  split; [exact E1|].
  destruct (disconnect_spec c1) as (u2 & t2 & tr2 & Heq & _ & _ & Hx2 & _ & Hc2 & _).
  cbn [react]. unfold exec. rewrite Heq. cbn [snd]. rewrite trace_with_world.
  exists (tr1 ++ tr2). rewrite E2, app_assoc. split; [done|].
  rewrite transports_created_app, transports_closed_app, Hc1, Hc2, Hx1, Hx2, E1.
  cbn. split_and!; try done. intros [E|[]]. by apply Hold.
Qed.

Lemma reconnect_abandons_transport_witness :
  let c := run sample_env [CallConnect; TransportError (JObj ∅)] sample_client in
  let c1 := react sample_env ReconnectTimerFires c in
  let s := react sample_env CallDisconnect c1 in
  eventSource c = Some 0%nat
  /\ eventSource c1 = Some (nextHandle c)
  /\ exists tr,
       trace s = trace c ++ tr
       /\ transports_created tr = [nextHandle c]
       /\ transports_closed tr = [nextHandle c]
       /\ ~ In 0%nat (transports_closed tr).
Proof.
  split; [vm_compute; reflexivity|].
  apply (reconnect_abandons_transport sample_env
           (run sample_env [CallConnect; TransportError (JObj ∅)] sample_client)
           (mkURL "http://localhost:8000/cedar/stream" []) 1%nat 0%nat).
  - vm_compute. reflexivity.
  - vm_compute. discriminate.
  - vm_compute. reflexivity.
  - vm_compute. discriminate.
  - vm_compute. discriminate.
  - vm_compute. reflexivity.
  - vm_compute. reflexivity.
Defined.

(** X19. [connect()], when it can construct the transport, constructs
    exactly one, for the URL that [new URL('/cedar/stream', endpoint)]
    gives with one change: when the configuration names channels, the query
    holds exactly one [channels] parameter, the names joined by commas, and
    the parameters of other names are kept; with no channel the URL is
    used as it is. *)
Theorem connect_stream_url {U} (env : Env) (c : Client U) (url : URL) :
  status c <> connected -> status c <> connecting ->
  new_URL env "/cedar/stream" (endpoint (config c)) = Ok url ->
  new_EventSource env (stream_url (channels (config c)) url) = None ->
  let requested := stream_url (channels (config c)) url in
  (exists tr,
     trace (exec (connect env) c) = trace c ++ tr
     /\ transport_urls tr = [requested])
  /\ href requested = href url
  /\ (channels (config c) = [] -> requested = url)
  /\ (channels (config c) <> [] ->
      List.filter (fun kv => String.eqb (fst kv) "channels") (searchParams requested)
      = [("channels", String.concat "," (channels (config c)))]
      /\ List.filter (fun kv => negb (String.eqb (fst kv) "channels"))
                     (searchParams requested)
         = List.filter (fun kv => negb (String.eqb (fst kv) "channels"))
                       (searchParams url)).
Proof.
  intros H1 H2 Hurl Hes. cbv zeta.
  destruct (connect_opens_trace env c url H1 H2 Hurl Hes)
    as (u & t & tr & Heq & _ & Hu & _).
  split; [|split; [|split]].
  - exists tr. unfold exec. rewrite Heq. cbn [snd]. by rewrite trace_with_world.
  - unfold stream_url. by destruct (0 <? length _)%nat.
  - intros ->. reflexivity.
  - intros Hne. unfold stream_url.
    destruct (channels (config c)) as [|ch chans]; [done|].
    cbn [length Nat.ltb Nat.leb searchParams_set searchParams].
    apply searchParams_set_list_spec.
Qed.

Lemma connect_stream_url_witness :
  let requested := stream_url (channels (config sample_client))
                     (mkURL "http://localhost:8000/cedar/stream" []) in
  (exists tr,
     trace (exec (connect sample_env) sample_client) = trace sample_client ++ tr
     /\ transport_urls tr = [requested])
  /\ searchParams requested = [("channels", "transactions,notifications,system")].
Proof.
  split; [|reflexivity].
  refine (proj1 (connect_stream_url sample_env sample_client
                   (mkURL "http://localhost:8000/cedar/stream" []) _ _ _ _)).
  - vm_compute. discriminate.
  - vm_compute. discriminate.
  - vm_compute. reflexivity.
  - vm_compute. reflexivity.
Defined.

(** ** What holds in every state *)

Section Invariants.

Context {U : Type}.
Local Abbreviation M := (M U).
Local Abbreviation Client := (Client U).
Local Abbreviation Handler := (Handler U).

Lemma preserves_unchanged {A} (P : Client -> Prop) (m : M A) :
  (forall c, exec m c = c) -> preserves P m.
Proof. intros H c Hc. by rewrite H. Qed.

Lemma preserves_modify (P : Client -> Prop) (g : Client -> Client) :
  (forall c, P c -> P (g c)) -> preserves P (modify g).
Proof. intros H c Hc. by apply H. Qed.

Lemma preserves_forEach {A} (P : Client -> Prop) (xs : list A) (g : A -> M unit) :
  (forall x, preserves P (g x)) -> preserves P (forEach xs g).
Proof.
  intros Hg. induction xs as [|x xs IH]; cbn [forEach].
  - by intros c Hc.
  - by apply preserves_bind.
Qed.

(** A value read from the state, with what the property says about it. *)
Lemma preserves_read {A B} (P : Client -> Prop) (R : A -> Prop) (f : Client -> A)
    (k : A -> M B) :
  (forall c, P c -> R (f c)) ->
  (forall v, R v -> preserves P (k v)) ->
  preserves P (bind (get f) k).
Proof. intros HR Hk c Hc. exact (Hk (f c) (HR c Hc) c Hc). Qed.

(** A call moves the callers' world and records itself. *)
Lemma keeps_call_invoked {B} (f : Client -> B) (h : Handler) (arg : JSValue) :
  (forall c u, f (set_user u c) = f c) ->
  (forall c t, f (set_now t c) = f c) ->
  (forall c x a, f (set_trace (trace c ++ [Invoked x a]) c) = f c) ->
  keeps f (call h arg).
Proof.
  intros Hu Hn Ht c. unfold exec. rewrite call_eq. cbn [snd]. unfold with_world.
  set (c1 := set_now _ _).
  replace (trace c) with (trace c1) by by destruct_client c.
  rewrite Ht. unfold c1. by rewrite Hn, Hu.
Qed.

Lemma run_invariant (env : Env) (P : Client -> Prop) :
  (forall i c, P c -> P (react env i c)) ->
  forall inputs c, P c -> P (run env inputs c).
Proof.
  intros Hstep inputs. induction inputs as [|i inputs IH]; intros c Hc; [done|].
  change (run env (i :: inputs) c) with (run env inputs (react env i c)).
  by apply IH, Hstep.
Qed.

End Invariants.

(** The structure of a method, for a property of the state. *)
Ltac preserves_structure :=
  lazymatch goal with
  | |- preserves _ (bind _ _) => apply preserves_bind; [| intros ?]
  | |- preserves _ (try_catch _ _) => apply preserves_try_catch; [| intros ?]
  | |- preserves _ (forEach _ _) => apply preserves_forEach; intros ?
  | |- preserves _ (ret _) => apply preserves_unchanged; reflexivity
  | |- preserves _ (throw _) => apply preserves_unchanged; reflexivity
  | |- preserves _ (lift _) => apply preserves_unchanged; reflexivity
  | |- preserves _ (get _) => apply preserves_unchanged; reflexivity
  | |- preserves _ (if ?b then _ else _) => destruct b
  | |- preserves _ (match ?x with _ => _ end) => destruct x
  end.

Section Tallies.

Context {U : Type}.
Variable env : Env.
Local Abbreviation Client := (Client U).

(** No input makes a counter of the metrics go down. *)
Lemma react_tallies (i : Input) (c : Client) (r p e : Z) :
  r <= messagesReceived (metrics c) /\ p <= messagesProcessed (metrics c)
  /\ e <= errorsCount (metrics c) ->
  r <= messagesReceived (metrics (react env i c))
  /\ p <= messagesProcessed (metrics (react env i c))
  /\ e <= errorsCount (metrics (react env i c)).
Proof.
  set (Q := fun m : CedarStreamMetrics =>
              r <= messagesReceived m /\ p <= messagesProcessed m /\ e <= errorsCount m).
  change (Q (metrics c) -> Q (metrics (react env i c))).
  assert (Hkeep : forall A (m : M U A), keeps metrics m ->
            preserves (fun c : Client => Q (metrics c)) m)
    by (intros A m; apply (preserves_of_keeps metrics Q)).
  assert (Hcount : forall g : CedarStreamMetrics -> CedarStreamMetrics,
            (forall m, Q m -> Q (g m)) ->
            preserves (fun c : Client => Q (metrics c))
                      (modify (fun c => set_metrics (g (metrics c)) c))).
  { intros g Hg. apply preserves_modify. intros c0 H0.
    destruct_client c0. cbn in *. by apply Hg. }
  assert (Hup : (forall m, Q m -> Q (incr_errorsCount m))
                /\ (forall m, Q m -> Q (incr_messagesReceived m))
                /\ (forall m, Q m -> Q (incr_messagesProcessed m))
                /\ (forall t m, Q m -> Q (set_lastMessageTime t m))).
  { unfold Q. split_and!; intros; destruct m; cbn in *; lia. }
  destruct Hup as (Hup1 & Hup2 & Hup3 & Hup4).
  revert c.
  destruct i; cbn [react]; intros c;
    try match goal with |- context [if ?t is Some _ then _ else _] =>
          destruct t; [|by intros] end;
    try match goal with |- _ -> Q (metrics (exec ?m ?c)) =>
          revert c; change (preserves (fun c : Client => Q (metrics c)) m)
        end.
  all: try (apply Hkeep; solve [keeps_tac]).
  all: try (unfold onReconnectTimer, onerror, connect, handleMessage, handleError;
            repeat first [ apply Hkeep; solve [keeps_tac]
                         | apply Hcount; solve [auto]
                         | preserves_structure ]).
  by destruct_client c.
Qed.

End Tallies.

(** X20. The three counters of the metrics never go down, whatever
    happens to the client: calls of its interface, events of the transport,
    timers, failures to connect.  In particular a reconnect or a
    [disconnect()] resets none of them. *)
Theorem counters_never_decrease {U} (env : Env) (c : Client U) (inputs : list Input) :
  let s := run env inputs c in
  messagesReceived (metrics c) <= messagesReceived (metrics s)
  /\ messagesProcessed (metrics c) <= messagesProcessed (metrics s)
  /\ errorsCount (metrics c) <= errorsCount (metrics s).
Proof.
  cbv zeta.
  apply (run_invariant env
           (fun s => messagesReceived (metrics c) <= messagesReceived (metrics s)
                     /\ messagesProcessed (metrics c) <= messagesProcessed (metrics s)
                     /\ errorsCount (metrics c) <= errorsCount (metrics s))).
  - intros i c0. apply react_tallies.
  - lia.
Qed.

Section Console.

Context {U : Type}.
Variable env : Env.
Local Abbreviation Client := (Client U).

(** With [debug] off no input writes to the console. *)
Lemma react_silent (i : Input) (c : Client) (lines : list LogMsg) :
  default false (debug (config c)) = false /\ console_lines (trace c) = lines ->
  default false (debug (config (react env i c))) = false
  /\ console_lines (trace (react env i c)) = lines.
Proof.
  set (view := fun c : Client => (debug (config c), console_lines (trace c))).
  set (Q := fun v : option bool * list LogMsg => default false v.1 = false /\ v.2 = lines).
  change (Q (view c) -> Q (view (react env i c))).
  assert (Hlog : forall m, preserves (fun c : Client => Q (view c)) (log m)).
  { intros m c0 [H1 H2]. unfold exec. rewrite log_eq. cbn [snd].
    unfold Q, view in *. cbn [fst snd] in *. rewrite H1.
    destruct_client c0. cbn in *. by rewrite app_nil_r. }
  assert (Hcall : forall h arg, preserves (fun c : Client => Q (view c)) (call h arg)).
  { intros h arg. apply (preserves_of_keeps view Q).
    apply keeps_call_invoked; unfold view; side_reads. }
  assert (Hmod : forall g : Client -> Client, (forall c, view (g c) = view c) ->
            preserves (fun c : Client => Q (view c)) (modify g)).
  { intros g Hg. apply (preserves_of_keeps view Q). by apply keeps_modify. }
  revert c.
  destruct i; cbn [react]; intros c;
    try match goal with |- context [if ?t is Some _ then _ else _] =>
          destruct t; [|by intros] end;
    try match goal with |- _ -> Q (view (exec ?m ?c)) =>
          revert c; change (preserves (fun c : Client => Q (view c)) m)
        end.
  all: try (unfold onReconnectTimer, sendHeartbeat, onerror, onopen, handleMessage,
              handleCedarEvent, handleHeartbeat, connect, disconnect, subscribe,
              unsubscribe, on, off, send, handleError, scheduleReconnect,
              startHeartbeat, processLegacyEvent, processCedarEvent, setStatus, emit,
              recordLatency, EventSource_new, setTimeout, setInterval,
              Date_toISOString, Date_now;
            repeat first [ apply Hlog | apply Hcall
                         | preserves_structure
                         | apply Hmod; unfold view; side_reads ]).
  unfold view. by destruct_client c.
Qed.

End Console.

(** X21. Unless the configuration sets [debug], the client never writes to
    the console: whatever happens to it, its trace holds the console lines
    it held, which are none for a client just constructed. *)
Theorem silent_without_debug {U} (env : Env) (cfg : CedarStreamConfig) (t0 : Z)
    (u0 : U) (inputs : list Input) :
  debug cfg <> Some true ->
  console_lines (trace (run env inputs (createCedarStream cfg t0 u0))) = [].
Proof.
  intros Hd.
  apply (run_invariant env
           (fun s => default false (debug (config s)) = false
                     /\ console_lines (trace s) = [])).
  - intros i c. apply react_silent.
  - split; [|done]. cbn. by destruct (debug cfg) as [[]|].
Qed.

Lemma silent_without_debug_witness :
  console_lines
    (trace (run sample_env
              [CallSubscribe "system" (throwing_handler 1); CallConnect;
               TransportMessage (mkMessageEvent "null"); TransportError JNull;
               ReconnectTimerFires; CallDisconnect]
              (createCedarStream (sample_config 2) 0 tt))) = [].
Proof.
  apply (silent_without_debug sample_env (sample_config 2) 0 tt).
  cbn. discriminate.
Defined.

Section Connected.

Context {U : Type}.
Variable env : Env.
Local Abbreviation Client := (Client U).

(** While the client is [connected] its heartbeat interval runs. *)
Lemma react_connected (i : Input) (c : Client) :
  (status c = connected -> is_Some (heartbeatTimer c)) ->
  status (react env i c) = connected -> is_Some (heartbeatTimer (react env i c)).
Proof.
  set (view := fun c : Client => (status c, heartbeatTimer c)).
  set (Q := fun v : CedarStreamStatus * option nat => v.1 = connected -> is_Some v.2).
  change (Q (view c) -> Q (view (react env i c))).
  assert (Hkeep : forall A (m : M U A), keeps view m ->
            preserves (fun c : Client => Q (view c)) m)
    by (intros A m; apply (preserves_of_keeps view Q)).
  assert (Hstatus : forall st, st <> connected ->
            preserves (fun c : Client => Q (view c)) (modify (set_status st))).
  { intros st Hst. apply preserves_modify. intros c0 _.
    destruct_client c0. unfold Q, view. cbn. by intros. }
  revert c.
  destruct i; cbn [react]; intros c;
    try match goal with |- context [if ?t is Some _ then _ else _] =>
          destruct t; [|by intros] end;
    try match goal with |- _ -> Q (view (exec ?m ?c)) =>
          revert c; change (preserves (fun c : Client => Q (view c)) m)
        end.
  all: try (apply Hkeep; unfold view; solve [keeps_tac]).
  all: try (unfold onReconnectTimer, onerror, connect, handleError, scheduleReconnect,
              setStatus;
            repeat first [ apply Hkeep; unfold view; solve [keeps_tac]
                         | apply Hstatus; discriminate
                         | preserves_structure ]).
  - intros c _. destruct (disconnect_spec c) as (u & t & tr & Heq & _).
    unfold exec. rewrite Heq. unfold Q, view. destruct_client c. cbn. by intros.
  - intros c _. destruct (onopen_spec c) as (u & t & tr & Heq & _).
    unfold exec. rewrite Heq. unfold Q, view. destruct_client c.
    destruct c_heartbeatTimer; cbn; eauto.
  - unfold Q, view. by destruct_client c.
Qed.

End Connected.

(** X22. In every state that a client reaches after its construction,
    whatever happened to it, if the status is [connected] then the
    heartbeat interval is running. *)
Theorem connected_has_heartbeat {U} (env : Env) (cfg : CedarStreamConfig) (t0 : Z)
    (u0 : U) (inputs : list Input) :
  let s := run env inputs (createCedarStream cfg t0 u0) in
  status s = connected -> is_Some (heartbeatTimer s).
Proof.
  cbv zeta.
  apply (run_invariant env (fun s => status s = connected -> is_Some (heartbeatTimer s))).
  - intros i c. apply react_connected.
  - discriminate.
Qed.

Lemma connected_has_heartbeat_witness :
  let s := run sample_env [CallConnect; TransportOpen; TransportError (JObj ∅);
                           TransportOpen]
             (createCedarStream (sample_config 2) 0 tt) in
  status s = connected /\ is_Some (heartbeatTimer s).
Proof.
  assert (H : status (run sample_env [CallConnect; TransportOpen;
                                      TransportError (JObj ∅); TransportOpen]
                        (createCedarStream (sample_config 2) 0 tt)) = connected)
    by (vm_compute; reflexivity).
  split; [exact H|].
  exact (connected_has_heartbeat sample_env (sample_config 2) 0 tt
           [CallConnect; TransportOpen; TransportError (JObj ∅); TransportOpen] H).
Defined.

Section Attempts.

Context {U : Type}.
Variable env : Env.
Local Abbreviation Client := (Client U).



End Attempts.


Section Periods.

Context {U : Type}.
Variable env : Env.
Local Abbreviation Client := (Client U).

Lemma timeout_delays_app (tr1 tr2 : list Effect) :
  timeout_delays (tr1 ++ tr2) = timeout_delays tr1 ++ timeout_delays tr2.
Proof. apply flat_map_app. Qed.

Lemma interval_periods_app (tr1 tr2 : list Effect) :
  interval_periods (tr1 ++ tr2) = interval_periods tr1 ++ interval_periods tr2.
Proof. apply flat_map_app. Qed.

(** The configuration never changes, and every timer is armed with the
    delay and every interval with the period that it gives. *)
Lemma react_periods (cfg : CedarStreamConfig) (i : Input) (c : Client) :
  config c = cfg
  /\ Forall (fun d => d = opt_or (reconnectInterval cfg) 3000) (timeout_delays (trace c))
  /\ Forall (fun p => p = opt_or (heartbeatInterval cfg) 30000)
            (interval_periods (trace c)) ->
  config (react env i c) = cfg
  /\ Forall (fun d => d = opt_or (reconnectInterval cfg) 3000)
            (timeout_delays (trace (react env i c)))
  /\ Forall (fun p => p = opt_or (heartbeatInterval cfg) 30000)
            (interval_periods (trace (react env i c))).
Proof.
  set (view := fun c : Client =>
         (config c, timeout_delays (trace c), interval_periods (trace c))).
  set (Q := fun v : CedarStreamConfig * list Z * list Z =>
              v.1.1 = cfg
              /\ Forall (fun d => d = opt_or (reconnectInterval cfg) 3000) v.1.2
              /\ Forall (fun p => p = opt_or (heartbeatInterval cfg) 30000) v.2).
  change (Q (view c) -> Q (view (react env i c))).
  assert (Hkeep : forall A (m : M U A), keeps view m ->
            preserves (fun c : Client => Q (view c)) m)
    by (intros A m; apply (preserves_of_keeps view Q)).
  assert (Hdelay : forall A (k : Z -> M U A),
            (forall v, v = opt_or (reconnectInterval cfg) 3000 ->
                       preserves (fun c : Client => Q (view c)) (k v)) ->
            preserves (fun c : Client => Q (view c))
              (bind (get (fun c => opt_or (reconnectInterval (config c)) 3000)) k)).
  { intros A k Hk. apply (preserves_read _ (fun v => v = opt_or (reconnectInterval cfg) 3000));
      [|exact Hk].
    intros c0 (H0 & _). unfold view in H0. cbn [fst] in H0. by rewrite H0. }
  assert (Hperiod : forall A (k : Z -> M U A),
            (forall v, v = opt_or (heartbeatInterval cfg) 30000 ->
                       preserves (fun c : Client => Q (view c)) (k v)) ->
            preserves (fun c : Client => Q (view c))
              (bind (get (fun c => opt_or (heartbeatInterval (config c)) 30000)) k)).
  { intros A k Hk. apply (preserves_read _ (fun v => v = opt_or (heartbeatInterval cfg) 30000));
      [|exact Hk].
    intros c0 (H0 & _). unfold view in H0. cbn [fst] in H0. by rewrite H0. }
  assert (Harm : forall t,
            preserves (fun c : Client => Q (view c))
              (emit_effect (TimeoutSet t (opt_or (reconnectInterval cfg) 3000)))).
  { intros t. apply preserves_modify. intros c0 (H1 & H2 & H3).
    destruct_client c0. unfold Q, view in *. cbn in *.
    rewrite timeout_delays_app, interval_periods_app. cbn. rewrite app_nil_r.
    split_and!; try done. apply Forall_app_2; [done|]. by repeat constructor. }
  assert (Hstart : forall t,
            preserves (fun c : Client => Q (view c))
              (emit_effect (IntervalSet t (opt_or (heartbeatInterval cfg) 30000)))).
  { intros t. apply preserves_modify. intros c0 (H1 & H2 & H3).
    destruct_client c0. unfold Q, view in *. cbn in *.
    rewrite timeout_delays_app, interval_periods_app. cbn. rewrite app_nil_r.
    split_and!; try done. apply Forall_app_2; [done|]. by repeat constructor. }
  revert c.
  destruct i; cbn [react]; intros c;
    try match goal with |- context [if ?t is Some _ then _ else _] =>
          destruct t; [|by intros] end;
    try match goal with |- _ -> Q (view (exec ?m ?c)) =>
          revert c; change (preserves (fun c : Client => Q (view c)) m)
        end.
  all: try (apply Hkeep; unfold view; solve [keeps_reads]).
  all: try (unfold onReconnectTimer, onerror, onopen, connect, handleError,
              scheduleReconnect, startHeartbeat, setTimeout, setInterval;
            repeat first [ apply Hkeep; unfold view; solve [keeps_reads]
                         | apply Hdelay; intros ? ->
                         | apply Hperiod; intros ? ->
                         | apply Harm | apply Hstart
                         | preserves_structure ]).
  unfold Q, view. by destruct_client c.
Qed.

End Periods.

(** X24. The configuration of a client never changes after its
    construction, and the values in force are the configured ones, or the
    defaults where the configured value is absent or zero: every reconnect
    timer the client ever arms has the delay [reconnectInterval] or 3000,
    the same for every attempt, every heartbeat interval it ever starts has
    the period [heartbeatInterval] or 30000, and the limit of attempts is
    [maxReconnectAttempts] or 5. *)
Theorem timers_use_configured_periods {U} (env : Env) (cfg : CedarStreamConfig)
    (t0 : Z) (u0 : U) (inputs : list Input) :
  let s := run env inputs (createCedarStream cfg t0 u0) in
  config s = config (createCedarStream cfg t0 u0)
  /\ Forall (fun d => d = opt_or (reconnectInterval cfg) 3000) (timeout_delays (trace s))
  /\ Forall (fun p => p = opt_or (heartbeatInterval cfg) 30000)
            (interval_periods (trace s))
  /\ reconnect_limit s = opt_or (maxReconnectAttempts cfg) 5.
Proof.
  cbv zeta.
  assert (Hd : forall (x : option Z) d, d <> 0 -> opt_or (Some (default d x)) d = opt_or x d).
  { intros [n|] d Hd; cbn; [done|]. unfold num_or.
    by rewrite (proj2 (Z.eqb_neq _ _)) by done. }
  set (c0 := createCedarStream cfg t0 u0).
  pose proof (run_invariant env
    (fun s => config s = config c0
              /\ Forall (fun d => d = opt_or (reconnectInterval (config c0)) 3000)
                        (timeout_delays (trace s))
              /\ Forall (fun p => p = opt_or (heartbeatInterval (config c0)) 30000)
                        (interval_periods (trace s)))
    (fun i c => react_periods env (config c0) i c) inputs c0) as H.
  destruct H as (H1 & H2 & H3); [by split_and!; try constructor|].
  assert (E1 : opt_or (reconnectInterval (config c0)) 3000
               = opt_or (reconnectInterval cfg) 3000) by (apply Hd; lia).
  assert (E2 : opt_or (heartbeatInterval (config c0)) 30000
               = opt_or (heartbeatInterval cfg) 30000) by (apply Hd; lia).
  rewrite E1 in H2. rewrite E2 in H3.
  split_and!; try done.
  unfold reconnect_limit. rewrite H1. apply Hd. lia.
Qed.

(** ** Messages, uptime and the configurations of the environments *)

Section Samples.

Context {U : Type}.
Variable env : Env.
Local Abbreviation Client := (Client U).

(** The sample that a frame leaves in the buffer of latencies. *)
Lemma handleMessage_sample (event : MessageEvent) (c : Client) :
  let c' := exec (handleMessage env event) c in
  match JSON_parse env (data event) with
  | Ok v =>
      if nullish v then latencyHistory c' = latencyHistory c
      else latencyHistory c'
           = (if (100 <? length (latencyHistory c ++ [Int (now c' - now c)]))%nat
              then tail (latencyHistory c ++ [Int (now c' - now c)])
              else latencyHistory c ++ [Int (now c' - now c)])
  | Throw _ => latencyHistory c' = latencyHistory c
  end.
Proof.
  cbv zeta. unfold exec.
  destruct (JSON_parse env (data event)) as [v|e] eqn:Hp.
  - destruct (nullish v) eqn:Hn.
    + unfold handleMessage. destruct_client c. crunch. rewrite Hp. crunch.
      assert (Hs : isCedarEvent v = Ok v /\ truthy v = false
                   /\ forall iso, exists e, legacyCedarEvent iso v = Throw e)
        by (destruct v; try discriminate Hn; eauto).
      destruct Hs as (-> & Ht & Hl). crunch. rewrite Ht.
      unfold processLegacyEvent. crunch.
      match goal with |- context [legacyCedarEvent ?iso v] =>
        destruct (Hl iso) as [e ->] end.
      on_log. reflexivity.
    + unfold handleMessage. destruct_client c. crunch. rewrite Hp. crunch.
      destruct (isCedarEvent_total v) as [r Hr]. rewrite Hr.
      destruct (truthy r) eqn:Ht.
      * destruct (native_channel v r Hr Ht) as [channel Hch].
        on_processCedarEvent Hch. rewrite recordLatency_eq. crunch. reflexivity.
      * unfold processLegacyEvent. crunch.
        destruct (legacyCedarEvent_spec (JStr (toISOString env c_now)) v Hn)
          as (type & p & ts & _ & _ & _ & E).
        rewrite E.
        destruct (legacy_channel _ _ _ Hn E) as (type' & channel & _ & Hch & _).
        on_processCedarEvent Hch. rewrite recordLatency_eq. crunch. reflexivity.
  - unfold handleMessage. destruct_client c. crunch. rewrite Hp. crunch.
    on_log. reflexivity.
Qed.

(** The clock does not go back while a frame is handled. *)
Lemma handleMessage_clock (event : MessageEvent) (t0 : Z) :
  preserves (fun c : Client => t0 <= now c) (handleMessage env event).
Proof.
  assert (Hkeep : forall A (m : M U A), keeps now m ->
            preserves (fun c : Client => t0 <= now c) m)
    by (intros A m; apply (preserves_of_keeps now (fun t => t0 <= t))).
  assert (Hcall : forall h arg,
            preserves (fun c : Client => t0 <= now c) (call h arg)).
  { intros h arg c Hc. unfold exec. rewrite call_eq. cbn [snd].
    destruct_client c. cbn in *. lia. }
  assert (Hlog : forall m, preserves (fun c : Client => t0 <= now c) (log m)).
  { intros m c Hc. unfold exec. rewrite log_eq. cbn [snd]. by destruct_client c. }
  unfold handleMessage, processLegacyEvent, processCedarEvent.
  repeat first [ apply Hcall | apply Hlog
               | apply Hkeep; solve [keeps_tac]
               | preserves_structure ].
Qed.

End Samples.

(** X25. Every frame of the default event that is processed leaves
    exactly one sample in the buffer of latencies: the time that passed on
    the clock while the client handled it, which is the time its
    subscribers took (the clock of the model does not go back).  A frame
    that does not parse, or parses to [null], leaves the buffer as it
    is. *)
Theorem message_latency_sample {U} (env : Env) (c : Client U) (event : MessageEvent) :
  (length (latencyHistory c) <= 100)%nat ->
  let c' := exec (handleMessage env event) c in
  now c <= now c'
  /\ match JSON_parse env (data event) with
     | Ok v =>
         if nullish v then latencyHistory c' = latencyHistory c
         else latencyHistory c'
              = last_n 100 (latencyHistory c ++ [Int (now c' - now c)])
     | Throw _ => latencyHistory c' = latencyHistory c
     end.
Proof.
  intros Hlen. cbv zeta. split.
  - apply (handleMessage_clock env event (now c) c). lia.
  - pose proof (handleMessage_sample env event c) as H. cbv zeta in H.
    destruct (JSON_parse env (data event)) as [v|e]; [|exact H].
    destruct (nullish v); [exact H|].
    by rewrite <- (push_window (latencyHistory c) _ Hlen).
Qed.

Lemma message_latency_sample_witness :
  let c := exec (subscribe "system" (throwing_handler 1))
             (exec (subscribe "system" (quiet_handler 2)) sample_client) in
  let c' := exec (handleMessage frames_env (mkMessageEvent "bare")) c in
  now c' = 3
  /\ now c <= now c'
  /\ latencyHistory c' = last_n 100 (latencyHistory c ++ [Int (now c' - now c)]).
Proof.
  split; [vm_compute; reflexivity|].
  apply (message_latency_sample frames_env
           (exec (subscribe "system" (throwing_handler 1))
              (exec (subscribe "system" (quiet_handler 2)) sample_client))
           (mkMessageEvent "bare")).
  vm_compute. lia.
Defined.

(** X26. The uptime that [getMetrics()] reports counts from the call of
    [connect()], not from the moment the transport opened: once the
    transport that a [connect()] constructed has reported open, the uptime
    is the time on the clock since that [connect()] returned, the time
    spent connecting included. *)
Theorem uptime_counts_from_connect {U} (env : Env) (c : Client U) (url : URL)
    (connecting_for open_for : N) :
  status c <> connected -> status c <> connecting ->
  new_URL env "/cedar/stream" (endpoint (config c)) = Ok url ->
  new_EventSource env (stream_url (channels (config c)) url) = None ->
  let c1 := react env CallConnect c in
  let s := run env [TimePasses connecting_for; TransportOpen; TimePasses open_for] c1 in
  connectionUptime (getMetrics c1) = 0
  /\ status s = connected
  /\ connectionUptime (getMetrics s) = now s - now c1.
Proof.
  intros H1 H2 Hurl Hes. cbv zeta. cbn [react].
  assert (E1 : status (exec (connect env) c) = connecting
               /\ connectionStartTime (exec (connect env) c) = now (exec (connect env) c)).
  { destruct (connect_opens_trace env c url H1 H2 Hurl Hes) as (u & t & tr & Heq & _).
    unfold exec. rewrite Heq. by destruct_client c. }
  set (c1 := exec (connect env) c) in *. clearbody c1. destruct E1 as [Hst1 Hcst1].
  split; [unfold getMetrics; cbn [connectionUptime]; by rewrite decide_False by congruence|].
  change (run env [TimePasses connecting_for; TransportOpen; TimePasses open_for] c1)
    with (react env (TimePasses open_for)
            (exec onopen (set_now (now c1 + Z.of_N connecting_for) c1))).
  assert (E2 : forall c2 : Client U,
            status (exec onopen c2) = connected
            /\ connectionStartTime (exec onopen c2) = connectionStartTime c2).
  { intros c2. destruct (onopen_spec c2) as (u3 & t3 & tr3 & Heq3 & _).
    unfold exec. rewrite Heq3. destruct_client c2. by destruct c_heartbeatTimer. }
  destruct (E2 (set_now (now c1 + Z.of_N connecting_for) c1)) as [Hst3 Hcst3].
  set (x := exec onopen _) in *. clearbody x.
  assert (E3 : connectionStartTime x = now c1)
    by (rewrite Hcst3; destruct_client c1; cbn in *; done).
  cbn [react]. unfold getMetrics. cbn [connectionUptime].
  destruct_client x. cbn in *. subst. split; [done|]. rewrite decide_True by done.
  f_equal. clear -Hcst1. destruct c1. cbn in *. by subst.
Qed.

Lemma uptime_counts_from_connect_witness :
  let c1 := react sample_env CallConnect sample_client in
  let s := run sample_env [TimePasses 250; TransportOpen; TimePasses 1000] c1 in
  connectionUptime (getMetrics c1) = 0
  /\ status s = connected
  /\ connectionUptime (getMetrics s) = now s - now c1
  /\ connectionUptime (getMetrics s) = 1250.
Proof.
  assert (H : connectionUptime (getMetrics
                (run sample_env [TimePasses 250; TransportOpen; TimePasses 1000]
                   (react sample_env CallConnect sample_client))) = 1250)
    by (vm_compute; reflexivity).
  destruct (uptime_counts_from_connect sample_env sample_client
              (mkURL "http://localhost:8000/cedar/stream" []) 250 1000)
    as (H1 & H2 & H3).
  - vm_compute. discriminate.
  - vm_compute. discriminate.
  - vm_compute. reflexivity.
  - vm_compute. reflexivity.
  - split_and!; assumption.
Defined.

(** X27. [getCedarConfig()] falls back to the development configuration
    whenever [NODE_ENV] is not set, is empty, or is any name other than
    [staging] and [production], with one exception: a name that object
    literals inherit from [Object.prototype] (such as [constructor] or
    [toString]) selects that inherited member, which is truthy and is
    returned in place of a configuration.  In every configuration that is
    returned the endpoint is [NEXT_PUBLIC_CEDAR_ENDPOINT] when that is set
    and not empty, and the three channels are subscribed. *)
Theorem getCedarConfig_fallback (penv : ProcessEnv) :
  let name := env_or (NODE_ENV penv) "development" in
  (name = "staging" ->
   getCedarConfig penv = OwnConfig (staging (defaultCedarConfigs penv)))
  /\ (name = "production" ->
      getCedarConfig penv = OwnConfig (production (defaultCedarConfigs penv)))
  /\ (name <> "staging" -> name <> "production" ->
      ~ In name Object_prototype_names ->
      getCedarConfig penv = OwnConfig (development (defaultCedarConfigs penv)))
  /\ (In name Object_prototype_names -> getCedarConfig penv = Inherited name)
  /\ (forall cfg, getCedarConfig penv = OwnConfig cfg ->
        channels cfg = ["transactions"; "notifications"; "system"]
        /\ forall a s, NEXT_PUBLIC_CEDAR_ENDPOINT penv = Some (String a s) ->
                       endpoint cfg = String a s).
Proof.
  cbv zeta. unfold getCedarConfig, configs_get.
  set (name := env_or (NODE_ENV penv) "development").
  split; [by intros ->|]. split; [by intros ->|]. split; [|split].
  - intros H1 H2 H3.
    destruct (String.eqb_spec name "development") as [?|?]; [done|].
    destruct (String.eqb_spec name "staging") as [?|?]; [done|].
    destruct (String.eqb_spec name "production") as [?|?]; [done|].
    destruct (existsb (String.eqb name) Object_prototype_names) eqn:E; [|done].
    apply existsb_exists in E as (x & Hin & Hx). apply String.eqb_eq in Hx. by subst x.
  - intros Hin.
    assert (E : existsb (String.eqb name) Object_prototype_names = true)
      by (apply existsb_exists; exists name; split; [done|apply String.eqb_refl]).
    rewrite E.
    assert (Hno : name <> "development" /\ name <> "staging" /\ name <> "production").
    { split_and!; intros ->; cbn in Hin; intuition discriminate. }
    destruct Hno as (N1 & N2 & N3).
    by rewrite (proj2 (String.eqb_neq _ _) N1), (proj2 (String.eqb_neq _ _) N2),
      (proj2 (String.eqb_neq _ _) N3).
  - intros cfg Hcfg.
    assert (Hcase : cfg = development (defaultCedarConfigs penv)
                    \/ cfg = staging (defaultCedarConfigs penv)
                    \/ cfg = production (defaultCedarConfigs penv)).
    { destruct (String.eqb name "development"); [injection Hcfg as <-; auto|].
      destruct (String.eqb name "staging"); [injection Hcfg as <-; auto|].
      destruct (String.eqb name "production"); [injection Hcfg as <-; auto|].
      destruct (existsb (String.eqb name) Object_prototype_names); [done|].
      injection Hcfg as <-; auto. }
    destruct Hcase as [-> | [-> | ->]]; (split; [done|]); intros a s E; cbn; by rewrite E.
Qed.

(** ** Callbacks that call the client: running the methods *)

(** A client of [Live] given by its fields. *)
Ltac destruct_live s :=
  let c := fresh "c" in
  destruct s as [c s_eventHandlers s_channelHandlers s_arrays s_nextArray];
  destruct_client c.

(** Unfolds the monad of [Live] and the assignments. *)
Ltac live_crunch :=
  cbv [Live.bind Live.ret Live.this Live.read Live.write Live.lift Live.throw
       Live.try_catch Live.exec Live.outcome
       Live.set_fields Live.set_eventHandlers Live.set_channelHandlers
       Live.set_arrays Live.set_nextArray Live.set_items
       Live.fields Live.eventHandlers Live.channelHandlers Live.arrays
       Live.nextArray Live.items Live.listeners Live.subscribers
       Live.channel_array
       bind ret get modify lift throw try_catch emit_effect exec outcome fst snd
       with_world set_status set_eventSource set_eventHandlers set_channelHandlers
       set_reconnectAttempts set_reconnectTimer set_heartbeatTimer set_metrics
       set_connectionStartTime set_latencyHistory set_now set_nextHandle set_user
       set_trace config status eventSource eventHandlers channelHandlers
       reconnectAttempts reconnectTimer heartbeatTimer metrics
       connectionStartTime latencyHistory now nextHandle user trace
       listeners subscribers getProp
       Date_now Date_toISOString setTimeout setInterval] in *.

Section LiveExecution.

Context {U : Type}.
Variable behaviour : nat -> JSValue -> Live.M U unit.
Hypothesis Hinert : Live.inert behaviour.

Lemma live_with_world_id (s : Live.Client U) :
  Live.set_fields
    (with_world (user (Live.fields s)) (now (Live.fields s))
                (trace (Live.fields s) ++ []) (Live.fields s)) s = s.
Proof. rewrite with_world_id. by destruct s. Qed.

Lemma live_with_world_trans u1 t1 tr1 u2 t2 tr2 (s : Live.Client U) :
  let s1 := Live.set_fields
              (with_world u1 t1 (trace (Live.fields s) ++ tr1) (Live.fields s)) s in
  Live.set_fields
    (with_world u2 t2 (trace (Live.fields s1) ++ tr2) (Live.fields s1)) s1
  = Live.set_fields
      (with_world u2 t2 (trace (Live.fields s) ++ tr1 ++ tr2) (Live.fields s)) s.
Proof. destruct_live s. cbn. by rewrite app_assoc. Qed.

(** A call of a function that does not call the client records itself and
    moves the callers' world only. *)
Lemma live_call_spec (handler : nat) (arg : JSValue) (s : Live.Client U) :
  exists r u t,
    Live.call behaviour handler arg s
    = (r, Live.set_fields
            (with_world u t (trace (Live.fields s) ++ [Invoked handler arg])
                        (Live.fields s)) s).
Proof using Hinert.
  unfold Live.call, Live.bind, Live.this, emit_effect, modify. cbv beta iota.
  set (s1 := Live.set_fields _ s).
  destruct (Hinert handler arg s1) as (u & ms & He). unfold Live.exec in He.
  destruct (behaviour handler arg s1) as [r s2]. cbn [snd] in He. subst s2.
  exists r, u, (now (Live.fields s) + Z.of_N ms). f_equal.
  subst s1. by destruct_live s.
Qed.

Lemma live_log_spec (m : LogMsg) (s : Live.Client U) :
  exists tr,
    Live.this (log m) s
    = (Ok tt, Live.set_fields
                (with_world (user (Live.fields s)) (now (Live.fields s))
                            (trace (Live.fields s) ++ tr) (Live.fields s)) s)
    /\ invocations tr = [] /\ Forall (fun e => quiet e = true) tr.
Proof.
  unfold Live.this.
  destruct (log_spec m (Live.fields s)) as (tr & -> & Hi & Hq). by exists tr.
Qed.

(** The loop of [emit] and of [processCedarEvent] over functions that do not
    call the client: the array stays as it is, every function of it is
    called once, in order, whichever of them throw, and the loop returns. *)
Lemma live_guarded_loop (array : nat) (arg : JSValue) (msg : JSValue -> LogMsg)
    (n k : nat) (s : Live.Client U) :
  exists u t tr,
    Live.forEach_from array k n
      (fun h => Live.try_catch (Live.call behaviour h arg)
                               (fun e => Live.this (log (msg e)))) s
    = (Ok tt, Live.set_fields
                (with_world u t (trace (Live.fields s) ++ tr) (Live.fields s)) s)
    /\ invocations tr = map (fun h => (h, arg)) (take n (drop k (Live.items array s)))
    /\ Forall (fun e => quiet e = true) tr.
Proof using Hinert.
  revert k s. induction n as [|n IH]; intros k s.
  - exists (user (Live.fields s)), (now (Live.fields s)), [].
    cbn [Live.forEach_from]. unfold Live.ret. by rewrite live_with_world_id.
  - cbn [Live.forEach_from]. unfold Live.bind at 1, Live.read. cbv beta iota.
    destruct (Live.items array s !! k) as [x|] eqn:Hk.
    + unfold Live.bind at 1, Live.try_catch at 1.
      destruct (live_call_spec x arg s) as (r & u1 & t1 & ->).
      set (s1 := Live.set_fields _ s).
      assert (Hitems : forall s' : Live.Client U,
                Live.arrays s' = Live.arrays s ->
                take (S n) (drop k (Live.items array s))
                = x :: take n (drop (S k) (Live.items array s'))).
      { intros s' Hs'. unfold Live.items in *. rewrite Hs'.
        by rewrite (drop_S _ _ _ Hk). }
      destruct r as [[]|e]; cbv beta iota.
      * destruct (IH (S k) s1) as (u & t & tr & -> & Hi & Hq).
        exists u, t, ([Invoked x arg] ++ tr). split; [|split].
        -- subst s1. by rewrite live_with_world_trans.
        -- rewrite invocations_app, Hi. rewrite (Hitems s1); [done|].
           subst s1. by destruct s.
        -- apply Forall_app_2; [by repeat constructor | done].
      * destruct (live_log_spec (msg e) s1) as (tr1 & -> & Hi1 & Hq1).
        set (s2 := Live.set_fields _ s1).
        destruct (IH (S k) s2) as (u & t & tr & -> & Hi & Hq).
        exists u, t, ([Invoked x arg] ++ tr1 ++ tr). split; [|split].
        -- subst s2 s1. by rewrite !live_with_world_trans.
        -- rewrite !invocations_app, Hi1, Hi. rewrite (Hitems s2); [done|].
           subst s2 s1. by destruct s.
        -- repeat apply Forall_app_2; try done. by repeat constructor.
    + unfold Live.bind at 1, Live.ret at 1. cbv beta iota.
      destruct (IH (S k) s) as (u & t & tr & -> & Hi & Hq).
      exists u, t, tr. split; [done|]. split; [|done].
      rewrite Hi. apply lookup_ge_None in Hk.
      rewrite !drop_ge by lia. by rewrite !take_nil.
Qed.

Lemma live_emit_spec (event : CedarStreamEvent) (arg : JSValue) (s : Live.Client U) :
  exists u t tr,
    Live.emit behaviour event arg s
    = (Ok tt, Live.set_fields
                (with_world u t (trace (Live.fields s) ++ tr) (Live.fields s)) s)
    /\ invocations tr = map (fun h => (h, arg)) (Live.listeners event s)
    /\ Forall (fun e => quiet e = true) tr.
Proof using Hinert.
  unfold Live.emit, Live.listeners, Live.bind at 1, Live.read. cbv beta iota.
  destruct (Live.eventHandlers s !! event) as [array|].
  - unfold Live.forEach, Live.bind at 1, Live.read. cbv beta iota.
    destruct (live_guarded_loop array arg (log_event_handler_error event)
                (length (Live.items array s)) 0 s) as (u & t & tr & Heq & Hi & Hq).
    exists u, t, tr. split; [exact Heq|]. split; [|done].
    rewrite Hi. cbn [drop]. by rewrite firstn_all.
  - exists (user (Live.fields s)), (now (Live.fields s)), [].
    unfold Live.ret. by rewrite live_with_world_id.
Qed.

Lemma live_processCedarEvent_spec (event channel : JSValue) (s : Live.Client U) :
  getProp event "channel" = Ok channel ->
  exists u t tr,
    Live.processCedarEvent behaviour event s
    = (Ok tt, Live.set_fields
                (with_world u t (trace (Live.fields s) ++ tr) (Live.fields s)) s)
    /\ invocations tr
       = map (fun h => (h, event))
             (match channel with
              | JStr ch => Live.subscribers ch s
              | _ => []
              end)
    /\ Forall (fun e => quiet e = true) tr.
Proof using Hinert.
  intros Hch. unfold Live.processCedarEvent, Live.bind at 1, Live.lift. rewrite Hch.
  unfold Live.bind at 1, Live.read. cbv beta iota.
  assert (Hnone : exists u t tr,
            @Live.ret U unit tt s
            = (Ok tt, Live.set_fields
                        (with_world u t (trace (Live.fields s) ++ tr) (Live.fields s)) s)
            /\ invocations tr = [] /\ Forall (fun e => quiet e = true) tr).
  { exists (user (Live.fields s)), (now (Live.fields s)), [].
    unfold Live.ret. by rewrite live_with_world_id. }
  unfold Live.channel_array, Live.subscribers.
  destruct channel as [| | | |ch| |]; try exact Hnone.
  destruct (Live.channelHandlers s !! ch) as [array|]; [|exact Hnone].
  unfold Live.forEach, Live.bind at 1, Live.read. cbv beta iota.
  destruct (live_guarded_loop array event (log_channel_handler_error (JStr ch))
              (length (Live.items array s)) 0 s) as (u & t & tr & Heq & Hi & Hq).
  exists u, t, tr. split; [exact Heq|]. split; [|done].
  rewrite Hi. cbn [drop]. by rewrite firstn_all.
Qed.

Lemma live_setStatus_spec (st : CedarStreamStatus) (s : Live.Client U) :
  exists u t tr,
    Live.setStatus behaviour st s
    = (Ok tt, Live.set_fields
                (with_world u t (trace (Live.fields s) ++ tr)
                            (set_status st (Live.fields s))) s)
    /\ invocations tr =
        (if decide (status (Live.fields s) = st) then []
         else map (fun h => (h, JObj {[ "from" := JStr (status_name (status (Live.fields s)));
                                        "to" := JStr (status_name st) ]}))
                  (Live.listeners ev_status_change s))
    /\ Forall (fun e => quiet e = true) tr.
Proof using Hinert.
  unfold Live.setStatus, Live.bind at 1, Live.this at 1, get. cbv beta iota.
  replace (Live.set_fields (Live.fields s) s) with s by (by destruct s).
  destruct (decide (status (Live.fields s) <> st)) as [Hne|Heq].
  - rewrite decide_False by done.
    unfold Live.bind at 1, Live.this at 1, modify. cbv beta iota.
    set (s0 := Live.set_fields _ s).
    unfold Live.bind at 1.
    destruct (live_log_spec (log_status_changed (status (Live.fields s)) st) s0)
      as (tr1 & -> & Hi1 & Hq1). cbv beta iota.
    set (s1 := Live.set_fields _ s0).
    match goal with |- context [Live.emit _ ?ev ?a s1] =>
      destruct (live_emit_spec ev a s1) as (u & t & tr & -> & Hi & Hq) end.
    exists u, t, (tr1 ++ tr). split; [|split].
    + subst s1 s0. destruct_live s. cbn. by rewrite app_assoc.
    + rewrite invocations_app, Hi1, Hi. subst s1 s0. by destruct_live s.
    + by apply Forall_app_2.
  - apply dec_stable in Heq. rewrite decide_True by done.
    exists (user (Live.fields s)), (now (Live.fields s)), []. split; [|done].
    unfold Live.ret. f_equal. destruct_live s. cbn in *. subst. by rewrite app_nil_r.
Qed.

End LiveExecution.

(** One step of symbolic execution through [Live.emit], [Live.setStatus] or
    [Live.processCedarEvent], given [H], that the functions do not call the
    client. *)
Ltac on_live_emit H :=
  match goal with |- context [Live.emit ?b ?ev ?a ?s] =>
    let u := fresh "u" in let t := fresh "t" in let tr := fresh "tr" in
    let Hi := fresh "Hi" in let Hq := fresh "Hq" in
    destruct (live_emit_spec b H ev a s) as (u & t & tr & -> & Hi & Hq)
  end; live_crunch.

Ltac on_live_setStatus H :=
  match goal with |- context [Live.setStatus ?b ?st ?s] =>
    let u := fresh "u" in let t := fresh "t" in let tr := fresh "tr" in
    let Hi := fresh "Hi" in let Hq := fresh "Hq" in
    destruct (live_setStatus_spec b H st s) as (u & t & tr & -> & Hi & Hq)
  end; live_crunch.

Ltac on_live_processCedarEvent H Hch :=
  match goal with |- context [Live.processCedarEvent ?b ?ev ?s] =>
    let u := fresh "u" in let t := fresh "t" in let tr := fresh "tr" in
    let Hi := fresh "Hi" in let Hq := fresh "Hq" in
    destruct (live_processCedarEvent_spec b H ev _ s Hch) as (u & t & tr & -> & Hi & Hq)
  end; live_crunch.

(** ** Dispatching to functions that call the client *)

(** C2 at an input where the code departs from it.  Three functions are
    subscribed to ["notifications"], in the order 1, 2, 3, and the function 1
    unsubscribes itself when it is called.  One event of that channel is
    dispatched.  The dispatch returns, and it has called 1 and 3 only:
    [forEach] walks the array that [unsubscribe] spliced, where after the
    call of 1 the index 1 holds 3.  The function 2 is subscribed before and
    after the dispatch and is not called. *)
Theorem dispatch_skips_a_subscriber :
  let s := Live.exec (Live.subscribe "notifications" 3%nat)
             (Live.exec (Live.subscribe "notifications" 2%nat)
                (Live.exec (Live.subscribe "notifications" 1%nat) Live.sample_client)) in
  let s' := Live.exec (Live.processCedarEvent Live.unsubscribes_itself sample_event) s in
  getProp sample_event "channel" = Ok (JStr "notifications")
  /\ Live.subscribers "notifications" s = [1; 2; 3]%nat
  /\ Live.outcome (Live.processCedarEvent Live.unsubscribes_itself sample_event) s = Ok tt
  /\ invocations (trace (Live.fields s'))
     = [(1%nat, sample_event); (3%nat, sample_event)]
  /\ Live.subscribers "notifications" s' = [2; 3]%nat.
Proof. vm_compute. done. Qed.

(** C9 at an input where the code departs from it.  Three listeners are
    registered for [disconnect], in the order 1, 2, 3, and the listener 1
    removes itself with [off] when it is called.  [disconnect()] is called
    on the client, whose status is [disconnected] already.  It returns, and
    it has called the listeners 1 and 3 only: [emit] walks the array that
    [off] spliced.  The listener 2 is registered before and after and is
    not called. *)
Theorem disconnect_skips_a_listener :
  let s := Live.exec (Live.on ev_disconnect 3%nat)
             (Live.exec (Live.on ev_disconnect 2%nat)
                (Live.exec (Live.on ev_disconnect 1%nat) Live.sample_client)) in
  let s' := Live.exec (Live.disconnect Live.removes_itself) s in
  status (Live.fields s) = disconnected
  /\ Live.listeners ev_disconnect s = [1; 2; 3]%nat
  /\ Live.outcome (Live.disconnect Live.removes_itself) s = Ok tt
  /\ status (Live.fields s') = disconnected
  /\ invocations (trace (Live.fields s')) = [(1%nat, JUndefined); (3%nat, JUndefined)]
  /\ Live.listeners ev_disconnect s' = [2; 3]%nat.
Proof. vm_compute. done. Qed.

(** ** Functions that do not call the client *)

Lemma returning_inert : Live.inert Live.returning.
Proof.
  intros h arg s. exists (user (Live.fields s)), 0%N.
  destruct_live s. cbn. by rewrite Z.add_0_r.
Qed.

Lemma second_throws_inert : Live.inert Live.second_throws.
Proof.
  intros h arg s. exists (user (Live.fields s)), 0%N.
  unfold Live.second_throws. destruct_live s.
  destruct (h =? 2)%nat; cbn; by rewrite Z.add_0_r.
Qed.

Section LiveRegistration.

Context {U : Type}.



(** What [on] leaves. *)
Lemma live_on_spec (event : CedarStreamEvent) (h : nat) (s : Live.Client U) :
  exists s1,
    Live.on event h s = (Ok tt, s1)
    /\ Live.fields s1 = Live.fields s
    /\ Live.listeners event s1 = Live.listeners event s ++ [h]
    /\ (Live.own_arrays s ->
        Live.own_arrays s1
        /\ forall ev, ev <> event -> Live.listeners ev s1 = Live.listeners ev s).
Proof.
  unfold Live.on, Live.new_array. destruct s as [c eh ch ar nx]. live_crunch.
  destruct (eh !! event) as [array|] eqn:E; live_crunch.
  - rewrite E. eexists. split; [reflexivity|]. live_crunch.
    rewrite E, lookup_insert_eq. split; [done|]. split; [done|].
    unfold Live.own_arrays. live_crunch. intros [Hlt Hinj]. split; [by split|].
    intros ev Hne. destruct (eh !! ev) as [a'|] eqn:E'; [|done].
    rewrite lookup_insert_ne; [done|]. intros ->. by destruct (Hinj _ _ _ E E').
  - rewrite lookup_insert_eq. eexists. split; [reflexivity|]. live_crunch.
    rewrite !lookup_insert_eq. split; [done|]. split; [done|].
    unfold Live.own_arrays. live_crunch. intros [Hlt Hinj]. split; [split|].
    + intros ev a. destruct (decide (ev = event)) as [->|Hne].
      * rewrite lookup_insert_eq. intros [= <-]. lia.
      * rewrite lookup_insert_ne by done. intros Ha. specialize (Hlt _ _ Ha). lia.
    + intros e1 e2 a.
      destruct (decide (e1 = event)) as [->|H1], (decide (e2 = event)) as [->|H2];
        rewrite ?lookup_insert_eq, ?lookup_insert_ne by done; try done.
      * intros [= <-] Ha. specialize (Hlt _ _ Ha). lia.
      * intros Ha [= <-]. specialize (Hlt _ _ Ha). lia.
      * apply Hinj.
    + intros ev Hne. rewrite lookup_insert_ne by done.
      destruct (eh !! ev) as [a'|] eqn:E'; [|done].
      specialize (Hlt _ _ E').
      rewrite !lookup_insert_ne by lia. done.
Qed.


Lemma constructor_own_arrays (cfg : CedarStreamConfig) (t0 : Z) (u0 : U) :
  Live.own_arrays (Live.constructor cfg t0 u0).
Proof. split; cbn; intros *; by rewrite lookup_empty. Qed.

End LiveRegistration.

(** X5. [on(event, handler)] returns, changes no field of the client, and
    adds the function after the listeners that the event has; the listeners
    of the other events stay as they are.  When the event is emitted
    afterwards and no listener calls the client, the emission returns and
    calls the earlier listeners and then the new one, once each and in that
    order, with the argument of the event, whichever of them throw. *)
Theorem on_registers_listener {U} (behaviour : nat -> JSValue -> Live.M U unit)
    (s : Live.Client U) (event : CedarStreamEvent) (h : nat) (arg : JSValue) :
  Live.inert behaviour ->
  let s1 := Live.exec (Live.on event h) s in
  Live.outcome (Live.on event h) s = Ok tt
  /\ Live.fields s1 = Live.fields s
  /\ Live.listeners event s1 = Live.listeners event s ++ [h]
  /\ (Live.own_arrays s ->
      Live.own_arrays s1
      /\ forall ev, ev <> event -> Live.listeners ev s1 = Live.listeners ev s)
  /\ Live.outcome (Live.emit behaviour event arg) s1 = Ok tt
  /\ exists tr,
       trace (Live.fields (Live.exec (Live.emit behaviour event arg) s1))
       = trace (Live.fields s) ++ tr
       /\ invocations tr = map (fun x => (x, arg)) (Live.listeners event s ++ [h]).
Proof.
  intros Hin. cbv zeta.
  destruct (live_on_spec event h s) as (s1 & Hon & Hf & Hl & Hown).
  unfold Live.outcome, Live.exec. rewrite !Hon. cbn [fst snd].
  split; [done|]. split; [done|]. split; [done|]. split; [done|].
  destruct (live_emit_spec behaviour Hin event arg s1) as (u & t & tr & -> & Hi & _).
  cbn [fst snd]. split; [done|]. exists tr. rewrite Hi, Hl, <- Hf.
  split; [|done]. destruct_live s1. reflexivity.
Qed.

Lemma on_registers_listener_witness :
  let s := Live.exec (Live.on ev_connect 2%nat)
             (Live.exec (Live.on ev_error 1%nat) Live.sample_client) in
  let s1 := Live.exec (Live.on ev_connect 3%nat) s in
  Live.listeners ev_connect s1 = [2; 3]%nat
  /\ Live.listeners ev_error s1 = [1]%nat
  /\ invocations (trace (Live.fields
                           (Live.exec (Live.emit Live.second_throws ev_connect JUndefined) s1)))
     = [(2%nat, JUndefined); (3%nat, JUndefined)].
Proof.
  cbv zeta.
  destruct (on_registers_listener Live.second_throws
              (Live.exec (Live.on ev_connect 2%nat)
                 (Live.exec (Live.on ev_error 1%nat) Live.sample_client))
              ev_connect 3%nat JUndefined second_throws_inert)
    as (_ & _ & Hl & _ & _ & tr & Htr & Hi).
  split; [exact Hl|]. split; [vm_compute; reflexivity|].
  rewrite Htr, invocations_app, Hi. vm_compute. reflexivity.
Defined.



(** ** What listeners and subscribers are told *)

Lemma slow_inert : Live.inert Live.slow.
Proof.
  intros h arg s. exists (user (Live.fields s)), 3%N. by destruct_live s.
Qed.

(** X14. When the transport reports that it is open, the client's status
    becomes [connected], its count of reconnect attempts goes back to zero,
    and the heartbeat interval runs: it is started, with the configured
    period (30000 ms when that is absent or zero), unless one runs already.
    A pending reconnect timer is not cancelled, and the metrics are not
    reset.  These hold when no listener calls the client; then the
    [status_change] listeners, when the status was not [connected] already,
    and after them the [connect] listeners are called once each, in the
    order of their registration. *)
Theorem open_resets_attempts {U} (behaviour : nat -> JSValue -> Live.M U unit)
    (s : Live.Client U) :
  Live.inert behaviour ->
  let c := Live.fields s in
  let c' := Live.fields (Live.exec (Live.onopen behaviour) s) in
  Live.outcome (Live.onopen behaviour) s = Ok tt
  /\ status c' = connected
  /\ reconnectAttempts c' = 0
  /\ heartbeatTimer c' = Some (default (nextHandle c) (heartbeatTimer c))
  /\ reconnectTimer c' = reconnectTimer c
  /\ metrics c' = metrics c
  /\ exists tr,
       trace c' = trace c ++ tr
       /\ invocations tr =
            (if decide (status c = connected) then []
             else map (fun h => (h, JObj {[ "from" := JStr (status_name (status c));
                                            "to" := JStr "connected" ]}))
                      (Live.listeners ev_status_change s))
            ++ map (fun h => (h, JUndefined)) (Live.listeners ev_connect s)
       /\ interval_periods tr = match heartbeatTimer c with
                                | Some _ => []
                                | None => [opt_or (heartbeatInterval (config c)) 30000]
                                end
       /\ timeouts_cleared tr = [].
Proof.
  intros Hin. cbv zeta.
  assert (Hp : forall tr', Forall (fun e => quiet e = true) tr' ->
                 interval_periods tr' = []).
  { induction 1 as [|e ? He _ IH]; [done|].
    destruct e; try discriminate; exact IH. }
  unfold Live.onopen, startHeartbeat. destruct_live s. live_crunch.
  on_log. live_crunch. on_live_setStatus Hin.
  destruct c_heartbeatTimer; live_crunch; on_live_emit Hin;
    (split_and!; try done);
    eexists; (split; [rewrite <- ?app_assoc; reflexivity|]);
    (split; [rewrite !invocations_app; cbn [invocations flat_map app];
             rewrite ?invocations_app, Hi, Hi0, Hi1; reflexivity|]);
    rewrite ?interval_periods_app, ?(Hp _ Hq), ?(Hp _ Hq0), ?(Hp _ Hq1);
    trace_reads; done.
Qed.

Lemma open_resets_attempts_witness :
  let s := Live.exec (Live.on ev_connect 3%nat)
             (Live.exec (Live.on ev_connect 2%nat)
                (Live.exec (Live.on ev_status_change 1%nat) Live.sample_client)) in
  let c' := Live.fields (Live.exec (Live.onopen Live.second_throws) s) in
  status c' = connected
  /\ heartbeatTimer c' = Some 0%nat
  /\ invocations (trace c')
     = [(1%nat, JObj {[ "from" := JStr "disconnected"; "to" := JStr "connected" ]});
        (2%nat, JUndefined); (3%nat, JUndefined)].
Proof.
  cbv zeta.
  destruct (open_resets_attempts Live.second_throws
              (Live.exec (Live.on ev_connect 3%nat)
                 (Live.exec (Live.on ev_connect 2%nat)
                    (Live.exec (Live.on ev_status_change 1%nat) Live.sample_client)))
              second_throws_inert)
    as (_ & Hst & _ & Hht & _ & _ & tr & Htr & Hi & _).
  split; [exact Hst|]. split; [exact Hht|].
  rewrite Htr, invocations_app, Hi. vm_compute. reflexivity.
Defined.

(** X28. What the listeners hear of an error object that reaches the
    error handling, when none of them calls the client.  In this order: the
    [status_change] listeners, unless the status was [error] already; the
    [error] listeners, with an object holding the error's [code] or
    ['STREAM_ERROR'], its [message] or ['Unknown stream error'], the time on
    the clock once the [status_change] listeners have returned, the error
    itself as context and [recoverable: true], which it says also when the
    client gives up; and, only when a reconnect is scheduled (the limit is
    not reached and no timer is pending), the [status_change] listeners
    again, for [error] to [reconnecting], and the [reconnect] listeners, with
    the number of the attempt and the delay.  Each listener is called once
    per event, in the order of registration. *)
Theorem error_event_sequence {U} (env : Env)
    (behaviour : nat -> JSValue -> Live.M U unit) (s : Live.Client U)
    (fields : gmap string JSValue) :
  Live.inert behaviour ->
  let c := Live.fields s in
  let counted := Live.set_fields (set_metrics (incr_errorsCount (metrics c)) c) s in
  let t := now (Live.fields (Live.exec (Live.setStatus behaviour error) counted)) in
  let s' := Live.exec (Live.handleError env behaviour (JObj fields)) s in
  Live.outcome (Live.handleError env behaviour (JObj fields)) s = Ok tt
  /\ exists tr,
       trace (Live.fields s') = trace c ++ tr
       /\ let streamError :=
            JObj {[ "code" := js_or (default JUndefined (fields !! "code"))
                                    (JStr "STREAM_ERROR");
                    "message" := js_or (default JUndefined (fields !! "message"))
                                       (JStr "Unknown stream error");
                    "timestamp" := JStr (toISOString env t);
                    "context" := JObj {[ "error" := JObj fields ]};
                    "recoverable" := JBool true ]} in
          invocations tr =
            (if decide (status c = error) then []
             else map (fun h => (h, JObj {[ "from" := JStr (status_name (status c));
                                            "to" := JStr "error" ]}))
                      (Live.listeners ev_status_change s))
            ++ map (fun h => (h, streamError)) (Live.listeners ev_error s)
            ++ (if (reconnectAttempts c <? opt_or (maxReconnectAttempts (config c)) 5)
                   && bool_decide (reconnectTimer c = None)
                then map (fun h => (h, JObj {[ "from" := JStr "error";
                                               "to" := JStr "reconnecting" ]}))
                         (Live.listeners ev_status_change s)
                     ++ map (fun h => (h,
                                 JObj {[ "attempt" := JNum (reconnectAttempts c + 1);
                                         "delay" := JNum (opt_or (reconnectInterval (config c))
                                                                 3000) ]}))
                            (Live.listeners ev_reconnect s)
                else []).
Proof.
  intros Hin. cbv zeta.
  unfold Live.handleError. destruct_live s. live_crunch.
  on_live_setStatus Hin. on_live_emit Hin.
  destruct (c_reconnectAttempts <? opt_or (maxReconnectAttempts c_config) 5).
  - destruct c_reconnectTimer as [timer|].
    + unfold Live.scheduleReconnect. live_crunch.
      split; [done|]. eexists.
      split; [rewrite <- ?app_assoc; reflexivity|].
      rewrite !invocations_app, Hi, Hi0. cbn. by rewrite app_nil_r.
    + unfold Live.scheduleReconnect. live_crunch. on_live_setStatus Hin.
      on_log. live_crunch. on_live_emit Hin.
      split; [done|]. eexists.
      split; [rewrite <- ?app_assoc; reflexivity|].
      rewrite !invocations_app. cbn [invocations flat_map app].
      rewrite ?invocations_app, Hi, Hi0, Hi1, Hi2, Hi3. cbn. by rewrite ?app_nil_r.
  - on_log. live_crunch.
    split; [done|]. eexists.
    split; [rewrite <- ?app_assoc; reflexivity|].
    rewrite !invocations_app, Hi, Hi0, Hi1. cbn. by rewrite ?app_nil_r.
Qed.

Lemma error_event_sequence_witness :
  let s := Live.exec (Live.on ev_reconnect 3%nat)
             (Live.exec (Live.on ev_error 2%nat)
                (Live.exec (Live.on ev_status_change 1%nat) Live.sample_client)) in
  let s' := Live.exec (Live.handleError Live.event_env Live.slow (JObj ∅)) s in
  now (Live.fields s) = 0
  /\ invocations (trace (Live.fields s'))
     = [(1%nat, JObj {[ "from" := JStr "disconnected"; "to" := JStr "error" ]});
        (2%nat, JObj {[ "code" := JStr "STREAM_ERROR";
                        "message" := JStr "Unknown stream error";
                        "timestamp" := JStr "1970-01-01T00:00:00.003Z";
                        "context" := JObj {[ "error" := JObj ∅ ]};
                        "recoverable" := JBool true ]});
        (1%nat, JObj {[ "from" := JStr "error"; "to" := JStr "reconnecting" ]});
        (3%nat, JObj {[ "attempt" := JNum 1; "delay" := JNum 3000 ]})].
Proof.
  cbv zeta. split; [reflexivity|].
  destruct (error_event_sequence Live.event_env Live.slow
              (Live.exec (Live.on ev_reconnect 3%nat)
                 (Live.exec (Live.on ev_error 2%nat)
                    (Live.exec (Live.on ev_status_change 1%nat) Live.sample_client)))
              ∅ slow_inert)
    as (_ & tr & Htr & Hi).
  rewrite Htr, invocations_app, Hi. vm_compute. reflexivity.
Defined.

Section LiveMessages.

Context {U : Type}.
Variable env : Env.
Variable behaviour : nat -> JSValue -> Live.M U unit.
Hypothesis Hinert : Live.inert behaviour.

(** A frame that parses to a value whose properties can be read, on a
    client whose subscribers do not call it. *)
Lemma live_handleMessage_parsed (event : MessageEvent) (v : JSValue)
    (s : Live.Client U) :
  JSON_parse env (data event) = Ok v ->
  nullish v = false ->
  exists s' tr dispatched channel,
    Live.handleMessage env behaviour event s = (Ok tt, s')
    /\ (native_shape v -> dispatched = v)
    /\ (~ native_shape v ->
        legacyCedarEvent (JStr (toISOString env (now (Live.fields s)))) v
        = Ok dispatched)
    /\ getProp dispatched "channel" = Ok (JStr channel)
    /\ trace (Live.fields s') = trace (Live.fields s) ++ tr
    /\ invocations tr = map (fun h => (h, dispatched)) (Live.subscribers channel s)
    /\ metrics (Live.fields s')
       = incr_messagesProcessed
           (set_lastMessageTime (toISOString env (now (Live.fields s)))
              (incr_messagesReceived (metrics (Live.fields s)))).
Proof using Hinert.
  intros Hp Hn. unfold Live.handleMessage. destruct_live s. live_crunch.
  rewrite Hp. live_crunch.
  destruct (isCedarEvent_total v) as [r Hr]. rewrite Hr.
  destruct (truthy r) eqn:Ht.
  - destruct (native_channel v r Hr Ht) as [channel Hch].
    on_live_processCedarEvent Hinert Hch. rewrite recordLatency_eq. live_crunch.
    eexists _, tr, v, channel. split; [reflexivity|]. live_crunch.
    split_and!; try done.
    intros Hnot. destruct Hnot. apply isCedarEvent_native. eauto.
  - unfold Live.processLegacyEvent. live_crunch.
    destruct (legacyCedarEvent_spec (JStr (toISOString env c_now)) v Hn)
      as (type & p & ts & _ & _ & _ & E).
    rewrite E.
    destruct (legacy_channel _ _ _ Hn E) as (type' & channel & _ & Hch & _).
    on_live_processCedarEvent Hinert Hch. rewrite recordLatency_eq. live_crunch.
    match type of E with _ = Ok ?l => eexists _, tr, l, channel end.
    split; [reflexivity|]. live_crunch.
    split_and!; try done.
    intros Hnat. apply isCedarEvent_native in Hnat as (r' & Hr' & Ht').
    congruence.
Qed.

(** What [handleCedarEvent] does with a frame, on a client whose
    subscribers do not call it. *)
Lemma live_handleCedarEvent_spec (event : MessageEvent) (s : Live.Client U) :
  exists u t tr,
    Live.handleCedarEvent env behaviour event s
    = (Ok tt, Live.set_fields
                (with_world u t (trace (Live.fields s) ++ tr) (Live.fields s)) s)
    /\ invocations tr =
         match JSON_parse env (data event) with
         | Ok v =>
             match getProp v "channel" with
             | Ok (JStr channel) => map (fun h => (h, v)) (Live.subscribers channel s)
             | _ => []
             end
         | Throw _ => []
         end
    /\ Forall (fun e => quiet e = true) tr.
Proof using Hinert.
  unfold Live.handleCedarEvent, Live.try_catch, Live.bind at 1, Live.lift.
  destruct (JSON_parse env (data event)) as [v|e].
  - destruct (getProp v "channel") as [channel|e] eqn:Hch.
    + destruct (live_processCedarEvent_spec behaviour Hinert v channel s Hch)
        as (u & t & tr & -> & Hi & Hq).
      exists u, t, tr. split; [done|]. split; [|done].
      rewrite Hi. by destruct channel.
    + unfold Live.processCedarEvent, Live.bind at 1, Live.lift. rewrite Hch.
      destruct (live_log_spec (log_cedar_event_error e) s) as (tr & -> & Hi & Hq).
      by exists (user (Live.fields s)), (now (Live.fields s)), tr.
  - destruct (live_log_spec (log_cedar_event_error e) s) as (tr & -> & Hi & Hq).
    by exists (user (Live.fields s)), (now (Live.fields s)), tr.
Qed.

End LiveMessages.

(** X8. A frame of the named event [cedar-event], on a client whose
    subscribers do not call it, never makes the client throw and is counted
    in no metric: the counters, the time of the last message, the latency
    buffer and the status stay as they are.  When the frame parses, the
    parsed value is handed as it is, with no check of its shape and no
    conversion, to each subscriber of the channel that its [channel] names,
    once and in the order of subscription; when it does not parse, or parses
    to [null], or its [channel] is not a string, nobody is called. *)
Theorem cedar_event_uncounted {U} (env : Env)
    (behaviour : nat -> JSValue -> Live.M U unit) (s : Live.Client U)
    (event : MessageEvent) :
  Live.inert behaviour ->
  let c := Live.fields s in
  let c' := Live.fields (Live.exec (Live.handleCedarEvent env behaviour event) s) in
  Live.outcome (Live.handleCedarEvent env behaviour event) s = Ok tt
  /\ metrics c' = metrics c
  /\ latencyHistory c' = latencyHistory c
  /\ status c' = status c
  /\ exists tr,
       trace c' = trace c ++ tr
       /\ invocations tr =
            match JSON_parse env (data event) with
            | Ok v =>
                match getProp v "channel" with
                | Ok (JStr channel) =>
                    map (fun h => (h, v)) (Live.subscribers channel s)
                | _ => []
                end
            | Throw _ => []
            end.
Proof.
  intros Hin. cbv zeta.
  destruct (live_handleCedarEvent_spec env behaviour Hin event s)
    as (u & t & tr & Heq & Hi & _).
  unfold Live.outcome, Live.exec. rewrite Heq. cbn [fst snd].
  split; [done|]. split; [by destruct_live s|]. split; [by destruct_live s|].
  split; [by destruct_live s|].
  exists tr. split; [by destruct_live s | exact Hi].
Qed.

Lemma cedar_event_uncounted_witness :
  let s := Live.exec (Live.subscribe "system" 3%nat)
             (Live.exec (Live.subscribe "notifications" 2%nat)
                (Live.exec (Live.subscribe "notifications" 1%nat) Live.sample_client)) in
  let c' := Live.fields
              (Live.exec (Live.handleCedarEvent Live.event_env Live.second_throws
                            (mkMessageEvent "event")) s) in
  metrics c' = metrics (Live.fields s)
  /\ invocations (trace c') = [(1%nat, sample_event); (2%nat, sample_event)].
Proof.
  cbv zeta.
  destruct (cedar_event_uncounted Live.event_env Live.second_throws
              (Live.exec (Live.subscribe "system" 3%nat)
                 (Live.exec (Live.subscribe "notifications" 2%nat)
                    (Live.exec (Live.subscribe "notifications" 1%nat)
                       Live.sample_client)))
              (mkMessageEvent "event") second_throws_inert)
    as (_ & Hm & _ & _ & tr & Htr & Hi).
  split; [exact Hm|].
  rewrite Htr, invocations_app, Hi. vm_compute. reflexivity.
Defined.

(** X29. A frame of the default event that parses to a value other than
    [null], on a client whose subscribers do not call it, never makes the
    client throw and is dispatched exactly once: as it is when it has the
    native shape, and otherwise as the event that the legacy decoder builds
    from it with the time of arrival; each subscriber of the channel of the
    dispatched event is called once with it, in the order of subscription,
    and nobody else is. *)
Theorem message_routing {U} (env : Env)
    (behaviour : nat -> JSValue -> Live.M U unit) (s : Live.Client U)
    (event : MessageEvent) (v : JSValue) :
  Live.inert behaviour ->
  JSON_parse env (data event) = Ok v ->
  nullish v = false ->
  exists dispatched channel tr,
    (native_shape v -> dispatched = v)
    /\ (~ native_shape v ->
        legacyCedarEvent (JStr (toISOString env (now (Live.fields s)))) v
        = Ok dispatched)
    /\ getProp dispatched "channel" = Ok (JStr channel)
    /\ Live.outcome (Live.handleMessage env behaviour event) s = Ok tt
    /\ trace (Live.fields (Live.exec (Live.handleMessage env behaviour event) s))
       = trace (Live.fields s) ++ tr
    /\ invocations tr = map (fun h => (h, dispatched)) (Live.subscribers channel s).
Proof.
  intros Hin Hp Hn.
  destruct (live_handleMessage_parsed env behaviour Hin event v s Hp Hn)
    as (s' & tr & dispatched & channel & Heq & H1 & H2 & H3 & H4 & H5 & _).
  exists dispatched, channel, tr. unfold Live.outcome, Live.exec. rewrite Heq. done.
Qed.

Lemma message_routing_witness :
  let s := Live.exec (Live.subscribe "system" 3%nat)
             (Live.exec (Live.subscribe "notifications" 2%nat)
                (Live.exec (Live.subscribe "notifications" 1%nat) Live.sample_client)) in
  invocations (trace (Live.fields
                        (Live.exec (Live.handleMessage Live.event_env Live.second_throws
                                      (mkMessageEvent "event")) s)))
  = [(1%nat, sample_event); (2%nat, sample_event)]
  /\ exists legacy,
       legacyCedarEvent (JStr "1970-01-01T00:00:00.000Z") (JObj ∅) = Ok legacy
       /\ invocations (trace (Live.fields
                                (Live.exec (Live.handleMessage frames_env Live.second_throws
                                              (mkMessageEvent "bare")) s)))
          = [(3%nat, legacy)].
Proof.
  cbv zeta. split.
  - destruct (message_routing Live.event_env Live.second_throws
                (Live.exec (Live.subscribe "system" 3%nat)
                   (Live.exec (Live.subscribe "notifications" 2%nat)
                      (Live.exec (Live.subscribe "notifications" 1%nat)
                         Live.sample_client)))
                (mkMessageEvent "event") sample_event second_throws_inert
                eq_refl eq_refl)
      as (d & ch & tr & Hnat & _ & Hch & _ & Htr & Hi).
    assert (d = sample_event) as ->.
    { apply Hnat. eexists _, _, _, _, _. split; [reflexivity|].
      split_and!; [reflexivity..|discriminate|reflexivity]. }
    injection Hch as <-.
    rewrite Htr, invocations_app, Hi. vm_compute. reflexivity.
  - destruct (message_routing frames_env Live.second_throws
                (Live.exec (Live.subscribe "system" 3%nat)
                   (Live.exec (Live.subscribe "notifications" 2%nat)
                      (Live.exec (Live.subscribe "notifications" 1%nat)
                         Live.sample_client)))
                (mkMessageEvent "bare") (JObj ∅) second_throws_inert
                eq_refl eq_refl)
      as (d & ch & tr & _ & Hleg & Hch & _ & Htr & Hi).
    assert (Hl : legacyCedarEvent (JStr "1970-01-01T00:00:00.000Z") (JObj ∅) = Ok d).
    { apply Hleg. intros (f & ? & ? & ? & ? & [= <-] & Habs & _). done. }
    exists d. split; [exact Hl|].
    assert (ch = "system") as ->.
    { vm_compute in Hl. injection Hl as <-. vm_compute in Hch. by injection Hch. }
    rewrite Htr, invocations_app, Hi. vm_compute. reflexivity.
Defined.

(** X30. [disconnect()] on a client whose listeners do not call it always
    returns and leaves the status [disconnected].  The calls it makes are:
    when the status was not [disconnected] already, one call of each
    [status_change] listener with the old and the new status, and none
    otherwise; then, in every case, one call of each [disconnect] listener,
    in the order of registration. *)
Theorem disconnect_notifies_listeners {U}
    (behaviour : nat -> JSValue -> Live.M U unit) (s : Live.Client U) :
  Live.inert behaviour ->
  let c := Live.fields s in
  let c' := Live.fields (Live.exec (Live.disconnect behaviour) s) in
  Live.outcome (Live.disconnect behaviour) s = Ok tt
  /\ status c' = disconnected
  /\ exists tr,
       trace c' = trace c ++ tr
       /\ invocations tr =
            (if decide (status c = disconnected) then []
             else map (fun h => (h, JObj {[ "from" := JStr (status_name (status c));
                                            "to" := JStr "disconnected" ]}))
                      (Live.listeners ev_status_change s))
            ++ map (fun h => (h, JUndefined)) (Live.listeners ev_disconnect s).
Proof.
  intros Hin. cbv zeta.
  unfold Live.disconnect. destruct_live s. live_crunch. on_log. live_crunch.
  destruct c_reconnectTimer, c_heartbeatTimer, c_eventSource; live_crunch;
    on_live_setStatus Hin; on_live_emit Hin;
    (split; [done|]; split; [done|]);
    eexists; (split; [rewrite <- !app_assoc; reflexivity|]);
    rewrite !invocations_app; cbn [invocations flat_map app];
    rewrite ?invocations_app, Hi, Hi0, Hi1; reflexivity.
Qed.

Lemma disconnect_notifies_listeners_witness :
  let s := Live.exec (Live.onopen Live.returning)
             (Live.exec (Live.on ev_disconnect 3%nat)
                (Live.exec (Live.on ev_disconnect 2%nat)
                   (Live.exec (Live.on ev_status_change 1%nat) Live.sample_client))) in
  let s' := Live.exec (Live.disconnect Live.second_throws) s in
  let s'' := Live.exec (Live.disconnect Live.second_throws) s' in
  status (Live.fields s) = connected
  /\ exists tr tr',
       trace (Live.fields s') = trace (Live.fields s) ++ tr
       /\ invocations tr
          = [(1%nat, JObj {[ "from" := JStr "connected"; "to" := JStr "disconnected" ]});
             (2%nat, JUndefined); (3%nat, JUndefined)]
       /\ trace (Live.fields s'') = trace (Live.fields s') ++ tr'
       /\ invocations tr' = [(2%nat, JUndefined); (3%nat, JUndefined)].
Proof.
  cbv zeta. split; [vm_compute; reflexivity|].
  destruct (disconnect_notifies_listeners Live.second_throws
              (Live.exec (Live.onopen Live.returning)
                 (Live.exec (Live.on ev_disconnect 3%nat)
                    (Live.exec (Live.on ev_disconnect 2%nat)
                       (Live.exec (Live.on ev_status_change 1%nat) Live.sample_client))))
              second_throws_inert)
    as (_ & _ & tr & Htr & Hi).
  destruct (disconnect_notifies_listeners Live.second_throws
              (Live.exec (Live.disconnect Live.second_throws)
                 (Live.exec (Live.onopen Live.returning)
                    (Live.exec (Live.on ev_disconnect 3%nat)
                       (Live.exec (Live.on ev_disconnect 2%nat)
                          (Live.exec (Live.on ev_status_change 1%nat)
                             Live.sample_client)))))
              second_throws_inert)
    as (_ & _ & tr' & Htr' & Hi').
  exists tr, tr'. split; [exact Htr|]. split; [rewrite Hi; vm_compute; reflexivity|].
  split; [exact Htr'|]. rewrite Hi'. vm_compute. reflexivity.
Defined.

(** ** Giving up, and disconnecting *)

Section Idle.

Context {U : Type}.
Variable env : Env.
Local Abbreviation Client := (Client U).

(** A client at rest stays so, and opens and arms nothing, as long as
    nobody calls [connect()] and no transport reports an event. *)
Lemma react_idle (i : Input) (c : Client) :
  passive i = true ->
  at_rest c ->
  let c' := react env i c in
  at_rest c'
  /\ config c' = config c
  /\ transports_created (trace c') = transports_created (trace c)
  /\ timeouts_set (trace c') = timeouts_set (trace c)
  /\ intervals_set (trace c') = intervals_set (trace c).
Proof.
  intros Hp (Hrt & H1 & H2 & H3). cbv zeta. unfold at_rest.
  set (view := fun c : Client =>
         (status c, reconnectTimer c, config c,
          transports_created (trace c), timeouts_set (trace c),
          intervals_set (trace c))).
  assert (Hkept : view (react env i c) = view c ->
            (reconnectTimer (react env i c) = None
             /\ status (react env i c) <> connecting
             /\ status (react env i c) <> reconnecting
             /\ status (react env i c) <> connected)
            /\ config (react env i c) = config c
            /\ transports_created (trace (react env i c)) = transports_created (trace c)
            /\ timeouts_set (trace (react env i c)) = timeouts_set (trace c)
            /\ intervals_set (trace (react env i c)) = intervals_set (trace c)).
  { unfold view. intros [= -> -> -> -> -> ->]. done. }
  destruct i; try discriminate Hp; cbn [react] in *;
    try match goal with |- context [if reconnectTimer c is Some _ then _ else _] =>
          rewrite Hrt; done end;
    try match goal with |- context [if heartbeatTimer c is Some _ then _ else _] =>
          destruct (heartbeatTimer c); [|done] end;
    try (apply Hkept;
         match goal with |- view (exec ?m ?c) = _ =>
           clear Hkept Hrt H1 H2 H3; revert c; change (keeps view m); unfold view;
           solve [keeps_reads] end).
  - destruct (disconnect_spec c) as (u & t & tr & Heq & _ & _ & _ & E1 & E2 & E3).
    unfold exec. rewrite Heq. cbn [snd].
    destruct_client c. cbn in *.
    rewrite timeouts_set_app, transports_created_app, intervals_set_app,
      E1, E2, E3, !app_nil_r. done.
  - apply Hkept. unfold view. by destruct_client c.
Qed.

Lemma run_idle (inputs : list Input) (c : Client) :
  forallb passive inputs = true ->
  at_rest c ->
  let s := run env inputs c in
  at_rest s
  /\ config s = config c
  /\ transports_created (trace s) = transports_created (trace c)
  /\ timeouts_set (trace s) = timeouts_set (trace c)
  /\ intervals_set (trace s) = intervals_set (trace c).
Proof.
  revert c. induction inputs as [|i inputs IH]; intros c Hp Hc; [done|].
  cbn [forallb] in Hp. apply andb_prop in Hp as [Hi Hp].
  cbv zeta. change (run env (i :: inputs) c) with (run env inputs (react env i c)).
  destruct (react_idle i c Hi Hc) as (E1 & E2 & E3 & E4 & E4').
  destruct (IH (react env i c) Hp E1) as (? & E5 & E6 & E7 & E8).
  split_and!; try done; congruence.
Qed.

End Idle.

(** C1, as the code has it.  With [maxReconnectAttempts = K], [K >= 1], on
    a client that is not connected, has made no attempt and has no timer
    pending, and whose transport can be constructed: after each of the
    first [K] consecutive failures to open a reconnect is scheduled (the
    status is [reconnecting], a timer is pending, the attempt number is the
    number of failures so far); on failure [K + 1] the client gives up: the
    status is left [error], no timer is pending and [K] timers were armed in
    all.  From then on, as long as [connect()] is not called and no
    transport reports an event, whatever happens to the client arms no
    timer, starts no interval and opens no transport, and the status is
    never [connecting], [reconnecting] or [connected]; an explicit
    [connect()], at any such moment, starts a new attempt: the status is
    [connecting] and one new transport is opened. *)
Theorem reconnect_cap {U} (env : Env) (c : Client U) (K : nat)
    (fields : gmap string JSValue) (url : URL) :
  maxReconnectAttempts (config c) = Some (Z.of_nat K) ->
  (1 <= K)%nat ->
  status c <> connected -> status c <> connecting ->
  reconnectAttempts c = 0 -> reconnectTimer c = None ->
  new_URL env "/cedar/stream" (endpoint (config c)) = Ok url ->
  new_EventSource env (stream_url (channels (config c)) url) = None ->
  (forall n, (1 <= n <= K)%nat ->
     let s := run env (open_failures (JObj fields) n) c in
     status s = reconnecting
     /\ is_Some (reconnectTimer s)
     /\ reconnectAttempts s = Z.of_nat n)
  /\ let s := run env (open_failures (JObj fields) (S K)) c in
     status s = error
     /\ reconnectTimer s = None
     /\ reconnectAttempts s = Z.of_nat K
     /\ length (timeouts_set (trace s)) = (length (timeouts_set (trace c)) + K)%nat
     /\ forall inputs, forallb passive inputs = true ->
          let s' := run env inputs s in
          reconnectTimer s' = None
          /\ status s' <> connecting /\ status s' <> reconnecting
          /\ status s' <> connected
          /\ transports_created (trace s') = transports_created (trace s)
          /\ timeouts_set (trace s') = timeouts_set (trace s)
          /\ intervals_set (trace s') = intervals_set (trace s)
          /\ let s'' := react env CallConnect s' in
             status s'' = connecting
             /\ transports_created (trace s'')
                = transports_created (trace s') ++ [nextHandle s']
             /\ timeouts_set (trace s'') = timeouts_set (trace s').
Proof.
  intros Hmax HK H1 H2 Hra Hrt Hurl Hes. split.
  - intros n Hn.
    pose proof (open_failures_below_limit env c K fields url n
                  Hmax H1 H2 Hra Hrt Hurl Hes Hn) as H.
    cbv zeta in *. tauto.
  - pose proof (open_failures_at_limit env c K fields url
                  Hmax HK H1 H2 Hra Hrt Hurl Hes) as H.
    cbv zeta in *.
    set (s := run env (open_failures (JObj fields) (S K)) c) in *.
    destruct H as (Hst & Hrt' & Hra' & Hcfg & Hts).
    split_and!; try done.
    intros inputs Hp.
    destruct (run_idle env inputs s Hp) as ((E1 & E2 & E3 & E4) & E5 & E6 & E7 & E8).
    { unfold at_rest. rewrite Hst. done. }
    set (s' := run env inputs s) in *.
    split_and!; try done.
    all: destruct (connect_opens env s' url)
           as (c' & tr & Hc & Hst' & _ & _ & _ & _ & Htr & Hts' & Htc);
           try congruence;
         cbn [react]; unfold exec; rewrite Hc; cbn [snd]; try done.
    + by rewrite Htr, transports_created_app, Htc.
    + by rewrite Htr, timeouts_set_app, Hts', app_nil_r.
Qed.

Lemma reconnect_cap_witness :
  let s := run sample_env (open_failures (JObj ∅) 3) sample_client in
  let s' := run sample_env
              [ReconnectTimerFires; TimePasses 5000; HeartbeatTimerFires "id" fetch_ok;
               CallSend "system" JNull fetch_ok; CallDisconnect] s in
  status s = error
  /\ reconnectTimer s = None
  /\ reconnectAttempts s = 2
  /\ length (timeouts_set (trace s)) = 2%nat
  /\ reconnectTimer s' = None
  /\ transports_created (trace s') = [0; 2; 4]%nat
  /\ timeouts_set (trace s') = [1; 3]%nat
  /\ status (react sample_env CallConnect s') = connecting
  /\ transports_created (trace (react sample_env CallConnect s')) = [0; 2; 4; 5]%nat.
Proof.
  destruct (reconnect_cap sample_env sample_client 2 ∅
              (mkURL "http://localhost:8000/cedar/stream" []))
    as (_ & H1 & H2 & H3 & H4 & H5);
    [reflexivity | lia | discriminate | discriminate | reflexivity
    | reflexivity | reflexivity | reflexivity |].
  split; [exact H1|]. split; [exact H2|]. split; [exact H3|]. split; [exact H4|].
  destruct (H5 [ReconnectTimerFires; TimePasses 5000; HeartbeatTimerFires "id" fetch_ok;
                CallSend "system" JNull fetch_ok; CallDisconnect] eq_refl)
    as (E1 & _ & _ & _ & E2 & E3 & _ & E4 & E5 & _).
  split; [exact E1|]. split; [rewrite E2; vm_compute; reflexivity|].
  split; [rewrite E3; vm_compute; reflexivity|]. split; [exact E4|].
  rewrite E5, E2. vm_compute. reflexivity.
Defined.

(** C1, as the specification states it, does not hold, in two ways.  With
    [maxReconnectAttempts = 2], after two consecutive failures to open the
    status is [reconnecting] and a second timer has been armed and is
    pending: the client gives up on the third failure.  And once it has
    given up, it takes no [connect()] to resume: the transport of the last
    attempt was not closed, and when it reports that it is open and then an
    error, the client schedules a reconnect, arms a third timer and, when
    that fires, opens a fourth transport. *)
Lemma reconnect_cap_counterexample :
  (let s := run sample_env (open_failures (JObj ∅) 2) sample_client in
   maxReconnectAttempts (config s) = Some 2
   /\ status s = reconnecting
   /\ reconnectTimer s = Some 3%nat
   /\ timeouts_set (trace s) = [1%nat; 3%nat])
  /\ (let s := run sample_env (open_failures (JObj ∅) 3) sample_client in
      let inputs := [TransportOpen; TransportError (JObj ∅); ReconnectTimerFires] in
      let s' := run sample_env inputs s in
      status s = error /\ reconnectTimer s = None
      /\ eventSource s = Some 4%nat /\ transports_closed (trace s) = []
      /\ ~ In CallConnect inputs
      /\ status s' = connecting
      /\ timeouts_set (trace s') = [1; 3; 6]%nat
      /\ transports_created (trace s') = [0; 2; 4; 7]%nat).
Proof.
  split; [vm_compute; done|].
  cbv zeta. split_and!; try (vm_compute; reflexivity).
  intros [H|[H|[H|[]]]]; discriminate H.
Qed.


